(** * pisap / pysap reconstruction core: gradient, proximity and wavelet
      operators

    A shallow embedding of
      - [pisap/numerics/gradient.py]  (gradient operators, power iteration)
      - [pysap/plugins/mri/parallel_mri_online/proximity.py]
        (NuclearNorm, GroupLasso, SparseGroupLasso, OWL,
         MultiLevelNuclearNorm, k_support_norm)
      - [pysap/plugins/mri/reconstruct/linear.py]  (Wavelet2)

    Numbers are real numbers ([R]); complex samples are pairs of reals.
    Python exceptions are values of an error monad, instance attributes
    are record fields (or, where a method reads an attribute that no
    constructor writes, an attribute dictionary), and a method that
    assigns to [self] returns the updated object; the methods of
    [Wavelet2] run in a small state and error monad over the
    instance. *)

From Stdlib Require Import Reals Lra Lia List ZArith String Bool.
From Stdlib Require Import Sorting Permutation.
From stdpp Require Import base strings gmap sorting.
Import ListNotations.
Open Scope R_scope.

(** ** Python: exceptions and calls *)

Module Py.

Inductive exn : Set :=
| TypeError
| ValueError
| NameError
| UnboundLocalError
| AttributeError
| IndexError
| ZeroDivisionError
| NotImplementedError.

Inductive result (A : Type) : Type :=
| Ok (a : A)
| Raise (e : exn).

Arguments Ok {A} a.
Arguments Raise {A} e.

Definition bind {A B : Type} (m : result A) (k : A -> result B) : result B :=
  match m with
  | Ok a => k a
  | Raise e => Raise e
  end.

(** [self.name] on an attribute that may not have been assigned. *)
Definition attr {A : Type} (field : option A) : result A :=
  match field with
  | Some a => Ok a
  | None => Raise AttributeError
  end.

(** Reading a local variable that may not have been bound. *)
Definition local {A : Type} (v : option A) : result A :=
  match v with
  | Some a => Ok a
  | None => Raise UnboundLocalError
  end.

(** A method [def m(self, a)] applied to a list of positional arguments. *)
Definition params1 {A B : Type} (body : A -> result B) (args : list A)
  : result B :=
  match args with
  | [a] => body a
  | _ => Raise TypeError
  end.

(** A method [def m(self, a, b)] applied to a list of positional arguments. *)
Definition params2 {A B : Type} (body : A -> A -> result B) (args : list A)
  : result B :=
  match args with
  | [a; b] => body a b
  | _ => Raise TypeError
  end.

Definition is_ok {A : Type} (m : result A) : bool :=
  match m with
  | Ok _ => true
  | Raise _ => false
  end.

(** A [str] object: its text, and whether the object is the interpreter's
    shared (interned) copy of that text.  A string constant made of
    letters, digits and underscores is interned when its module is
    compiled, and so is the same constant written by a caller; a string
    built while the program runs (a concatenation, [str.join], a line
    read from a file) is a new object. *)
Record pystr : Type := {
  chars : string;
  interned : bool
}.

(** The constant [s] of a program text. *)
Definition literal (s : string) : pystr :=
  {| chars := s; interned := true |}.

(** [s is 'lit'] for an identifier-like constant ['lit']: the test
    compares objects, not texts, and holds for the shared copy of the
    text only. *)
Definition is_literal (s : pystr) (lit : string) : bool :=
  interned s && String.eqb (chars s) lit.

End Py.

Import Py.

Notation "x <- m ;; k" := (Py.bind m (fun x => k))
  (at level 100, m at next level, right associativity).

(** [for x in l: acc.append(f(x))], stopping at the first exception. *)
Fixpoint map_result {A B : Type} (f : A -> result B) (l : list A)
  : result (list B) :=
  match l with
  | [] => Ok []
  | x :: l' =>
      b <- f x ;;
      bs <- map_result f l' ;;
      Ok (b :: bs)
  end.

(** ** gradient.py *)

Module Gradient.

Section Operators.

(** The array type and the numpy / scipy operations the module applies to
    it.  [generic_l2_norm] is imported from [pisap.base.utils]. *)
Context {arr : Type}.
Variable sub : arr -> arr -> arr.
Variable mul : arr -> arr -> arr.
Variable div_scalar : arr -> R -> arr.
Variable sum_axis0 : arr -> arr.
Variable conjugate : arr -> arr.
Variable fft2 : arr -> arr.
Variable ifft2 : arr -> arr.
Variable generic_l2_norm : arr -> R.
(** [np.zeros((n, n))], one draw of [np.random.random((n, n))], and one
    draw of a random coefficient vector shaped like its argument. *)
Variable zeros_image : nat -> arr.
Variable random_image : nat -> arr.
Variable random_like : arr -> arr.

(** Fourier operators ([op], [adj_op], [img_size]) and linear operators. *)
Record FourierOp : Type := {
  ft_op : arr -> arr;
  ft_adj_op : arr -> arr;
  img_size : nat
}.

Record LinearOp : Type := {
  lin_op : arr -> arr;
  lin_adj_op : arr -> arr
}.

(** The [ft_cls] argument: a Fourier operator, or a dict from a Fourier
    class (named) to the keyword arguments to build it with. *)
Variable kwargs : Type.
Variable instantiate : string -> kwargs -> result FourierOp.

Inductive ft_arg : Type :=
| FtDict (d : gmap string kwargs)
| FtObj (o : FourierOp).

Inductive grad_class : Set :=
| GradBase
| Grad2DAnalysis
| Grad2DSynthesis.

(** An instance of the [GradBase] hierarchy.  A field is [None] until a
    method assigns it. *)
Record GradObj : Type := {
  cls : grad_class;
  y : option arr;
  analysis : option bool;
  ft_cls : option FourierOp;
  linear_cls : option LinearOp;
  spec_rad : option R;
  inv_spec_rad : option R;
  grad : option arr
}.

Definition set_spec_rad (self : GradObj) (v : R) : GradObj :=
  {| cls := cls self; y := y self; analysis := analysis self;
     ft_cls := ft_cls self; linear_cls := linear_cls self;
     spec_rad := Some v; inv_spec_rad := inv_spec_rad self;
     grad := grad self |}.

Definition set_inv_spec_rad (self : GradObj) (v : R) : GradObj :=
  {| cls := cls self; y := y self; analysis := analysis self;
     ft_cls := ft_cls self; linear_cls := linear_cls self;
     spec_rad := spec_rad self; inv_spec_rad := Some v;
     grad := grad self |}.

Definition set_grad (self : GradObj) (v : arr) : GradObj :=
  {| cls := cls self; y := y self; analysis := analysis self;
     ft_cls := ft_cls self; linear_cls := linear_cls self;
     spec_rad := spec_rad self; inv_spec_rad := inv_spec_rad self;
     grad := Some v |}.

(** [get_initial_x], resolved on the class of [self]. *)
Definition get_initial_x (self : GradObj) : result arr :=
  match cls self with
  | GradBase => Raise NotImplementedError
  | Grad2DAnalysis =>
      ft <- attr (ft_cls self) ;;
      Ok (random_image (img_size ft))
  | Grad2DSynthesis =>
      ft <- attr (ft_cls self) ;;
      let fake_data := zeros_image (img_size ft) in
      lin <- attr (linear_cls self) ;;
      let trf := lin_op lin fake_data in
      Ok (random_like trf)
  end.

(** [MX]: the forward chain. *)
Definition MX (self : GradObj) : list arr -> result arr :=
  match cls self with
  | GradBase => params1 (fun x => Raise NotImplementedError)
  | Grad2DAnalysis =>
      params1 (fun x =>
        ft <- attr (ft_cls self) ;;
        Ok (ft_op ft x))
  | Grad2DSynthesis =>
      params1 (fun alpha =>
        ft <- attr (ft_cls self) ;;
        lin <- attr (linear_cls self) ;;
        Ok (ft_op ft (lin_adj_op lin alpha)))
  end.

(** [MtX]: the adjoint chain. *)
Definition MtX (self : GradObj) : list arr -> result arr :=
  match cls self with
  | GradBase => params1 (fun x => Raise NotImplementedError)
  | Grad2DAnalysis =>
      params1 (fun x =>
        ft <- attr (ft_cls self) ;;
        Ok (ft_adj_op ft x))
  | Grad2DSynthesis =>
      params1 (fun x =>
        lin <- attr (linear_cls self) ;;
        ft <- attr (ft_cls self) ;;
        Ok (lin_op lin (ft_adj_op ft x)))
  end.

(** [GradBase.MtMX]: [self.MtX(self.MX(x))]. *)
Definition MtMX (self : GradObj) : list arr -> result arr :=
  params1 (fun x =>
    mx <- MX self [x] ;;
    MtX self [mx]).

(** The [for] loop of [get_spec_rad]: [n] iterations are left, [x_new] is
    [None] while the loop body has not run yet.  The result is the value
    of [x_new] when the loop is left. *)
Fixpoint spec_rad_loop (self : GradObj) (tolerance : R) (n : nat)
  (x_old : arr) (x_new : option arr) : result (option arr) :=
  match n with
  | O => Ok x_new
  | S n' =>
      m <- MtMX self [x_old] ;;
      let x_new' := div_scalar m (generic_l2_norm x_old) in
      if Rlt_dec (Rabs (generic_l2_norm x_new' - generic_l2_norm x_old))
                 tolerance
      then Ok (Some x_new')
      else spec_rad_loop self tolerance n' x_new' (Some x_new')
  end.

(** [GradBase.get_spec_rad(tolerance, max_iter, coef_mul)]. *)
Definition get_spec_rad (self : GradObj) (tolerance : R) (max_iter : nat)
  (coef_mul : R) : result GradObj :=
  x_old <- get_initial_x self ;;
  last <- spec_rad_loop self tolerance max_iter x_old None ;;
  x_new <- local last ;;
  let self1 := set_spec_rad self (coef_mul * generic_l2_norm x_new) in
  sr <- attr (spec_rad self1) ;;
  Ok (set_inv_spec_rad self1 (1 / sr)).

(** [GradBase.get_grad(x)]: [self.grad = self.MtX(self.MX(x) - self.y)]. *)
Definition get_grad (self : GradObj) (x : arr) : result GradObj :=
  mx <- MX self [x] ;;
  yv <- attr (y self) ;;
  g <- MtX self [sub mx yv] ;;
  Ok (set_grad self g).

(** The default arguments of [get_spec_rad]. *)
Definition default_tolerance : R := 1 / 10000.
Definition default_max_iter : nat := 20.
Definition default_coef_mul : R := 11 / 10.

(** The [isinstance(ft_cls, dict)] block shared by the two constructors;
    [too_many] is what the [raise] statement of the class evaluates to. *)
Definition resolve_ft_cls (too_many : exn) (ft : ft_arg) : result FourierOp :=
  match ft with
  | FtDict d =>
      if (1 <? size d)%nat then Raise too_many
      else
        match map_to_list d with
        | (k, v) :: _ => instantiate k v
        | [] => Raise IndexError
        end
  | FtObj o => Ok o
  end.

(** [Grad2DAnalysis.__init__(data, ft_cls, linear_cls=None)]; the
    constructor does not use [linear_cls]. *)
Definition Grad2DAnalysis_init (data : arr) (ft : ft_arg)
  (linear : option LinearOp) : result GradObj :=
  f <- resolve_ft_cls ValueError ft ;;
  let self :=
    {| cls := Grad2DAnalysis; y := Some data; analysis := Some true;
       ft_cls := Some f; linear_cls := None;
       spec_rad := None; inv_spec_rad := None; grad := None |} in
  get_spec_rad self default_tolerance default_max_iter default_coef_mul.

(** [Grad2DSynthesis.__init__(data, ft_cls, linear_cls)].  Its [raise]
    statement names [valueerror], which is bound nowhere: evaluating it
    is a [NameError]. *)
Definition Grad2DSynthesis_init (data : arr) (ft : ft_arg)
  (linear : LinearOp) : result GradObj :=
  f <- resolve_ft_cls NameError ft ;;
  let self :=
    {| cls := Grad2DSynthesis; y := Some data; analysis := Some false;
       ft_cls := Some f; linear_cls := Some linear;
       spec_rad := None; inv_spec_rad := None; grad := None |} in
  get_spec_rad self default_tolerance default_max_iter default_coef_mul.

(** *** Grad2DSynthese_Pmri

    The class does not derive from [GradBase]; its own methods are
    embedded here.  [MX], [MtX] and [MtMX] are declared with the
    parameters [(self, smap, ...)]. *)
Record PmriObj : Type := {
  p_y : arr;
  p_smap : option arr;
  p_mask : option arr;
  p_linear_operator : LinearOp;
  p_grad : option arr
}.

Definition p_set_grad (self : PmriObj) (v : arr) : PmriObj :=
  {| p_y := p_y self; p_smap := p_smap self; p_mask := p_mask self;
     p_linear_operator := p_linear_operator self; p_grad := Some v |}.

(** A [None] operand of [*] is a [TypeError]. *)
Definition operand (v : option arr) : result arr :=
  match v with
  | Some a => Ok a
  | None => Raise TypeError
  end.

Definition Pmri_MX (self : PmriObj) : list arr -> result arr :=
  params2 (fun smap alpha =>
    m <- operand (p_mask self) ;;
    s <- operand (p_smap self) ;;
    Ok (mul m (fft2 (mul s (lin_adj_op (p_linear_operator self) alpha))))).

Definition Pmri_MtX (self : PmriObj) : list arr -> result arr :=
  params2 (fun smap coeffs =>
    s <- operand (p_smap self) ;;
    m <- operand (p_mask self) ;;
    Ok (lin_op (p_linear_operator self)
          (mul (conjugate s) (ifft2 (mul m coeffs))))).

(** [Pmri.MtMX(self, smap, coeffs)]: its body reads [x], which is neither
    a parameter nor a global. *)
Definition Pmri_MtMX (self : PmriObj) : list arr -> result arr :=
  params2 (fun smap coeffs =>
    x <- (Raise NameError : result arr) ;;
    mx <- Pmri_MX self [x] ;;
    r <- Pmri_MtX self [mx] ;;
    Ok (sum_axis0 r)).

(** [Pmri.get_grad(x)]:
    [self.grad = np.sum(self.MtX(self.MX(x) - self.y), axis=0)]. *)
Definition Pmri_get_grad (self : PmriObj) (x : arr) : result PmriObj :=
  mx <- Pmri_MX self [x] ;;
  r <- Pmri_MtX self [sub mx (p_y self)] ;;
  Ok (p_set_grad self (sum_axis0 r)).

(** *** Vocabulary for the power iteration

    One step from [x], for a normal operator [f]: [f(x)] divided by the
    L2 norm of [x]; the iterate after [k] steps; and the test that ends
    the loop, on two consecutive iterates. *)
Definition power_step (f : arr -> arr) (x : arr) : arr :=
  div_scalar (f x) (generic_l2_norm x).

Fixpoint power_iterate (f : arr -> arr) (k : nat) (x : arr) : arr :=
  match k with
  | O => x
  | S k' => power_iterate f k' (power_step f x)
  end.

Definition norm_change (a b : arr) : R :=
  Rabs (generic_l2_norm b - generic_l2_norm a).

End Operators.

End Gradient.

(** ** Python values, as far as the constructors inspect them *)

Module PyVal.

#[local] Set Warnings "-register-all".

Inductive pyval : Type :=
| VNone
| VInt (n : Z)
| VFloat (r : R)
| VStr (s : string)
| VTuple (l : list pyval)
| VList (l : list pyval).

(** [type(v) is list]. *)
Definition is_list (v : pyval) : bool :=
  match v with
  | VList _ => true
  | _ => false
  end.

(** [len(v)]. *)
Definition len (v : pyval) : result nat :=
  match v with
  | VTuple l | VList l => Ok (length l)
  | VStr s => Ok (String.length s)
  | _ => Raise TypeError
  end.

(** [v[0]]. *)
Definition item0 (v : pyval) : result pyval :=
  match v with
  | VTuple l | VList l =>
      match l with
      | x :: _ => Ok x
      | [] => Raise IndexError
      end
  | VStr s =>
      match s with
      | String c _ => Ok (VStr (String c EmptyString))
      | EmptyString => Raise IndexError
      end
  | _ => Raise TypeError
  end.

(** [for x in v]: the items of a tuple or a list. *)
Definition iter (v : pyval) : result (list pyval) :=
  match v with
  | VTuple l | VList l => Ok l
  | _ => Raise TypeError
  end.

(** [v * extra_factor] for a float [extra_factor]: only numbers multiply
    with a float. *)
Definition times_float (v : pyval) (f : R) : result R :=
  match v with
  | VInt n => Ok (IZR n * f)
  | VFloat r => Ok (r * f)
  | _ => Raise TypeError
  end.

(** [v * n] for an int [n]: arithmetic on numbers, repetition on
    sequences. *)
Definition times_int (v : pyval) (n : Z) : result pyval :=
  match v with
  | VInt m => Ok (VInt (m * n))
  | VFloat r => Ok (VFloat (r * IZR n))
  | VTuple l => Ok (VTuple (concat (repeat l (Z.to_nat n))))
  | VList l => Ok (VList (concat (repeat l (Z.to_nat n))))
  | _ => Raise TypeError
  end.

(** A tuple of ints, as the [shape] of an array is. *)
Definition of_shape (s : list nat) : pyval :=
  VTuple (map (fun n => VInt (Z.of_nat n)) s).

(** [n == v] for an int [n]: numbers compare by value. *)
Definition int_eqb (n : nat) (v : pyval) : bool :=
  match v with
  | VInt m => (Z.of_nat n =? m)%Z
  | VFloat r => if Req_dec_T (INR n) r then true else false
  | _ => false
  end.

Fixpoint all2 {A B : Type} (p : A -> B -> bool) (l : list A) (m : list B)
  : bool :=
  match l, m with
  | [], [] => true
  | x :: l', y :: m' => p x y && all2 p l' m'
  | _, _ => false
  end.

(** [s == v] for a shape tuple [s]: a tuple equals only a tuple, item by
    item. *)
Definition shape_eqb (s : list nat) (v : pyval) : bool :=
  match v with
  | VTuple l => all2 int_eqb s l
  | _ => false
  end.

(** [v[:-1]]. *)
Definition but_last (v : pyval) : result pyval :=
  match v with
  | VTuple l => Ok (VTuple (removelast l))
  | VList l => Ok (VList (removelast l))
  | VStr s => Ok (VStr (substring 0 (String.length s - 1) s))
  | _ => Raise TypeError
  end.

(** The items of a tuple or list of non-negative ints. *)
Fixpoint dims (l : list pyval) : result (list nat) :=
  match l with
  | [] => Ok []
  | VInt n :: l' =>
      if (n <? 0)%Z then Raise ValueError
      else (ds <- dims l' ;; Ok (Z.to_nat n :: ds))
  | _ :: _ => Raise TypeError
  end.

End PyVal.

Import PyVal.

(** ** numpy arrays *)

Module Np.

(** Complex samples. *)
Definition Cx : Type := R * R.

Definition of_real (r : R) : Cx := (r, 0).
Definition czero : Cx := (0, 0).
Definition cadd (a b : Cx) : Cx := (fst a + fst b, snd a + snd b).
Definition cmul (a b : Cx) : Cx :=
  (fst a * fst b - snd a * snd b, fst a * snd b + snd a * fst b).
(** [z * r] and [z / r] for a real [r]. *)
Definition cscale (z : Cx) (r : R) : Cx := (fst z * r, snd z * r).
Definition cdiv (z : Cx) (r : R) : Cx := (fst z / r, snd z / r).
(** [np.abs(z)]. *)
Definition cabs (z : Cx) : R := sqrt (fst z * fst z + snd z * snd z).

(** [np.finfo(np.float32).eps] and [np.finfo(np.float64).eps]. *)
Definition eps32 : R := / 8388608.
Definition eps64 : R := / 4503599627370496.

(** An array: its shape and its items in C (row-major) order. *)
Record ndarray (A : Type) : Type := {
  shape : list nat;
  flat : list A
}.

Arguments shape {A} n.
Arguments flat {A} n.

Definition size_of (s : list nat) : nat := fold_right Nat.mul 1%nat s.

Definition wf {A : Type} (a : ndarray A) : Prop :=
  length (flat a) = size_of (shape a).

(** [np.prod(t)] where an int is required.  The product of the empty
    tuple is the float [1.0], which no shape accepts. *)
Definition prod_dim (t : list nat) : result nat :=
  match t with
  | [] => Raise TypeError
  | _ => Ok (size_of t)
  end.

(** [np.reshape(a, new)]: the items are kept, their number must match. *)
Definition reshape {A : Type} (a : ndarray A) (new : list nat)
  : result (ndarray A) :=
  if (size_of new =? length (flat a))%nat
  then Ok {| shape := new; flat := flat a |}
  else Raise ValueError.

(** [l[idx]] for a list of indices (fancy indexing), where every index
    is in range. *)
Definition gather {A : Type} (idx : list nat) (l : list A) : list A :=
  omap (fun i => l !! i) idx.

(** [np.moveaxis(a, 0, -1)]: item [(k, j)] of the [c x r] input is item
    [(j, k)] of the output. *)
Definition moveaxis_0_last {A : Type} (a : ndarray A) : result (ndarray A) :=
  match shape a with
  | [] => Raise ValueError
  | c :: rest =>
      let r := size_of rest in
      Ok {| shape := rest ++ [c];
            flat := gather
                      (flat_map (fun j => map (fun k => (k * r + j)%nat)
                                              (seq 0 c)) (seq 0 r))
                      (flat a) |}
  end.

(** [np.moveaxis(a, -1, 0)]. *)
Definition moveaxis_last_0 {A : Type} (a : ndarray A) : result (ndarray A) :=
  match rev (shape a) with
  | [] => Raise ValueError
  | c :: rinit =>
      let r := size_of rinit in
      Ok {| shape := c :: rev rinit;
            flat := gather
                      (flat_map (fun k => map (fun j => (j * c + k)%nat)
                                              (seq 0 r)) (seq 0 c))
                      (flat a) |}
  end.

(** [a.shape[-1]]. *)
Definition last_dim {A : Type} (a : ndarray A) : result nat :=
  match rev (shape a) with
  | [] => Raise IndexError
  | c :: _ => Ok c
  end.

(** [a.shape[0]]. *)
Definition first_dim {A : Type} (a : ndarray A) : result nat :=
  match shape a with
  | [] => Raise IndexError
  | c :: _ => Ok c
  end.

(** A number, where an array is expected: an array without axes. *)
Definition scalar {A : Type} (x : A) : ndarray A :=
  {| shape := []; flat := [x] |}.

(** [np.abs(a)]. *)
Definition absolute (a : ndarray Cx) : ndarray R :=
  {| shape := shape a; flat := map cabs (flat a) |}.

(** *** Broadcasting

    numpy aligns two shapes at their last axis: the shorter shape gets
    axes of length one in front, and two axes match when their lengths
    are equal or one of them is one. *)
Definition pad (s : list nat) (n : nat) : list nat :=
  repeat 1%nat (n - length s) ++ s.

Definition broadcast_axis (xy : nat * nat) : result nat :=
  let '(x, y) := xy in
  if (x =? y)%nat then Ok x
  else if (x =? 1)%nat then Ok y
  else if (y =? 1)%nat then Ok x
  else Raise ValueError.

Definition broadcast_shapes (a b : list nat) : result (list nat) :=
  let n := Nat.max (length a) (length b) in
  map_result broadcast_axis (combine (pad a n) (pad b n)).

(** The position, among the items of an array of shape [src], of item
    [i] of its broadcast to a shape [target] of as many axes: along an
    axis of length one the only item is repeated. *)
Fixpoint source_index (src target : list nat) (i : nat) : nat :=
  match src, target with
  | s :: src', t :: target' =>
      let k := (i / size_of target')%nat in
      ((if (s =? 1)%nat then 0 else k) * size_of src'
       + source_index src' target' (i mod size_of target'))%nat
  | _, _ => 0%nat
  end.

(** An axis of a broadcast array fits the axis of the shape it is
    broadcast to. *)
Definition axis_fits (x t : nat) : Prop := x = t \/ x = 1%nat.

(** [f(a, b)] item by item for two arrays, after broadcasting. *)
Definition broadcast2 {A B C : Type} (f : A -> B -> C) (da : A) (db : B)
  (a : ndarray A) (b : ndarray B) : result (ndarray C) :=
  s <- broadcast_shapes (shape a) (shape b) ;;
  let n := length s in
  Ok {| shape := s;
        flat := map (fun i =>
                  f (nth (source_index (pad (shape a) n) s i) (flat a) da)
                    (nth (source_index (pad (shape b) n) s i) (flat b) db))
                  (seq 0 (size_of s)) |}.

Fixpoint same_shape (a b : list nat) : bool :=
  match a, b with
  | [], [] => true
  | x :: a', y :: b' => (x =? y)%nat && same_shape a' b'
  | _, _ => false
  end.

(** [np.asarray(l)] for a list of arrays: the arrays stacked along a new
    first axis.  Arrays of different shapes make no array. *)
Definition asarray {A : Type} (l : list (ndarray A)) : result (ndarray A) :=
  match l with
  | [] => Ok {| shape := [0%nat]; flat := [] |}
  | a :: _ =>
      if forallb (fun b => same_shape (shape b) (shape a)) l
      then Ok {| shape := length l :: shape a; flat := concat (map flat l) |}
      else Raise ValueError
  end.

Definition csum (l : list Cx) : Cx := fold_right cadd czero l.
Definition rsum (l : list R) : R := fold_right Rplus 0 l.

(** [u * s] for a matrix [u] and a vector [s] with one item per column of
    [u]. *)
Definition scale_columns (u : ndarray Cx) (s : list R) : result (ndarray Cx) :=
  c <- last_dim u ;;
  if (c =? length s)%nat
  then Ok {| shape := shape u;
             flat := imap (fun i z => cscale z (nth (i mod c) s 0))
                          (flat u) |}
  else Raise ValueError.

(** [np.dot(a, b)] for two matrices. *)
Definition dot (a b : ndarray Cx) : result (ndarray Cx) :=
  match shape a, shape b with
  | [m; k], [k'; n] =>
      if (k =? k')%nat
      then Ok {| shape := [m; n];
                 flat := flat_map (fun i =>
                           map (fun j =>
                             csum (map (fun l =>
                               cmul (nth (i * k + l) (flat a) czero)
                                    (nth (l * n + j) (flat b) czero))
                               (seq 0 k)))
                             (seq 0 n))
                           (seq 0 m) |}
      else Raise ValueError
  | _, _ => Raise ValueError
  end.

(** [l[i]] for a Python index [i]: negative indices count from the end. *)
Definition index {A : Type} (l : list A) (i : Z) : result A :=
  let n := Z.of_nat (length l) in
  if (0 <=? i)%Z && (i <? n)%Z then
    match l !! Z.to_nat i with
    | Some x => Ok x
    | None => Raise IndexError
    end
  else if (- n <=? i)%Z && (i <? 0)%Z then
    match l !! Z.to_nat (n + i) with
    | Some x => Ok x
    | None => Raise IndexError
    end
  else Raise IndexError.

(** The bound [i] of a slice of a list of length [n], clipped. *)
Definition slice_bound (n : nat) (i : Z) : nat :=
  let nz := Z.of_nat n in
  if (i <? 0)%Z then Z.to_nat (Z.max 0 (nz + i))
  else Z.to_nat (Z.min nz i).

(** [l[i:j]]. *)
Definition slice {A : Type} (l : list A) (i j : Z) : list A :=
  let a := slice_bound (length l) i in
  let b := slice_bound (length l) j in
  take (b - a) (drop a l).

(** Sorting on reals: insertion into a list sorted by ascending key, after
    the items with an equal key. *)
Fixpoint insert_by {A : Type} (key : A -> R) (x : A) (l : list A) : list A :=
  match l with
  | [] => [x]
  | h :: t =>
      if Rlt_dec (key x) (key h) then x :: h :: t
      else h :: insert_by key x t
  end.

Definition sort_by {A : Type} (key : A -> R) (l : list A) : list A :=
  fold_left (fun acc x => insert_by key x acc) l [].

(** The order that [sort_by] sorts into. *)
Definition by_key {A : Type} (key : A -> R) (a b : A) : Prop :=
  key a <= key b.

(** [np.sort(v)]. *)
Definition sort (v : list R) : list R := sort_by (fun x => x) v.

(** [np.argsort(v)]: the indices that sort [v] in ascending order.  Equal
    items keep their order here; numpy leaves the order of ties to the
    sort kind. *)
Definition argsort (v : list R) : list nat :=
  sort_by (fun i => nth i v 0) (seq 0 (length v)).

End Np.

(** ** proximity.py *)

Import Np.

(** [np.prod(v)] where an int is required: the product of the dimensions
    of a tuple or list of ints, or the int itself. *)
Definition prod_of (v : pyval) : result nat :=
  match v with
  | VInt n => if (n <? 0)%Z then Raise ValueError else Ok (Z.to_nat n)
  | VTuple l | VList l => ds <- dims l ;; prod_dim ds
  | _ => Raise TypeError
  end.

Module NuclearNorm.

Record t : Type := {
  weights : pyval;
  patch_shape : pyval;
  overlapping_factor : Z
}.

(** [NuclearNorm.__init__(weights, patch_shape, overlapping_factor=1)]. *)
Definition __init__ (w p : pyval) (overlap : Z) : t :=
  {| weights := w; patch_shape := p; overlapping_factor := overlap |}.

Section Ops.

(** [np.linalg.svd(m, full_matrices=False)]. *)
Variable svd : ndarray Cx -> ndarray Cx * list R * ndarray Cx.
(** The patch utilities of [parallel_mri_online.utils].  The patches are
    the items of the array along its first axis. *)
Variable extract_patches_2d :
  ndarray Cx -> pyval -> Z -> result (list (ndarray Cx)).
Variable reconstruct_non_overlapped_patches_2d :
  list (ndarray Cx) -> list nat -> result (ndarray Cx).
Variable reconstruct_overlapped_patches_2d :
  list nat -> list (ndarray Cx) -> list Z -> result (ndarray Cx).

(** The shrinkage of the singular values:
    [s * np.maximum(1 - threshold / np.maximum(eps, np.abs(s)), 0)]. *)
Definition shrink (threshold : R) (s : list R) : list R :=
  map (fun x => x * Rmax (1 - threshold / Rmax eps32 (Rabs x)) 0) s.

Definition _prox_nuclear_norm (self : t) (patch : ndarray Cx) (threshold : R)
  : result (ndarray Cx) :=
  lead <- but_last (patch_shape self) ;;
  rows <- prod_of lead ;;
  cols <- last_dim patch ;;
  m <- reshape patch [rows; cols] ;;
  let '(u, s, vh) := svd m in
  let s' := shrink threshold s in
  us <- scale_columns u s' ;;
  d <- dot us vh ;;
  reshape d (shape patch).

Definition _nuclear_norm_cost (self : t) (patch : ndarray Cx) : result R :=
  lead <- but_last (patch_shape self) ;;
  rows <- prod_of lead ;;
  cols <- last_dim patch ;;
  m <- reshape patch [rows; cols] ;;
  let '(_, s, _) := svd m in
  Ok (rsum (map Rabs s)).

(** [[int(P_shape / self.overlapping_factor) for P_shape in
    self.patch_shape]], for a patch shape made of ints. *)
Definition extraction_step_size (self : t) : result (list Z) :=
  items <- iter (patch_shape self) ;;
  map_result (fun v =>
    match v with
    | VInt n =>
        if (overlapping_factor self =? 0)%Z then Raise ZeroDivisionError
        else Ok (Z.quot n (overlapping_factor self))
    | _ => Raise TypeError
    end) items.

(** [NuclearNorm.op(data, extra_factor=1.0, num_cores=1)].  The loop over
    the patches and the joblib dispatch both apply [_prox_nuclear_norm]
    to every patch in turn. *)
Definition op (self : t) (data : ndarray Cx) (extra_factor : R)
  (num_cores : nat) : result (ndarray Cx) :=
  threshold <- times_float (weights self) extra_factor ;;
  if shape_eqb (tl (shape data)) (patch_shape self) then
    _ <- moveaxis_0_last data ;;
    moved <- moveaxis_0_last data ;;
    pixels <- prod_of (patch_shape self) ;;
    channels <- first_dim data ;;
    patch <- reshape moved [pixels; channels] ;;
    images <- _prox_nuclear_norm self patch threshold ;;
    moveaxis_last_0 images
  else if (overlapping_factor self =? 1)%Z then
    moved <- moveaxis_0_last data ;;
    P <- extract_patches_2d moved (patch_shape self)
           (overlapping_factor self) ;;
    P' <- map_result (fun patch => _prox_nuclear_norm self patch threshold)
            P ;;
    reconstruct_non_overlapped_patches_2d P' (tl (shape data))
  else
    moved <- moveaxis_0_last data ;;
    P <- extract_patches_2d moved (patch_shape self)
           (overlapping_factor self) ;;
    threshold <- times_float (weights self) extra_factor ;;
    steps <- extraction_step_size self ;;
    P' <- map_result (fun patch => _prox_nuclear_norm self patch threshold)
            P ;;
    moved' <- moveaxis_0_last data ;;
    image <- reconstruct_overlapped_patches_2d (shape moved') P' steps ;;
    moveaxis_last_0 image.

(** [NuclearNorm.get_cost(data, extra_factor=1.0, num_cores=1)].  With
    [num_cores != 1] the second branch reads [self._cost_nuclear_norm],
    which the class does not define, and both joblib branches add a list
    to the number [cost]. *)
Definition get_cost (self : t) (data : ndarray Cx) (extra_factor : R)
  (num_cores : nat) : result R :=
  let cost := 0 in
  threshold <- times_float (weights self) extra_factor ;;
  if shape_eqb (tl (shape data)) (patch_shape self) then
    moved <- moveaxis_0_last data ;;
    pixels <- prod_of (patch_shape self) ;;
    channels <- first_dim data ;;
    patch <- reshape moved [pixels; channels] ;;
    c <- _nuclear_norm_cost self patch ;;
    Ok ((cost + c) * threshold)
  else if (overlapping_factor self =? 1)%Z then
    moved <- moveaxis_0_last data ;;
    P <- extract_patches_2d moved (patch_shape self)
           (overlapping_factor self) ;;
    if (num_cores =? 1)%nat then
      cs <- map_result (_nuclear_norm_cost self) P ;;
      Ok ((cost + rsum cs) * threshold)
    else
      match P with
      | [] => Raise TypeError
      | _ :: _ => Raise AttributeError
      end
  else
    moved <- moveaxis_0_last data ;;
    P <- extract_patches_2d moved (patch_shape self)
           (overlapping_factor self) ;;
    threshold <- times_float (weights self) extra_factor ;;
    if (num_cores =? 1)%nat then
      cs <- map_result (_nuclear_norm_cost self) P ;;
      Ok ((cost + rsum cs) * threshold)
    else
      _ <- map_result (_nuclear_norm_cost self) P ;;
      Raise TypeError.

End Ops.

End NuclearNorm.

(** The weights of the operators on vectors: one number, or a vector of
    numbers. *)
Inductive weight : Type :=
| WScalar (r : R)
| WArray (a : list R).

(** [weights * extra_factor]. *)
Definition weight_times (w : weight) (f : R) : weight :=
  match w with
  | WScalar r => WScalar (r * f)
  | WArray a => WArray (map (fun x => x * f) a)
  end.

Module GroupLasso.

(** [self.weights]: an array, or a number (an array without axes). *)
Record t : Type := {
  weights : ndarray R
}.

Definition __init__ (w : ndarray R) : t := {| weights := w |}.

(** [w * f] for an array and a number. *)
Definition times (w : ndarray R) (f : R) : ndarray R :=
  {| shape := shape w; flat := map (fun x => x * f) (flat w) |}.

(** [np.linalg.norm(data, axis=0)] for [c] groups of [r] items: the L2
    norm of every column of the [c x r] layout. *)
Definition norm_axis0 (c r : nat) (items : list Cx) : list R :=
  map (fun j =>
    sqrt (rsum (map (fun k =>
      let z := nth (k * r + j) items czero in cabs z * cabs z)
      (seq 0 c))))
    (seq 0 r).

(** [GroupLasso.op(data, extra_factor=1.0)].  The statement between the
    norm and the [return] builds a soft-thresholded copy of [data] and
    drops it; it runs all the same, and raises when the threshold does not
    broadcast against the data. *)
Definition op (self : t) (data : ndarray Cx) (extra_factor : R)
  : result (ndarray Cx) :=
  let threshold := times (weights self) extra_factor in
  match shape data with
  | [] => Raise ValueError
  | c :: rest =>
      let norm_2 := {| shape := rest;
                       flat := norm_axis0 c (size_of rest) (flat data) |} in
      soft <- broadcast2 (fun t a => Rmax (1 - t / Rmax eps64 a) 0) 0 0
                threshold (absolute data) ;;
      _ <- broadcast2 (fun f z => cscale z f) 0 czero soft data ;;
      factor <- broadcast2 (fun t n => Rmax 0 (1 - t / Rmax n eps32)) 0 0
                  (times (weights self) extra_factor) norm_2 ;;
      broadcast2 cscale czero 0 data factor
  end.

(** [GroupLasso.get_cost(data)]. *)
Definition get_cost (self : t) (data : ndarray Cx) : result R :=
  match shape data with
  | [] => Raise ValueError
  | c :: rest => Ok (rsum (norm_axis0 c (size_of rest) (flat data)))
  end.

(** The weight of group [j]: the number, or item [j] of an array with
    one weight per group. *)
Definition weight_of (w : ndarray R) (j : nat) : R :=
  match shape w with
  | [] => nth 0 (flat w) 0
  | _ => nth j (flat w) 0
  end.

End GroupLasso.

Module SparseGroupLasso.

Record t : Type := {
  prox_op_l1 : weight;
  prox_op_l2 : GroupLasso.t;
  weights_l1 : weight;
  weights_l2 : ndarray R
}.

(** [prox_op_l1] is modopt's [SparseThreshold] built on [weights_l1]; the
    object is represented by the weights it holds. *)
Definition __init__ (w1 : weight) (w2 : ndarray R) : t :=
  {| prox_op_l1 := w1; prox_op_l2 := GroupLasso.__init__ w2;
     weights_l1 := w1; weights_l2 := w2 |}.

Section Ops.

(** [SparseThreshold.op(data, extra_factor)] and [SparseThreshold.cost]
    of modopt. *)
Variable SparseThreshold_op :
  weight -> ndarray Cx -> R -> result (ndarray Cx).
Variable SparseThreshold_cost : weight -> ndarray Cx -> result R.

Definition op (self : t) (data : ndarray Cx) (extra_factor : R)
  : result (ndarray Cx) :=
  d1 <- SparseThreshold_op (prox_op_l1 self) data extra_factor ;;
  GroupLasso.op (prox_op_l2 self) d1 extra_factor.

(** [get_cost] calls [self.prox_op_l2.cost]; a [GroupLasso] has
    [get_cost] but no [cost]. *)
Definition get_cost (self : t) (data : ndarray Cx) : result R :=
  c1 <- SparseThreshold_cost (prox_op_l1 self) data ;;
  Raise AttributeError.

End Ops.

End SparseGroupLasso.

(** ** sklearn.isotonic.isotonic_regression

    The function is modelled by the pool-adjacent-violators algorithm it
    runs: the input is read in increasing order ([y[::-1]] when
    [increasing] is false), neighbouring blocks whose means are not
    strictly increasing are pooled, every item takes the mean of its
    block, the result is clipped below at [y_min] and put back in the
    order of the input.  An empty input is refused. *)

Module Isotonic.

Definition mean (b : list R) : R := rsum b / INR (length b).

(** Push block [b] on the blocks to its left (nearest first). *)
Fixpoint pool (b : list R) (stack : list (list R)) : list (list R) :=
  match stack with
  | [] => [b]
  | p :: rest =>
      if Rlt_dec (mean p) (mean b) then b :: p :: rest
      else pool (p ++ b) rest
  end.

Definition pava (y : list R) : list (list R) :=
  fold_left (fun stack v => pool [v] stack) y [].

Definition fitted (stack : list (list R)) : list R :=
  flat_map (fun b => repeat (mean b) (length b)) (rev stack).

Definition order (increasing : bool) (l : list R) : list R :=
  if increasing then l else rev l.

Definition isotonic_regression (y : list R) (y_min : R) (increasing : bool)
  : result (list R) :=
  match y with
  | [] => Raise ValueError
  | _ =>
      Ok (order increasing
            (map (fun v => Rmax y_min v)
                 (fitted (pava (order increasing y)))))
  end.

(** *** Vocabulary for the blocks

    A block is prefix heavy when the mean of each of its prefixes is at
    least the mean of the block; a stack of blocks is well formed when
    its blocks are non-empty, prefix heavy, and of strictly increasing
    mean from the farthest to the nearest. *)
Definition heavy_prefix (b : list R) : Prop :=
  forall k : nat, (0 < k <= length b)%nat ->
    rsum b * INR k <= rsum (take k b) * INR (length b).

Fixpoint well_formed (stack : list (list R)) : Prop :=
  match stack with
  | [] => True
  | b :: rest =>
      b <> [] /\ heavy_prefix b
      /\ Forall (fun p => mean p < mean b) rest
      /\ well_formed rest
  end.

(** A block whose items all equal [v]. *)
Definition level (b : list R) (v : R) : Prop :=
  b <> [] /\ Forall (fun x => x = v) b.

(** Every item of [f] is at most an item of [y] at the same or an
    earlier position. *)
Definition prefix_bounded (f y : list R) : Prop :=
  length f = length y
  /\ forall (i : nat) (v : R), f !! i = Some v ->
       exists (t : nat) (u : R), (t <= i)%nat /\ y !! t = Some u /\ v <= u.

End Isotonic.

Module OWL.

(** [self.weights]: [alpha], an OSCAR weight vector, or (band based) a
    list of OSCAR weight vectors. *)
Inductive owl_weights : Type :=
| Weights (w : weight)
| BandWeights (l : list (list R)).

Record t : Type := {
  weights : owl_weights;
  mode : pystr;
  band_shape : option pyval
}.

(** [np.prod(v)] as a Python value. *)
Definition np_prod (v : pyval) : result pyval :=
  match v with
  | VInt n => Ok (VInt n)
  | VFloat r => Ok (VFloat r)
  | VTuple [] | VList [] => Ok (VFloat 1)
  | VTuple l | VList l => ds <- dims l ;; Ok (VInt (Z.of_nat (size_of ds)))
  | _ => Raise TypeError
  end.

(** The three modes that [__init__] and [op] name, each tested with
    [is]. *)
Definition known_mode (m : pystr) : Prop :=
  is_literal m "all" = true \/ is_literal m "band_based" = true
  \/ is_literal m "coeff_based" = true.

Section Ops.

(** [_oscar_weights(alpha, beta, size)] of [parallel_mri_online.utils]. *)
Variable _oscar_weights : weight -> R -> pyval -> result (list R).

(** [OWL.__init__(alpha, beta=None, data_shape=None, mode='all',
    n_channel=1)].  Both [raise] statements raise a string: the
    interpreter raises [TypeError] in its place. *)
Definition __init__ (alpha : weight) (beta : option R) (data_shape : pyval)
  (mode : pystr) (n_channel : Z) : result t :=
  let self := {| weights := Weights alpha; mode := mode;
                 band_shape := None |} in
  match beta with
  | None => Ok self
  | Some b =>
      match data_shape with
      | VNone => Raise TypeError
      | _ =>
          if is_literal mode "all" then
            size <- times_int data_shape n_channel ;;
            w <- _oscar_weights alpha b size ;;
            Ok {| weights := Weights (WArray w); mode := mode;
                  band_shape := None |}
          else if is_literal mode "band_based" then
            bands <- iter data_shape ;;
            ws <- map_result (fun band =>
                    p <- np_prod band ;;
                    size <- times_int p n_channel ;;
                    _oscar_weights alpha b size) bands ;;
            Ok {| weights := BandWeights ws; mode := mode;
                  band_shape := Some data_shape |}
          else if is_literal mode "coeff_based" then
            w <- _oscar_weights alpha b (VInt n_channel) ;;
            Ok {| weights := Weights (WArray w); mode := mode;
                  band_shape := None |}
          else Raise TypeError
      end
  end.

End Ops.

(** [data_abs - threshold], with numpy's broadcasting of a vector of
    length one. *)
Definition subtract (data_abs : list R) (threshold : weight)
  : result (list R) :=
  match threshold with
  | WScalar t => Ok (map (fun a => a - t) data_abs)
  | WArray ts =>
      if (length ts =? length data_abs)%nat
      then Ok (map (fun at_ => fst at_ - snd at_) (combine data_abs ts))
      else
        match ts, data_abs with
        | [t], _ => Ok (map (fun a => a - t) data_abs)
        | _, [a] => Ok (map (fun t => a - t) ts)
        | _, _ => Raise ValueError
        end
  end.

(** [inv_x = np.zeros_like(ix); inv_x[ix] = np.arange(n)]. *)
Definition invert (ix : list nat) : list nat :=
  fold_left (fun inv ji => <[snd ji := fst ji]> inv)
            (combine (seq 0 (length ix)) ix)
            (repeat 0%nat (length ix)).

(** One item of [data / np.abs(data) * data_abs]; [None] stands for the
    [nan] that [0 / 0] evaluates to. *)
Definition signed (z : Cx) (m : R) : option Cx :=
  if Req_dec_T (cabs z) 0 then None
  else Some (cscale (cdiv z (cabs z)) m).

(** [OWL._prox_owl(data, threshold)]. *)
Definition _prox_owl (data : list Cx) (threshold : weight)
  : result (list (option Cx)) :=
  let data_abs := map cabs data in
  let ix := rev (argsort data_abs) in
  let data_abs := gather ix data_abs in
  shifted <- subtract data_abs threshold ;;
  data_abs <- Isotonic.isotonic_regression shifted 0 false ;;
  let inv_x := invert ix in
  let data_abs := gather inv_x data_abs in
  Ok (map (fun zm => signed (fst zm) (snd zm)) (combine data data_abs)).

(** *** Vocabulary for the thresholds

    The threshold at sorted position [t], and the thresholds that
    subtract from [n] magnitudes item by item. *)
Definition threshold_at (w : weight) (t : nat) : R :=
  match w with
  | WScalar r => r
  | WArray a => nth t a 0
  end.

Definition fits (w : weight) (n : nat) : Prop :=
  match w with
  | WScalar _ => True
  | WArray a => length a = n
  end.

(** [self.weights * extra_factor]: a list of band weights does not
    multiply with a float. *)
Definition threshold_of (w : owl_weights) (extra_factor : R) : result weight :=
  match w with
  | Weights a => Ok (weight_times a extra_factor)
  | BandWeights _ => Raise TypeError
  end.

(** [for ... weights in zip(..., self.weights)]: the items of
    [self.weights]. *)
Definition iter_weights (w : owl_weights) : result (list weight) :=
  match w with
  | Weights (WScalar _) => Raise TypeError
  | Weights (WArray a) => Ok (map WScalar a)
  | BandWeights l => Ok (map WArray l)
  end.

(** The band and coefficient modes index [data[:, i]]: the data is a
    (channels x coefficients) matrix.  An array of rank below two has no
    second axis; arrays of higher rank are not part of the model and are
    refused as well. *)
Definition as_matrix {A : Type} (a : ndarray A) : result (nat * nat) :=
  match shape a with
  | [c; n] => Ok (c, n)
  | [] | [_] => Raise IndexError
  | _ => Raise ValueError
  end.

(** [m[:, start:stop]] of a [c x n] matrix, row by row. *)
Definition columns {A : Type} (c n start stop : nat) (items : list A)
  : list A :=
  flat_map (fun k => take (Nat.min stop n - start) (drop (k * n + start) items))
           (seq 0 c).

(** [m[:, start:stop] = block] for a [c x w] block, [w = stop - start]. *)
Definition set_columns {A : Type} (c n start stop : nat) (items block : list A)
  : list A :=
  let w := (stop - start)%nat in
  flat_map (fun k =>
    take start (take n (drop (k * n) items))
    ++ take w (drop (k * w) block)
    ++ drop stop (take n (drop (k * n) items)))
    (seq 0 c).

(** The loop of the band based mode. *)
Fixpoint band_loop (data : ndarray Cx) (n_channel : nat) (extra_factor : R)
  (bands : list (pyval * weight)) (start : nat) (output : list (option Cx))
  : result (list (option Cx)) :=
  match bands with
  | [] => Ok output
  | (band_shape_idx, w) :: bands' =>
      n_coeffs <- prod_of band_shape_idx ;;
      let stop := (start + n_coeffs)%nat in
      cn <- as_matrix data ;;
      let part := {| shape := [fst cn; (Nat.min stop (snd cn) - start)%nat];
                     flat := columns (fst cn) (snd cn) start stop (flat data) |} in
      reshaped_data <- reshape part [(n_channel * n_coeffs)%nat] ;;
      r <- _prox_owl (flat reshaped_data) (weight_times w extra_factor) ;;
      block <- reshape {| shape := [length r]; flat := r |}
                 [n_channel; n_coeffs] ;;
      band_loop data n_channel extra_factor bands' stop
        (set_columns (fst cn) (snd cn) start stop output (flat block))
  end.

(** The loop of the coefficient based mode.  A column of a one-channel
    matrix is squeezed to a scalar, which [_prox_owl] cannot index. *)
Fixpoint coeff_loop (c n : nat) (data : list Cx) (threshold : weight)
  (idxs : list nat) (output : list (option Cx))
  : result (list (option Cx)) :=
  match idxs with
  | [] => Ok output
  | idx :: idxs' =>
      if (c =? 1)%nat then Raise IndexError
      else
        r <- _prox_owl (columns c n idx (S idx) data) threshold ;;
        coeff_loop c n data threshold idxs'
          (set_columns c n idx (S idx) output r)
  end.

(** [OWL.op(data, extra_factor=1.0)].  The branches are chosen with
    [self.mode is '...'], and no branch binds [output] for a mode that
    is none of the three constants. *)
Definition op (self : t) (data : ndarray Cx) (extra_factor : R)
  : result (ndarray (option Cx)) :=
  if is_literal (mode self) "all" then
    threshold <- threshold_of (weights self) extra_factor ;;
    output <- _prox_owl (flat data) threshold ;;
    Ok {| shape := [length output]; flat := output |}
  else if is_literal (mode self) "band_based" then
    let output := map (fun _ => Some czero) (flat data) in
    n_channel <- first_dim data ;;
    bs <- attr (band_shape self) ;;
    shapes <- iter bs ;;
    ws <- iter_weights (weights self) ;;
    out <- band_loop data n_channel extra_factor (combine shapes ws) 0
             output ;;
    Ok {| shape := shape data; flat := out |}
  else if is_literal (mode self) "coeff_based" then
    threshold <- threshold_of (weights self) extra_factor ;;
    let output := map (fun _ => Some czero) (flat data) in
    cn <- as_matrix data ;;
    out <- coeff_loop (fst cn) (snd cn) (flat data) threshold
             (seq 0 (snd cn)) output ;;
    Ok {| shape := shape data; flat := out |}
  else Raise UnboundLocalError.

(** [OWL.get_cost(data)]: a warning, and the value [0]. *)
Definition get_cost (self : t) (data : ndarray Cx) : result R := Ok 0.

End OWL.

Module MultiLevelNuclearNorm.

Section Ops.

(** The items that [reshape_channel_coeff] yields and [flatten] takes,
    and the shape manifest that [flatten] returns. *)
Context {coeff manifest : Type}.

(** The linear operator, as far as the class uses it. *)
Record LinearOp : Type := {
  nb_band_per_scale : Z;
  reshape_coeff_channel : ndarray Cx -> list (ndarray Cx);
  reshape_channel_coeff : list (ndarray Cx) -> list coeff;
  flatten : coeff -> ndarray Cx * manifest
}.

(** The [NuclearNorm] part of the instance, then the attributes that the
    class adds. *)
Record t : Type := {
  base : NuclearNorm.t;
  _weights : list pyval;
  _patch_shape : list pyval;
  linear_op : option LinearOp
}.

(** [MultiLevelNuclearNorm.__init__(weights, patch_shape, linear_op=None,
    overlapping_factor=1)]. *)
Definition __init__ (weights patch_shape : pyval) (lin : option LinearOp)
  (overlap : Z) : result t :=
  wp <- (if is_list weights && is_list patch_shape then
           lw <- len weights ;;
           lp <- len patch_shape ;;
           if negb (lw =? lp)%nat then Raise ValueError
           else
             ws <- iter weights ;;
             ps <- iter patch_shape ;;
             Ok (ws, ps)
         else if is_list weights then
           ws <- iter weights ;;
           Ok (ws, repeat patch_shape (length ws))
         else if is_list patch_shape then
           ps <- iter patch_shape ;;
           Ok (repeat weights (length ps), ps)
         else
           lo <- attr lin ;;
           let nb_band := Z.to_nat (nb_band_per_scale lo) in
           Ok (repeat weights nb_band, repeat patch_shape nb_band)) ;;
  w0 <- item0 weights ;;
  p0 <- item0 patch_shape ;;
  Ok {| base := NuclearNorm.__init__ w0 p0 overlap;
        _weights := fst wp; _patch_shape := snd wp; linear_op := lin |}.

Variable svd : ndarray Cx -> ndarray Cx * list R * ndarray Cx.
Variable extract_patches_2d :
  ndarray Cx -> pyval -> Z -> result (list (ndarray Cx)).
Variable reconstruct_non_overlapped_patches_2d :
  list (ndarray Cx) -> list nat -> result (ndarray Cx).
Variable reconstruct_overlapped_patches_2d :
  list nat -> list (ndarray Cx) -> list Z -> result (ndarray Cx).

(** [self.weights = weights; self.patch_shape = patch_shape]. *)
Definition configure (self : t) (w p : pyval) : t :=
  {| base := NuclearNorm.__init__ w p
               (NuclearNorm.overlapping_factor (base self));
     _weights := _weights self; _patch_shape := _patch_shape self;
     linear_op := linear_op self |}.

(** [zip(coeffs, self._weights, self._patch_shape)]. *)
Definition zip3 {A : Type} (coeffs : list A) (ws ps : list pyval)
  : list (A * pyval * pyval) :=
  map (fun x => (fst x, fst (snd x), snd (snd x)))
      (combine coeffs (combine ws ps)).

(** The loop of [op]: the instance as the loop leaves it, and the list
    [prox_coeffs] or the exception that ended the loop. *)
Fixpoint op_loop (self : t) (extra_factor : R) (num_cores : nat)
  (bands : list (ndarray Cx * pyval * pyval))
  (prox_coeffs : list (ndarray Cx)) : t * result (list (ndarray Cx)) :=
  match bands with
  | [] => (self, Ok prox_coeffs)
  | (coeffs_per_band, w, p) :: bands' =>
      let self' := configure self w p in
      match NuclearNorm.op svd extract_patches_2d
              reconstruct_non_overlapped_patches_2d
              reconstruct_overlapped_patches_2d
              (base self') coeffs_per_band extra_factor num_cores with
      | Ok r => op_loop self' extra_factor num_cores bands'
                  (prox_coeffs ++ [r])
      | Raise e => (self', Raise e)
      end
  end.

(** [MultiLevelNuclearNorm.op(wavelet_coeffs, extra_factor=1.0,
    num_cores=1)]: the instance after the call, and what the call
    returns or raises.  The flattened bands are handed to [np.asarray],
    which refuses bands of different shapes. *)
Definition op (self : t) (wavelet_coeffs : ndarray Cx) (extra_factor : R)
  (num_cores : nat) : t * result (ndarray Cx) :=
  match linear_op self with
  | None => (self, Raise AttributeError)
  | Some lo =>
      let coeffs := reshape_coeff_channel lo wavelet_coeffs in
      let '(self', r) :=
        op_loop self extra_factor num_cores
          (zip3 coeffs (_weights self) (_patch_shape self)) [] in
      (self',
       prox_coeffs <- r ;;
       let prox_coeffs := reshape_channel_coeff lo prox_coeffs in
       let rslt := map (fun c => fst (flatten lo c)) prox_coeffs in
       asarray rslt)
  end.

(** The loop of [get_cost]. *)
Fixpoint cost_loop (self : t) (extra_factor : R) (num_cores : nat)
  (bands : list (ndarray Cx * pyval * pyval)) (cost : R) : t * result R :=
  match bands with
  | [] => (self, Ok cost)
  | (c, w, p) :: bands' =>
      let self' := configure self w p in
      match NuclearNorm.get_cost svd extract_patches_2d
              (base self') c extra_factor num_cores with
      | Ok v => cost_loop self' extra_factor num_cores bands' (cost + v)
      | Raise e => (self', Raise e)
      end
  end.

(** [MultiLevelNuclearNorm.get_cost(wavelet_coeffs, extra_factor=1.0,
    num_cores=1)]. *)
Definition get_cost (self : t) (wavelet_coeffs : ndarray Cx)
  (extra_factor : R) (num_cores : nat) : t * result R :=
  match linear_op self with
  | None => (self, Raise AttributeError)
  | Some lo =>
      let coeffs := reshape_coeff_channel lo wavelet_coeffs in
      cost_loop self extra_factor num_cores
        (zip3 coeffs (_weights self) (_patch_shape self)) 0
  end.

(** *** Vocabulary for the frame of a call

    What the base class returns for a band, and the cost it gives for
    it, once the instance holds the weights and the patch shape of that
    band. *)
Definition band_op (self : t) (extra_factor : R) (num_cores : nat)
  (band : ndarray Cx * pyval * pyval) : result (ndarray Cx) :=
  let '(c, w, p) := band in
  NuclearNorm.op svd extract_patches_2d
    reconstruct_non_overlapped_patches_2d reconstruct_overlapped_patches_2d
    (base (configure self w p)) c extra_factor num_cores.

Definition band_cost (self : t) (extra_factor : R) (num_cores : nat)
  (band : ndarray Cx * pyval * pyval) : result R :=
  let '(c, w, p) := band in
  NuclearNorm.get_cost svd extract_patches_2d
    (base (configure self w p)) c extra_factor num_cores.

(** The attributes that no call assigns: the per-scale lists, the linear
    operator and the overlapping factor. *)
Definition kept (self self' : t) : Prop :=
  _weights self' = _weights self
  /\ _patch_shape self' = _patch_shape self
  /\ linear_op self' = linear_op self
  /\ NuclearNorm.overlapping_factor (base self')
     = NuclearNorm.overlapping_factor (base self).

(** A loop over [bands] stops at the position [k] of the first band on
    which the method of the base class raises, or at the last band;
    [ok b c] tells whether that method returns on the band [c] for the
    base part [b] of the instance. *)
Definition stops_at (ok : NuclearNorm.t -> ndarray Cx -> bool) (self : t)
  (bands : list (ndarray Cx * pyval * pyval)) (k : nat) : Prop :=
  (k < length bands)%nat
  /\ (forall j c w p, (j < k)%nat -> bands !! j = Some (c, w, p) ->
        ok (base (configure self w p)) c = true)
  /\ ((S k < length bands)%nat ->
      forall c w p, bands !! k = Some (c, w, p) ->
        ok (base (configure self w p)) c = false).

(** What a loop over [bands] leaves of [self.weights] and
    [self.patch_shape]: their former values when there is no band, and
    else the weights and the patch shape of the band that the loop
    stopped at. *)
Definition last_assigned (ok : NuclearNorm.t -> ndarray Cx -> bool)
  (self : t) (bands : list (ndarray Cx * pyval * pyval)) (self' : t)
  : Prop :=
  match bands with
  | [] => base self' = base self
  | _ :: _ =>
      exists k c w p,
        stops_at ok self bands k
        /\ bands !! k = Some (c, w, p)
        /\ NuclearNorm.weights (base self') = w
        /\ NuclearNorm.patch_shape (base self') = p
  end.

End Ops.

End MultiLevelNuclearNorm.

Module k_support_norm.

(** The attributes of an instance, by name.  The constructor stores
    [lmbda] under the name [weights]. *)
Definition t : Type := gmap string R.

(** [k_support_norm.__init__(k, lmbda)]. *)
Definition __init__ (k lmbda : R) : t :=
  <["k" := k]> (<["weights" := lmbda]> ∅).

(** [self.name]. *)
Definition getattr (self : t) (name : string) : result R :=
  match self !! name with
  | Some v => Ok v
  | None => Raise AttributeError
  end.

(** The variables of the [while] loop of [_find_alpha]. *)
Record vars : Type := {
  q : Z;
  l : Z;
  idx : nat;
  test_q : bool;
  test_l : bool;
  alpha : R
}.

Definition gtb (a b : R) : bool := if Rlt_dec b a then true else false.
Definition ltb (a b : R) : bool := if Rlt_dec a b then true else false.

(** The loop condition. *)
Definition continue (data_sorted : list R) (v : vars) : bool :=
  ((q v <? Z.of_nat (length data_sorted) - 1)%Z && (0 <? l v)%Z)
  || negb (test_q v && test_l v).

(** The branch on [idx % 2]. *)
Definition tests (self : t) (data_sorted : list R) (v : vars) : result vars :=
  if (idx v mod 2 =? 0)%nat then
    if negb (test_q v) then
      k <- getattr self "k" ;;
      d0 <- index data_sorted (q v) ;;
      let r_q_0 := ((k - IZR (q v)) * 1 * d0)
                   / rsum (slice data_sorted (q v + 1) (l v)) in
      k <- getattr self "k" ;;
      d1 <- index data_sorted (q v + 1) ;;
      let r_q_1 := ((k - IZR (q v + 1)) * 1 * d1)
                   / rsum (slice data_sorted (q v + 2) (l v)) in
      lmbda <- getattr self "lmbda" ;;
      t <- (if gtb r_q_0 (lmbda + 1)
            then (lmbda <- getattr self "lmbda" ;;
                  Ok (ltb r_q_1 (lmbda + 1)))
            else Ok false) ;;
      Ok {| q := q v + 1; l := l v; idx := idx v; test_q := t;
            test_l := test_l v; alpha := alpha v |}
    else Ok v
  else
    if negb (test_l v) then
      k <- getattr self "k" ;;
      d0 <- index data_sorted (l v) ;;
      let r_l_0 := ((k - IZR (q v)) * 1 * d0)
                   / rsum (slice data_sorted (q v + 1) (l v)) in
      k <- getattr self "k" ;;
      d1 <- index data_sorted (l v + 1) ;;
      let r_l_1 := ((k - IZR (q v)) * 1 * d1)
                   / rsum (slice data_sorted (q v + 1) (l v)) in
      lmbda <- getattr self "lmbda" ;;
      t <- (if gtb r_l_0 lmbda
            then (lmbda <- getattr self "lmbda" ;;
                  Ok (ltb r_l_1 lmbda))
            else Ok false) ;;
      Ok {| q := q v; l := l v - 1; idx := idx v; test_q := test_q v;
            test_l := t; alpha := alpha v |}
    else Ok v.

(** The [while] loop.  [None]: the loop is still running when [fuel]
    iterations are over. *)
Fixpoint loop (fuel : nat) (self : t) (data_sorted : list R) (v : vars)
  : option (result vars) :=
  match fuel with
  | O => None
  | S fuel' =>
      if continue data_sorted v then
        match tests self data_sorted v with
        | Raise e => Some (Raise e)
        | Ok v1 =>
            let v2 := {| q := q v1; l := l v1; idx := S (idx v1);
                         test_q := test_q v1; test_l := test_l v1;
                         alpha := alpha v1 |} in
            if test_q v2 && test_l v2 then
              match getattr self "k" with
              | Raise e => Some (Raise e)
              | Ok k =>
                  Some (Ok {| q := q v2; l := l v2; idx := idx v2;
                              test_q := test_q v2; test_l := test_l v2;
                              alpha := (k - IZR (q v2))
                                       / rsum (slice data_sorted (q v2 + 1)
                                                 (l v2)) |})
              end
            else loop fuel' self data_sorted v2
        end
      else Some (Ok v)
  end.

(** [_find_alpha(w)], with the defaults [q=0] and [l=None], for a vector
    [w]: [(alpha, q, l)]. *)
Definition _find_alpha (fuel : nat) (self : t) (w : list R)
  : option (result (R * Z * Z)) :=
  let l0 := (Z.of_nat (length w) - 2)%Z in
  let data_sorted := rev (sort (map Rabs w)) in
  match loop fuel self data_sorted
          {| q := 0; l := l0; idx := 0; test_q := false; test_l := false;
             alpha := 0 |} with
  | None => None
  | Some (Raise e) => Some (Raise e)
  | Some (Ok v) => Some (Ok (alpha v, q v, l v))
  end.

(** [_calc_theta(w, alpha)]: the two [theta += ...] statements. *)
Definition _calc_theta (self : t) (w : list R) (alpha : R)
  : result (list R) :=
  let theta := map (fun _ => 0) w in
  lmbda <- getattr self "lmbda" ;;
  let theta :=
    map (fun tx => fst tx
                   + 1 * (if gtb (alpha * Rabs (snd tx)) (lmbda + 1)
                          then 1 else 0))
        (combine theta w) in
  lmbda1 <- getattr self "lmbda" ;;
  lmbda2 <- getattr self "lmbda" ;;
  Ok (map (fun tx => fst tx
                     + alpha * Rabs (snd tx)
                       * (if negb (gtb (alpha * Rabs (snd tx)) (lmbda1 + 1))
                             && negb (ltb (alpha * Rabs (snd tx)) lmbda2)
                          then 1 else 0))
          (combine theta w)).

(** [k_support_norm.op(data, extra_factor=1.0)] for a vector [data]. *)
Definition op (fuel : nat) (self : t) (data : list Cx) (extra_factor : R)
  : option (result (list Cx)) :=
  match _find_alpha fuel self (map cabs data) with
  | None => None
  | Some (Raise e) => Some (Raise e)
  | Some (Ok (alpha, _, _)) =>
      Some (theta <- _calc_theta self (map cabs data) alpha ;;
            lmbda <- getattr self "lmbda" ;;
            Ok (map (fun zt => cdiv (cscale (fst zt) (snd zt))
                                    (snd zt + lmbda))
                    (combine data theta)))
  end.

(** [a + b] for two vectors, with numpy's broadcasting of a vector of
    length one. *)
Definition add_vectors (a b : list R) : result (list R) :=
  if (length a =? length b)%nat
  then Ok (map (fun xy => fst xy + snd xy) (combine a b))
  else
    match a, b with
    | [x], _ => Ok (map (fun y => x + y) b)
    | _, [y] => Ok (map (fun x => x + y) a)
    | _, _ => Raise ValueError
    end.

(** [k_support_norm.get_cost(data)] for a vector [data]. *)
Definition get_cost (fuel : nat) (self : t) (data : list Cx)
  : option (result (list R)) :=
  let data_abs := map cabs data in
  let ix := rev (argsort data_abs) in
  let data_abs := gather ix data_abs in
  match _find_alpha fuel self data_abs with
  | None => None
  | Some (Raise e) => Some (Raise e)
  | Some (Ok (_, q, _)) =>
      Some (k <- getattr self "k" ;;
            add_vectors
              (map (fun x => x * x) (slice data_abs 0 q))
              (map (fun x => x / (k - IZR q))
                   (slice data_abs (q + 1) (Z.of_nat (length data_abs)))))
  end.

End k_support_norm.

(** ** linear.py *)

Module Wavelet2.

Section Ops.

(** Arrays and images, the band arrays of a decomposition
    ([analysis_data]), flat coefficient arrays, the shape record that
    [flatten] returns beside them, and the state of the transform
    object. *)
Context {image bands coeffs shapes transform : Type}.

(** What [self.coeffs_shape] holds: [None], the shape record of one
    decomposition, or a list with one record per channel. *)
Inductive shape_attr : Type :=
| NoShape
| OneShape (s : shapes)
| ShapeList (l : list shapes).

(** pysap, as far as the class drives it.  [load_transform name nb_scale
    verbose] is [pysap.load_transform(name)(nb_scale=..., verbose=...)];
    [run_analysis tr x] assigns [tr.data = x], calls [tr.analysis()] and
    reads [tr.analysis_data]; [run_synthesis tr b] assigns
    [tr.analysis_data = b] and calls [tr.synthesis()].  [flatten] and
    [unflatten] are those of [pysap.base.utils]; [as_image] wraps an
    ndarray in a [pysap.Image]; [data_of] is the [data] attribute of an
    image. *)
Variable AVAILABLE_TRANSFORMS : list string.
Variable load_transform : string -> Z -> Z -> result transform.
Variable run_analysis : transform -> image -> transform * result bands.
Variable run_synthesis : transform -> bands -> transform * result image.
Variable flatten : bands -> result (coeffs * shapes).
Variable unflatten : coeffs -> shape_attr -> result bands.
Variable as_image : image -> result image.
Variable data_of : image -> image.
(** numpy: [a.shape[0]] and [a[i]] of an image and of a coefficient
    array, [numpy.asarray] of a list of arrays, and iteration over a
    shape record. *)
Variable n_channels : image -> result nat.
Variable channel : image -> nat -> result image.
Variable n_rows : coeffs -> result nat.
Variable row : coeffs -> nat -> result coeffs.
Variable stack : list coeffs -> result coeffs.
Variable stack_images : list image -> result image.
Variable shape_items : shapes -> result (list shape_attr).
(** [l2norm]: the array [fake_data] that numpy builds for a shape
    ([numpy.zeros(shape)] with [fake_data[list(zip(shape // 2))] = 1]),
    and [numpy.linalg.norm]. *)
Variable impulse : list Z -> result image.
Variable norm : coeffs -> R.

Record t : Type := {
  nb_scale : Z;
  multichannel : bool;
  transform_ : transform;
  coeffs_shape : shape_attr
}.

(** [Wavelet2.__init__(wavelet_name, nb_scale=4, verbose=0,
    multichannel=False)]. *)
Definition __init__ (wavelet_name : string) (nb_scale verbose : Z)
  (multichannel : bool) : result t :=
  if negb (existsb (String.eqb wavelet_name) AVAILABLE_TRANSFORMS)
  then Raise ValueError
  else
    tr <- load_transform wavelet_name nb_scale verbose ;;
    Ok {| nb_scale := nb_scale; multichannel := multichannel;
          transform_ := tr; coeffs_shape := NoShape |}.

(** A method body: from the instance to the instance it leaves and the
    value it returns or the exception it raises. *)
Definition prog (A : Type) : Type := t -> t * result A.

Definition ret {A : Type} (a : A) : prog A := fun self => (self, Ok a).

Definition seq_ {A B : Type} (m : prog A) (k : A -> prog B) : prog B :=
  fun self =>
    match m self with
    | (self', Ok a) => k a self'
    | (self', Raise e) => (self', Raise e)
    end.

Definition lift {A : Type} (r : result A) : prog A := fun self => (self, r).

Definition read {A : Type} (field : t -> A) : prog A :=
  fun self => (self, Ok (field self)).

(** A call on [self.transform]. *)
Definition on_transform {A : Type}
  (f : transform -> transform * result A) : prog A :=
  fun self =>
    let '(tr, r) := f (transform_ self) in
    ({| nb_scale := nb_scale self; multichannel := multichannel self;
        transform_ := tr; coeffs_shape := coeffs_shape self |}, r).

(** [self.coeffs_shape = s]. *)
Definition set_coeffs_shape (s : shape_attr) : prog unit :=
  fun self =>
    ({| nb_scale := nb_scale self; multichannel := multichannel self;
        transform_ := transform_ self; coeffs_shape := s |}, Ok tt).

Notation "x <~ m ;; k" := (seq_ m (fun x => k))
  (at level 100, m at next level, right associativity).

(** The loop of [op] over the channels; [shapes_] is the list that
    [self.coeffs_shape] is bound to. *)
Fixpoint op_channels (data : image) (idxs : list nat)
  (coeffs_ : list coeffs) (shapes_ : list shapes) : prog (list coeffs) :=
  match idxs with
  | [] => ret coeffs_
  | ch :: idxs' =>
      x <~ lift (channel data ch) ;;
      b <~ on_transform (fun tr => run_analysis tr x) ;;
      cs <~ lift (flatten b) ;;
      _ <~ set_coeffs_shape (ShapeList (shapes_ ++ [snd cs])) ;;
      op_channels data idxs' (coeffs_ ++ [fst cs]) (shapes_ ++ [snd cs])
  end.

(** [Wavelet2.op(data)]. *)
Definition op (data : image) : prog coeffs :=
  data <~ lift (as_image data) ;;
  mc <~ read multichannel ;;
  if mc : bool then
    _ <~ set_coeffs_shape (ShapeList []) ;;
    n <~ lift (n_channels data) ;;
    coeffs_ <~ op_channels data (seq 0 n) [] [] ;;
    lift (stack coeffs_)
  else
    b <~ on_transform (fun tr => run_analysis tr data) ;;
    cs <~ lift (flatten b) ;;
    _ <~ set_coeffs_shape (OneShape (snd cs)) ;;
    ret (fst cs).

(** [zip(range(n), self.coeffs_shape)]: the items of the attribute. *)
Definition iterate (a : shape_attr) : result (list shape_attr) :=
  match a with
  | NoShape => Raise TypeError
  | OneShape s => shape_items s
  | ShapeList l => Ok (map OneShape l)
  end.

(** The loop of [adj_op] over the zipped channels. *)
Fixpoint adj_channels (coeffs_ : coeffs)
  (pairs : list (nat * shape_attr)) (images : list image)
  : prog (list image) :=
  match pairs with
  | [] => ret images
  | (ch, s) :: pairs' =>
      c <~ lift (row coeffs_ ch) ;;
      b <~ lift (unflatten c s) ;;
      img <~ on_transform (fun tr => run_synthesis tr b) ;;
      adj_channels coeffs_ pairs' (images ++ [data_of img])
  end.

(** [Wavelet2.adj_op(coeffs, dtype="array")]. *)
Definition adj_op (coeffs_ : coeffs) (dtype : string) : prog image :=
  mc <~ read multichannel ;;
  if mc : bool then
    n <~ lift (n_rows coeffs_) ;;
    a <~ read coeffs_shape ;;
    items <~ lift (iterate a) ;;
    images <~ adj_channels coeffs_ (combine (seq 0 n) items) [] ;;
    lift (stack_images images)
  else
    a <~ read coeffs_shape ;;
    b <~ lift (unflatten coeffs_ a) ;;
    img <~ on_transform (fun tr => run_synthesis tr b) ;;
    if String.eqb dtype "array" then ret (data_of img) else ret img.

(** Image [x] was analysed and flattened to [c] with the record [s]. *)
Definition decomposed (xcs : image * coeffs * shapes) : Prop :=
  exists tr tr1 b,
    run_analysis tr (fst (fst xcs)) = (tr1, Ok b)
    /\ flatten b = Ok (snd (fst xcs), snd xcs).

(** [Wavelet2.l2norm(shape)]: [shape += shape % 2], then the norm of the
    coefficients of the array built for that shape. *)
Definition l2norm (shape_ : list Z) : prog R :=
  let shape_ := map (fun n => (n + n mod 2)%Z) shape_ in
  fake_data <~ lift (impulse shape_) ;;
  data <~ op fake_data ;;
  ret (norm data).

End Ops.

Arguments shape_attr : clear implicits.
Arguments t : clear implicits.

End Wavelet2.

(** * Concrete operators and inputs *)

(** Images of [2 x 2] real samples, in row-major order, and a masked
    forward model on them: the first sample is kept and scaled by
    [29/20], the others are dropped. *)
Module Img.

Definition arr : Type := list R.

Definition sub (a b : arr) : arr :=
  map (fun xy => fst xy - snd xy) (combine a b).
Definition mul (a b : arr) : arr :=
  map (fun xy => fst xy * snd xy) (combine a b).
Definition div_scalar (a : arr) (s : R) : arr := map (fun x => x / s) a.

(** Modelled from the spec: [generic_l2_norm] of [pisap.base.utils] is
    not part of the sources at hand; the spec names it the L2 norm of
    the iterate. *)
Definition generic_l2_norm (a : arr) : R :=
  sqrt (Np.rsum (map (fun x => x * x) a)).

Definition mask (a : arr) : arr :=
  match a with
  | [] => []
  | x :: rest => 29 / 20 * x :: map (fun _ => 0) rest
  end.

Definition masked : @Gradient.FourierOp arr :=
  {| Gradient.ft_op := mask;
     Gradient.ft_adj_op := mask;
     Gradient.img_size := 2 |}.

Definition normal (a : arr) : arr := mask (mask a).

(** One draw of [np.random.random((2, 2))]. *)
Definition start : arr := [4 / 5; 21 / 25; 0; 0].
Definition zeros_image (n : nat) : arr := repeat 0 (n * n).
Definition random_image (n : nat) : arr := start.
Definition random_like (a : arr) : arr := start.

Definition operator : @Gradient.GradObj arr :=
  {| Gradient.cls := Gradient.Grad2DAnalysis;
     Gradient.y := Some [0; 0; 0; 0];
     Gradient.analysis := Some true;
     Gradient.ft_cls := Some masked;
     Gradient.linear_cls := None;
     Gradient.spec_rad := None;
     Gradient.inv_spec_rad := None;
     Gradient.grad := None |}.

Definition get_spec_rad :=
  Gradient.get_spec_rad div_scalar generic_l2_norm zeros_image random_image
    random_like.

(** A forward-model mapping with two entries, and one with one entry. *)
Definition two_keys : gmap string unit :=
  <["FFT2" := tt]> (<["NFFT2" := tt]> ∅).

Definition one_key : gmap string unit := <["FFT2" := tt]> ∅.

Definition instantiate (name : string) (kw : unit)
  : result (@Gradient.FourierOp arr) := Ok masked.

Definition identity_linear : @Gradient.LinearOp arr :=
  {| Gradient.lin_op := fun a => a; Gradient.lin_adj_op := fun a => a |}.

End Img.

(** Inputs for the proximity operators.  The functions that stand for
    numpy's [svd], for the patch utilities and for [_oscar_weights] are
    used where a statement holds whatever these functions return. *)
Module Samples.

Import Np.

(** The thin decomposition of an all-zero [m x n] matrix: zero singular
    values between two matrices with orthonormal columns and rows. *)
Definition unit_diagonal (m n : nat) : ndarray Cx :=
  {| shape := [m; n];
     flat := flat_map (fun i =>
               map (fun j => if (i =? j)%nat then of_real 1 else czero)
                   (seq 0 n)) (seq 0 m) |}.

Definition svd_of_zeros (a : ndarray Cx) : ndarray Cx * list R * ndarray Cx :=
  match shape a with
  | [m; n] =>
      (unit_diagonal m (Nat.min m n), repeat 0 (Nat.min m n),
       unit_diagonal (Nat.min m n) n)
  | _ => (a, [], a)
  end.

Definition no_patches (a : ndarray Cx) (patch_shape : pyval) (overlap : Z)
  : result (list (ndarray Cx)) := Ok [].

Definition blank_image (patches : list (ndarray Cx)) (img_size : list nat)
  : result (ndarray Cx) :=
  Ok {| shape := img_size; flat := repeat czero (size_of img_size) |}.

Definition blank_overlapped (img_size : list nat)
  (patches : list (ndarray Cx)) (steps : list Z) : result (ndarray Cx) :=
  Ok {| shape := img_size; flat := repeat czero (size_of img_size) |}.

Definition no_oscar_weights (alpha : weight) (beta : R) (size : pyval)
  : result (list R) := Ok [].

(** Two channels of a [2 x 2] image. *)
Definition ones_2x2x2 : ndarray Cx :=
  {| shape := [2; 2; 2]%nat; flat := repeat (of_real 1) 8 |}.

Definition nuclear_2x2 : NuclearNorm.t :=
  NuclearNorm.__init__ (VFloat 1) (of_shape [2; 2]%nat) 1.

(** Two wavelet bands of one channel, all zero, and a linear operator
    that yields them. *)
Definition band_a : ndarray Cx :=
  {| shape := [1; 2; 1]%nat; flat := repeat czero 2 |}.

Definition band_b : ndarray Cx :=
  {| shape := [1; 3; 1]%nat; flat := repeat czero 3 |}.

Definition two_bands : @MultiLevelNuclearNorm.LinearOp (ndarray Cx) unit :=
  {| MultiLevelNuclearNorm.nb_band_per_scale := 2;
     MultiLevelNuclearNorm.reshape_coeff_channel := fun _ => [band_a; band_b];
     MultiLevelNuclearNorm.reshape_channel_coeff := fun l => l;
     MultiLevelNuclearNorm.flatten := fun c => (c, tt) |}.

Definition coefficients : ndarray Cx :=
  {| shape := [1; 5]%nat; flat := repeat czero 5 |}.

(** Four coefficients, a linear operator that yields them as two bands
    of one shape, and the instance that
    [MultiLevelNuclearNorm([1.0, 2.0], [(2, 1), (2, 1)], two_equal_bands)]
    builds. *)
Definition four_coefficients : ndarray Cx :=
  {| shape := [1; 4]%nat; flat := repeat czero 4 |}.

Definition two_equal_bands
  : @MultiLevelNuclearNorm.LinearOp (ndarray Cx) unit :=
  {| MultiLevelNuclearNorm.nb_band_per_scale := 2;
     MultiLevelNuclearNorm.reshape_coeff_channel := fun _ => [band_a; band_a];
     MultiLevelNuclearNorm.reshape_channel_coeff := fun l => l;
     MultiLevelNuclearNorm.flatten := fun c => (c, tt) |}.

Definition two_scales : @MultiLevelNuclearNorm.t (ndarray Cx) unit :=
  {| MultiLevelNuclearNorm.base :=
       NuclearNorm.__init__ (VFloat 1) (of_shape [2; 1]%nat) 1;
     MultiLevelNuclearNorm._weights := [VFloat 1; VFloat 2];
     MultiLevelNuclearNorm._patch_shape :=
       [of_shape [2; 1]%nat; of_shape [2; 1]%nat];
     MultiLevelNuclearNorm.linear_op := Some two_equal_bands |}.

(** The instance that [MultiLevelNuclearNorm([1.0], [(2, 1)], two_bands)]
    builds: one scale for a linear operator of two bands. *)
Definition one_scale : @MultiLevelNuclearNorm.t (ndarray Cx) unit :=
  {| MultiLevelNuclearNorm.base :=
       NuclearNorm.__init__ (VFloat 1) (of_shape [2; 1]%nat) 1;
     MultiLevelNuclearNorm._weights := [VFloat 1];
     MultiLevelNuclearNorm._patch_shape := [of_shape [2; 1]%nat];
     MultiLevelNuclearNorm.linear_op := Some two_bands |}.

(** An OWL instance built without [beta]. *)
Definition owl_all : OWL.t :=
  {| OWL.weights := OWL.Weights (WScalar 1); OWL.mode := literal "all";
     OWL.band_shape := None |}.

Definition three_samples : list Cx := [of_real 3; of_real 2; of_real 1].

(** A vector of three items with one weight per item, and a weight
    vector of four items. *)
Definition vector_3 : ndarray Cx :=
  {| shape := [3%nat]; flat := three_samples |}.

(** A vector with a zero item. *)
Definition with_zero : ndarray Cx :=
  {| shape := [3%nat]; flat := [of_real 3; czero; of_real 1] |}.

Definition weights_3 : ndarray R :=
  {| shape := [3%nat]; flat := [1; 2; 0] |}.

Definition weights_4 : ndarray R :=
  {| shape := [4%nat]; flat := [1; 1; 1; 1] |}.

End Samples.

(** Arrays as nested lists, and a transform that leaves its input as it
    is: the decomposition of an array is the array, flattened to itself
    with the number of its rows as shape record. *)
Module Nested.

#[local] Set Warnings "-register-all".

Inductive array : Type :=
| Scalar (x : R)
| Rows (l : list array).

Definition n_rows (a : array) : result nat :=
  match a with
  | Scalar _ => Raise IndexError
  | Rows l => Ok (length l)
  end.

Definition row (a : array) (i : nat) : result array :=
  match a with
  | Scalar _ => Raise IndexError
  | Rows l =>
      match l !! i with
      | Some r => Ok r
      | None => Raise IndexError
      end
  end.

Definition stack (l : list array) : result array := Ok (Rows l).

Definition run (tr : unit) (a : array) : unit * result array := (tr, Ok a).

Definition flatten (b : array) : result (array * nat) :=
  n <- n_rows b ;; Ok (b, n).

Definition unflatten (c : array) (s : Wavelet2.shape_attr nat)
  : result array :=
  match s with
  | Wavelet2.OneShape _ => Ok c
  | _ => Raise TypeError
  end.

Definition no_items (s : nat) : result (list (Wavelet2.shape_attr nat)) :=
  Raise TypeError.

(** An array of a shape, every item of which is [x]. *)
Fixpoint full (x : R) (s : list nat) : array :=
  match s with
  | [] => Scalar x
  | d :: rest => Rows (repeat (full x rest) d)
  end.

(** [numpy.zeros(shape)] after [fake_data[list(zip(shape // 2))] = 1].
    The index is a list of one-item tuples, which numpy reads as an
    array of positions along the first axis: for every length [d] of the
    shape, the whole row [d // 2] is set to one.  A position beyond the
    first axis is an [IndexError], and so is any index into an array
    without axes. *)
Definition impulse (shape_ : list Z) : result array :=
  if existsb (fun d => (d <? 0)%Z) shape_ then Raise ValueError
  else
    match map Z.to_nat shape_ with
    | [] => Raise IndexError
    | d :: rest =>
        let marked := map (fun n => (n / 2)%nat) (d :: rest) in
        if forallb (fun k => (k <? d)%nat) marked
        then Ok (Rows (map (fun i =>
                     if existsb (Nat.eqb i) marked then full 1 rest
                     else full 0 rest) (seq 0 d)))
        else Raise IndexError
    end.

Fixpoint sum_squares (a : array) : R :=
  match a with
  | Scalar x => x * x
  | Rows l => fold_right (fun r acc => sum_squares r + acc) 0 l
  end.

Definition norm (a : array) : R := sqrt (sum_squares a).

Definition W : Type := Wavelet2.t nat unit.

Definition op :=
  @Wavelet2.op array array array nat unit run flatten Ok n_rows row stack.
Definition adj_op :=
  @Wavelet2.adj_op array array array nat unit run unflatten (fun a => a)
    n_rows row stack no_items.
Definition l2norm :=
  @Wavelet2.l2norm array array array nat unit run flatten Ok n_rows row
    stack impulse norm.

Definition two_channels : array :=
  Rows [Rows [Scalar 1; Scalar 2]; Rows [Scalar 3; Scalar 4]].

Definition single : W :=
  {| Wavelet2.nb_scale := 4; Wavelet2.multichannel := false;
     Wavelet2.transform_ := tt; Wavelet2.coeffs_shape := Wavelet2.NoShape |}.

Definition multi : W :=
  {| Wavelet2.nb_scale := 4; Wavelet2.multichannel := true;
     Wavelet2.transform_ := tt; Wavelet2.coeffs_shape := Wavelet2.NoShape |}.

(** The instance [single] after the analysis of an array of two rows. *)
Definition used : W :=
  {| Wavelet2.nb_scale := 4; Wavelet2.multichannel := false;
     Wavelet2.transform_ := tt;
     Wavelet2.coeffs_shape := Wavelet2.OneShape 2%nat |}.

End Nested.

(** * Properties *)

(** ** Arrays, sorting and indexing *)

Module NpFacts.
Lemma length_insert_by {A} (key : A -> R) x l :
  length (insert_by key x l) = S (length l).
Proof.
  induction l as [|h t IH]; simpl; [reflexivity|].
  destruct (Rlt_dec _ _); simpl; [reflexivity|]. rewrite IH. reflexivity.
Qed.

Lemma length_sort_by_acc {A} (key : A -> R) l acc :
  length (fold_left (fun acc x => insert_by key x acc) l acc)
  = (length l + length acc)%nat.
Proof.
  revert acc. induction l as [|h t IH]; intros acc; simpl; [reflexivity|].
  rewrite IH, length_insert_by. lia.
Qed.

Lemma length_sort_by {A} (key : A -> R) l : length (sort_by key l) = length l.
Proof. unfold sort_by. rewrite length_sort_by_acc. simpl. lia. Qed.

Lemma index_in_range {A} (l : list A) (i : Z) :
  (0 <= i < Z.of_nat (length l))%Z -> exists x, index l i = Ok x.
Proof.
  intros [H0 H1]. unfold index.
  destruct (Z.leb_spec 0 i); [|lia]. destruct (Z.ltb_spec i (Z.of_nat (length l))); [|lia].
  simpl. destruct (l !! Z.to_nat i) eqn:E; [eauto|].
  apply lookup_ge_None in E. lia.
Qed.

Lemma index_out_of_range {A} (l : list A) (i : Z) :
  (Z.of_nat (length l) <= i)%Z -> index l i = Raise IndexError.
Proof.
  intros H. unfold index.
  destruct (Z.ltb_spec i (Z.of_nat (length l))); [lia|].
  rewrite andb_false_r.
  destruct (Z.ltb_spec i 0); [lia|]. rewrite andb_false_r. reflexivity.
Qed.


Lemma int_eqb_refl (n : nat) : int_eqb n (VInt (Z.of_nat n)) = true.
Proof. simpl. apply Z.eqb_refl. Qed.

Lemma shape_eqb_of_shape (s : list nat) : shape_eqb s (of_shape s) = true.
Proof.
  unfold shape_eqb, of_shape. induction s as [|n s IH]; simpl; [reflexivity|].
  rewrite Z.eqb_refl. exact IH.
Qed.

Lemma dims_of_shape (s : list nat) :
  dims (map (fun n => VInt (Z.of_nat n)) s) = Ok s.
Proof.
  induction s as [|n s IH]; simpl; [reflexivity|].
  destruct (Z.ltb_spec (Z.of_nat n) 0); [lia|].
  rewrite IH. simpl. rewrite Nat2Z.id. reflexivity.
Qed.

Lemma prod_of_shape (s : list nat) :
  s <> [] -> prod_of (of_shape s) = Ok (size_of s).
Proof.
  intros H. unfold prod_of, of_shape. rewrite dims_of_shape. simpl.
  destruct s; [contradiction|reflexivity].
Qed.

Lemma but_last_of_shape (lead : list nat) (w : nat) :
  but_last (of_shape (lead ++ [w])) = Ok (of_shape lead).
Proof.
  unfold but_last, of_shape. rewrite map_app. simpl.
  rewrite removelast_last. reflexivity.
Qed.

Lemma size_of_app (a b : list nat) : size_of (a ++ b) = (size_of a * size_of b)%nat.
Proof.
  unfold size_of. induction a as [|x a IH]; simpl; [lia|]. rewrite IH. lia.
Qed.

Lemma length_gather {A} (idx : list nat) (l : list A) :
  Forall (fun i => (i < length l)%nat) idx -> length (gather idx l) = length idx.
Proof.
  unfold gather. induction 1 as [|i idx Hi _ IH]; [reflexivity|].
  destruct (lookup_lt_is_Some_2 l i Hi) as [x Hx].
  cbn. rewrite Hx. cbn. f_equal. exact IH.
Qed.

Lemma length_flat_map_const {A B} (f : A -> list B) (l : list A) (n : nat) :
  (forall a, length (f a) = n) -> length (flat_map f l) = (length l * n)%nat.
Proof.
  intros H. induction l as [|a l IH]; simpl; [reflexivity|].
  rewrite length_app, H, IH. reflexivity.
Qed.

Lemma moveaxis_0_last_wf {A} (a : ndarray A) (c : nat) (rest : list nat) :
  wf a -> shape a = c :: rest ->
  exists items,
    moveaxis_0_last a = Ok {| shape := rest ++ [c]; flat := items |}
    /\ length items = (size_of rest * c)%nat.
Proof.
  intros Hwf Hs. unfold moveaxis_0_last. rewrite Hs.
  eexists. split; [reflexivity|].
  rewrite length_gather.
  - rewrite (length_flat_map_const _ _ c).
    + rewrite length_seq. reflexivity.
    + intros j. rewrite length_map, length_seq. reflexivity.
  - apply List.Forall_forall. intros i Hi. apply in_flat_map in Hi.
    destruct Hi as (j & Hj & Hi). apply in_map_iff in Hi.
    destruct Hi as (k & <- & Hk). apply in_seq in Hj, Hk.
    unfold wf in Hwf. rewrite Hwf, Hs. simpl. nia.
Qed.

Lemma eps32_pos : 0 < eps32.
Proof. unfold eps32. lra. Qed.

Lemma cabs_cscale (z : Cx) (f : R) : cabs (cscale z f) = Rabs f * cabs z.
Proof.
  destruct z as [x y]. unfold cabs, cscale. cbn [fst snd].
  replace (x * f * (x * f) + y * f * (y * f))
    with (Rsqr f * (x * x + y * y)) by (unfold Rsqr; ring).
  rewrite sqrt_mult_alt by apply Rle_0_sqr.
  rewrite sqrt_Rsqr_abs. reflexivity.
Qed.

Lemma nth_Forall (P : R -> Prop) (l : list R) (k : nat) (d : R) :
  Forall P l -> P d -> P (nth k l d).
Proof.
  intros Hl Hd. destruct (Nat.lt_ge_cases k (length l)) as [H|H].
  - rewrite List.Forall_forall in Hl. apply Hl, nth_In, H.
  - rewrite nth_overflow by exact H. exact Hd.
Qed.

Lemma map_nth_seq {A B} (f : A -> B) (l : list A) (d : A) :
  map (fun j => f (nth j l d)) (seq 0 (length l)) = map f l.
Proof.
  induction l as [|a l IH]; [reflexivity|].
  cbn [length seq map nth]. f_equal.
  rewrite <- seq_shift, List.map_map. exact IH.
Qed.

Lemma reshape_shape {A} (a b : ndarray A) (sh : list nat) :
  reshape a sh = Ok b -> shape b = sh.
Proof.
  unfold reshape. destruct (_ =? _)%nat; [|discriminate].
  intros H. injection H as <-. reflexivity.
Qed.

(** *** Broadcasting *)

Lemma pad_self (s : list nat) : pad s (length s) = s.
Proof. unfold pad. rewrite Nat.sub_diag. reflexivity. Qed.

Lemma pad_nil (n : nat) : pad [] n = repeat 1%nat n.
Proof. unfold pad. cbn [length]. rewrite Nat.sub_0_r. apply app_nil_r. Qed.

Lemma pad_tail (rest : list nat) : pad rest (S (length rest)) = 1%nat :: rest.
Proof.
  unfold pad. replace (S (length rest) - length rest)%nat with 1%nat by lia.
  reflexivity.
Qed.

Lemma length_pad (s : list nat) (n : nat) :
  (length s <= n)%nat -> length (pad s n) = n.
Proof. intros H. unfold pad. rewrite length_app, repeat_length. lia. Qed.

Lemma size_of_pad (s : list nat) (n : nat) : size_of (pad s n) = size_of s.
Proof.
  unfold pad. induction (n - length s)%nat as [|k IH]; [reflexivity|].
  cbn [repeat app size_of fold_right]. fold (size_of (repeat 1%nat k ++ s)).
  rewrite IH. lia.
Qed.

Lemma broadcast_axes_same (s : list nat) :
  map_result broadcast_axis (combine s s) = Ok s.
Proof.
  induction s as [|x s IH]; [reflexivity|].
  cbn [combine map_result broadcast_axis]. rewrite Nat.eqb_refl. cbn [bind].
  rewrite IH. reflexivity.
Qed.

Lemma broadcast_axes_ones_l (s : list nat) :
  map_result broadcast_axis (combine (repeat 1%nat (length s)) s) = Ok s.
Proof.
  induction s as [|x s IH]; [reflexivity|].
  cbn [length repeat combine map_result broadcast_axis].
  rewrite IH. destruct (Nat.eqb_spec 1 x) as [->|_]; reflexivity.
Qed.

Lemma broadcast_axes_ones_r (s : list nat) :
  map_result broadcast_axis (combine s (repeat 1%nat (length s))) = Ok s.
Proof.
  induction s as [|x s IH]; [reflexivity|].
  cbn [length repeat combine map_result broadcast_axis].
  rewrite IH. destruct (Nat.eqb_spec x 1) as [->|_]; reflexivity.
Qed.

Lemma broadcast_shapes_same (s : list nat) : broadcast_shapes s s = Ok s.
Proof.
  unfold broadcast_shapes. rewrite Nat.max_id, pad_self.
  apply broadcast_axes_same.
Qed.

Lemma broadcast_shapes_scalar_l (s : list nat) : broadcast_shapes [] s = Ok s.
Proof.
  unfold broadcast_shapes. cbn [length Nat.max]. rewrite pad_nil, pad_self.
  apply broadcast_axes_ones_l.
Qed.

Lemma broadcast_shapes_scalar_r (s : list nat) : broadcast_shapes s [] = Ok s.
Proof.
  unfold broadcast_shapes. cbn [length]. rewrite Nat.max_0_r, pad_nil, pad_self.
  apply broadcast_axes_ones_r.
Qed.

Lemma broadcast_shapes_tail_l (c : nat) (rest : list nat) :
  broadcast_shapes rest (c :: rest) = Ok (c :: rest).
Proof.
  unfold broadcast_shapes. cbn [length].
  replace (Nat.max (length rest) (S (length rest))) with (S (length rest))
    by lia.
  rewrite pad_tail.
  change (S (length rest)) with (length (c :: rest)). rewrite pad_self.
  cbn [combine map_result broadcast_axis]. rewrite broadcast_axes_same.
  destruct (Nat.eqb_spec 1 c) as [->|_]; reflexivity.
Qed.

Lemma broadcast_shapes_tail_r (c : nat) (rest : list nat) :
  broadcast_shapes (c :: rest) rest = Ok (c :: rest).
Proof.
  unfold broadcast_shapes. cbn [length].
  replace (Nat.max (S (length rest)) (length rest)) with (S (length rest))
    by lia.
  rewrite pad_tail.
  change (S (length rest)) with (length (c :: rest)). rewrite pad_self.
  cbn [combine map_result broadcast_axis]. rewrite broadcast_axes_same.
  destruct (Nat.eqb_spec c 1) as [->|_]; reflexivity.
Qed.

Lemma broadcast_axes_fit (a b s : list nat) :
  length a = length b ->
  map_result broadcast_axis (combine a b) = Ok s ->
  Forall2 axis_fits a s /\ Forall2 axis_fits b s.
Proof.
  revert b s. induction a as [|x a IH]; intros [|y b] s Hl H;
    try discriminate.
  - cbn in H. injection H as <-. split; constructor.
  - cbn [combine map_result] in H. cbn [length] in Hl.
    destruct (broadcast_axis (x, y)) as [t|e] eqn:Ht; [|discriminate].
    cbn [bind] in H.
    destruct (map_result broadcast_axis (combine a b)) as [s'|e] eqn:Hs;
      [|discriminate].
    cbn [bind] in H. injection H as <-.
    destruct (IH b s' ltac:(lia) Hs) as [Ha Hb].
    unfold broadcast_axis in Ht.
    destruct (Nat.eqb_spec x y) as [E|_].
    { injection Ht as <-. subst y.
      split; constructor; try assumption; left; reflexivity. }
    destruct (Nat.eqb_spec x 1) as [E|_].
    { injection Ht as <-.
      split; constructor; try assumption; [right; exact E|left; reflexivity]. }
    destruct (Nat.eqb_spec y 1) as [E|_]; [|discriminate].
    injection Ht as <-.
    split; constructor; try assumption; [left; reflexivity|right; exact E].
Qed.

Lemma length_map_result {A B} (f : A -> result B) (l : list A) (out : list B) :
  map_result f l = Ok out -> length out = length l.
Proof.
  revert out. induction l as [|x l IH]; intros out H.
  - cbn in H. injection H as <-. reflexivity.
  - cbn [map_result] in H. destruct (f x); [|discriminate]. cbn [bind] in H.
    destruct (map_result f l) as [bs|]; [|discriminate]. cbn [bind] in H.
    injection H as <-. cbn [length]. f_equal. apply IH. reflexivity.
Qed.

Lemma broadcast_shapes_fit (a b s : list nat) :
  broadcast_shapes a b = Ok s ->
  length s = Nat.max (length a) (length b)
  /\ Forall2 axis_fits (pad a (length s)) s
  /\ Forall2 axis_fits (pad b (length s)) s.
Proof.
  unfold broadcast_shapes. intros H.
  assert (Hl : length s = Nat.max (length a) (length b)).
  { apply length_map_result in H. rewrite H, length_combine.
    rewrite !length_pad by lia. lia. }
  split; [exact Hl|]. rewrite Hl.
  apply broadcast_axes_fit; [|exact H].
  rewrite !length_pad by lia. reflexivity.
Qed.

Lemma source_index_lt (src target : list nat) :
  Forall2 axis_fits src target ->
  forall i, (i < size_of target)%nat ->
    (source_index src target i < size_of src)%nat.
Proof.
  induction 1 as [|x t src target Hxt Hrest IH]; intros i Hi.
  - cbn. lia.
  - cbn [source_index]. cbn [size_of fold_right] in *.
    fold (size_of target) in *. fold (size_of src).
    assert (Hst : size_of target <> 0%nat) by (intros E; rewrite E in Hi; lia).
    pose proof (IH (i mod size_of target)%nat
                  (Nat.mod_upper_bound _ _ Hst)) as Hrec.
    destruct (Nat.eqb_spec x 1) as [->|Hx1].
    + lia.
    + destruct Hxt as [->|E]; [|contradiction].
      assert (Hk : (i / size_of target < t)%nat).
      { apply Nat.Div0.div_lt_upper_bound. lia. }
      nia.
Qed.

Lemma source_index_ones (n : nat) : forall target i,
  source_index (repeat 1%nat n) target i = 0%nat.
Proof.
  induction n as [|n IH]; intros target i; [reflexivity|].
  destruct target as [|t target]; [reflexivity|].
  cbn [repeat source_index]. rewrite IH. reflexivity.
Qed.

Lemma source_index_same (s : list nat) : forall i,
  (i < size_of s)%nat -> source_index s s i = i.
Proof.
  induction s as [|d s IH]; intros i Hi.
  - cbn in *. lia.
  - cbn [source_index]. cbn [size_of fold_right] in Hi. fold (size_of s) in *.
    assert (Hs : size_of s <> 0%nat) by (intros E; rewrite E in Hi; lia).
    rewrite IH by (apply Nat.mod_upper_bound; exact Hs).
    destruct (Nat.eqb_spec d 1) as [->|_].
    + rewrite Nat.mod_small by lia. lia.
    + pose proof (Nat.div_mod_eq i (size_of s)). lia.
Qed.

Lemma source_index_tail (c : nat) (rest : list nat) (i : nat) :
  (i < c * size_of rest)%nat ->
  source_index (1%nat :: rest) (c :: rest) i = (i mod size_of rest)%nat.
Proof.
  intros Hi. cbn [source_index]. cbn [Nat.eqb].
  assert (Hs : size_of rest <> 0%nat) by (intros E; rewrite E in Hi; lia).
  rewrite source_index_same by (apply Nat.mod_upper_bound; exact Hs).
  lia.
Qed.

Lemma broadcast2_wf {A B C} (f : A -> B -> C) da db a b out :
  broadcast2 f da db a b = Ok out -> wf out.
Proof.
  unfold broadcast2.
  destruct (broadcast_shapes (shape a) (shape b)); [|discriminate].
  cbn [bind]. intros H. injection H as <-. unfold wf. cbn [shape flat].
  rewrite length_map, length_seq. reflexivity.
Qed.

End NpFacts.

(** ** Sorting and permutations *)

Module SortFacts.

Lemma insert_by_perm {A} (key : A -> R) (x : A) (l : list A) :
  Permutation (insert_by key x l) (x :: l).
Proof.
  induction l as [|h t IH]; cbn [insert_by]; [reflexivity|].
  destruct (Rlt_dec (key x) (key h)); [reflexivity|].
  rewrite IH. apply perm_swap.
Qed.

Lemma sort_by_acc_perm {A} (key : A -> R) (l : list A) : forall acc,
  Permutation (fold_left (fun acc x => insert_by key x acc) l acc) (l ++ acc).
Proof.
  induction l as [|x l IH]; intros acc; cbn [fold_left]; [reflexivity|].
  rewrite IH, insert_by_perm. cbn [app]. symmetry. apply Permutation_middle.
Qed.

Lemma sort_by_perm {A} (key : A -> R) (l : list A) :
  Permutation (sort_by key l) l.
Proof. unfold sort_by. rewrite sort_by_acc_perm, app_nil_r. reflexivity. Qed.

Lemma insert_by_sorted {A} (key : A -> R) (x : A) (l : list A) :
  StronglySorted (by_key key) l -> StronglySorted (by_key key) (insert_by key x l).
Proof.
  induction 1 as [|h t Hs IH Hall]; cbn [insert_by].
  - constructor; constructor.
  - destruct (Rlt_dec (key x) (key h)) as [Hlt|Hge].
    + constructor; [constructor; assumption|].
      constructor; [unfold by_key; lra|].
      eapply List.Forall_impl; [|exact Hall]. unfold by_key. intros a Ha. lra.
    + constructor; [exact IH|].
      eapply Permutation_Forall; [symmetry; apply insert_by_perm|].
      constructor; [unfold by_key; lra|exact Hall].
Qed.

Lemma sort_by_acc_sorted {A} (key : A -> R) (l : list A) : forall acc,
  StronglySorted (by_key key) acc ->
  StronglySorted (by_key key) (fold_left (fun acc x => insert_by key x acc) l acc).
Proof.
  induction l as [|x l IH]; intros acc Hacc; cbn [fold_left]; [exact Hacc|].
  apply IH, insert_by_sorted, Hacc.
Qed.

Lemma sort_by_sorted {A} (key : A -> R) (l : list A) :
  StronglySorted (by_key key) (sort_by key l).
Proof. apply sort_by_acc_sorted. constructor. Qed.

Lemma argsort_perm (v : list R) : Permutation (argsort v) (seq 0 (length v)).
Proof. apply sort_by_perm. Qed.

(** The scatter [inv[ix] = arange(n)]. *)
Lemma scatter_spec (pairs : list (nat * nat)) : forall inv : list nat,
  List.NoDup (map snd pairs) ->
  Forall (fun ji => (snd ji < length inv)%nat) pairs ->
  let r := fold_left (fun inv ji => <[snd ji := fst ji]> inv) pairs inv in
  length r = length inv
  /\ (forall j i, In (j, i) pairs -> r !! i = Some j)
  /\ (forall i, ~ In i (map snd pairs) -> r !! i = inv !! i).
Proof.
  induction pairs as [|[j0 i0] rest IH]; intros inv Hnd Hall; cbn [fold_left].
  - cbv zeta. split; [reflexivity|]. split; [intros j i []|reflexivity].
  - cbn [map snd fst] in *. apply List.NoDup_cons_iff in Hnd as [Hnot Hnd].
    apply List.Forall_cons_iff in Hall as [H0 Hall]. cbn [snd] in H0.
    specialize (IH (<[i0:=j0]> inv) Hnd).
    destruct IH as (Hlen & Hin & Hout).
    { eapply List.Forall_impl; [|exact Hall]. intros a Ha.
      rewrite length_insert. exact Ha. }
    cbv zeta. split; [rewrite Hlen; apply length_insert|]. split.
    + intros j i [E|Hji].
      * injection E as <- <-. rewrite Hout by exact Hnot.
        apply list_lookup_insert_eq. exact H0.
      * apply Hin. exact Hji.
    + intros i Hi. cbn [map snd In] in Hi.
      rewrite Hout by (intros H; apply Hi; right; exact H).
      apply list_lookup_insert_ne. intros E. apply Hi. left. exact E.
Qed.

Lemma in_combine_seq (ix : list nat) (j i : nat) (s : nat) :
  In (j, i) (combine (seq s (length ix)) ix) <-> (s <= j)%nat /\ ix !! (j - s)%nat = Some i.
Proof.
  revert s. induction ix as [|x ix IH]; intros s; cbn [length seq combine].
  - split; [intros []|intros [_ H]; discriminate].
  - cbn [In]. rewrite IH. split.
    + intros [E|[Hs H]].
      * injection E as <- <-. split; [lia|]. rewrite Nat.sub_diag. reflexivity.
      * split; [lia|]. replace (j - s)%nat with (S (j - S s)) by lia. exact H.
    + intros [Hs H]. destruct (Nat.eq_dec j s) as [->|Hne].
      * left. rewrite Nat.sub_diag in H. simpl in H. injection H as ->. reflexivity.
      * right. split; [lia|]. replace (j - s)%nat with (S (j - S s)) in H by lia.
        exact H.
Qed.

Lemma snd_combine_seq (ix : list nat) (s : nat) :
  map snd (combine (seq s (length ix)) ix) = ix.
Proof.
  revert s. induction ix as [|x ix IH]; intros s; simpl; [reflexivity|].
  rewrite IH. reflexivity.
Qed.

Lemma invert_spec (ix : list nat) :
  List.NoDup ix -> Forall (fun i => (i < length ix)%nat) ix ->
  length (OWL.invert ix) = length ix
  /\ forall j i, ix !! j = Some i -> OWL.invert ix !! i = Some j.
Proof.
  intros Hnd Hall. unfold OWL.invert.
  destruct (scatter_spec (combine (seq 0 (length ix)) ix) (repeat 0%nat (length ix)))
    as (Hlen & Hin & _).
  - rewrite snd_combine_seq. exact Hnd.
  - apply List.Forall_forall. intros [j i] Hji. cbn [snd].
    rewrite repeat_length. apply in_combine_r in Hji.
    rewrite List.Forall_forall in Hall. apply Hall. exact Hji.
  - split; [rewrite Hlen; apply repeat_length|].
    intros j i Hj. apply Hin. apply in_combine_seq. split; [lia|].
    rewrite Nat.sub_0_r. exact Hj.
Qed.

Lemma gather_lookup {A} (idx : list nat) (l : list A) :
  Forall (fun i => (i < length l)%nat) idx ->
  forall p i, idx !! p = Some i -> gather idx l !! p = l !! i.
Proof.
  unfold gather. induction 1 as [|i0 idx Hi0 _ IH]; intros p i Hp; [discriminate|].
  destruct (lookup_lt_is_Some_2 l i0 Hi0) as [x Hx].
  cbn. rewrite Hx. cbn. destruct p as [|p].
  - simpl in Hp. injection Hp as <-. simpl. symmetry. exact Hx.
  - simpl in Hp. simpl. apply IH. exact Hp.
Qed.

End SortFacts.

(** ** Isotonic regression *)

Module IsotonicFacts.

Import Isotonic.

Lemma rsum_app (a b : list R) : rsum (a ++ b) = rsum a + rsum b.
Proof.
  unfold rsum. induction a as [|x a IH]; simpl; [lra|]. rewrite IH. lra.
Qed.

Lemma rsum_repeat (v : R) (n : nat) : rsum (repeat v n) = INR n * v.
Proof.
  unfold rsum. induction n as [|n IH]; [simpl; lra|].
  rewrite S_INR. cbn [repeat fold_right]. rewrite IH. lra.
Qed.

Lemma length_pos {A} (l : list A) : l <> [] -> 0 < INR (length l).
Proof.
  intros H. apply lt_0_INR. destruct l; [contradiction|simpl; lia].
Qed.

(** Comparing two means without dividing. *)
Lemma mean_not_lt (p b : list R) :
  p <> [] -> b <> [] -> ~ mean p < mean b ->
  rsum b * INR (length p) <= rsum p * INR (length b).
Proof.
  intros Hp Hb H. apply Rnot_lt_le in H. unfold mean in H.
  pose proof (length_pos p Hp) as Np. pose proof (length_pos b Hb) as Nb.
  apply (Rmult_le_compat_r (INR (length p) * INR (length b))) in H; [|nra].
  replace (rsum b / INR (length b) * (INR (length p) * INR (length b)))
    with (rsum b * INR (length p)) in H by (field; lra).
  replace (rsum p / INR (length p) * (INR (length p) * INR (length b)))
    with (rsum p * INR (length b)) in H by (field; lra).
  exact H.
Qed.

Lemma merge_left (Sp Sb X Np Nb k : R) :
  0 < Np -> 0 < Nb -> 0 < k ->
  Sp * k <= X * Np -> Sb * Np <= Sp * Nb ->
  (Sp + Sb) * k <= X * (Np + Nb).
Proof.
  intros HNp HNb Hk H1 H2.
  apply (Rmult_le_reg_r Np); [exact HNp|].
  assert (A1 : Sp * k * (Np + Nb) <= X * Np * (Np + Nb))
    by (apply Rmult_le_compat_r; lra).
  assert (A2 : 0 <= k * (Sp * Nb - Sb * Np))
    by (apply Rmult_le_pos; lra).
  nra.
Qed.

Lemma merge_right (Sp Sb X Np Nb k : R) :
  0 < Np -> 0 < Nb -> 0 < k -> k <= Nb ->
  Sb * k <= X * Nb -> Sb * Np <= Sp * Nb ->
  (Sp + Sb) * (Np + k) <= (Sp + X) * (Np + Nb).
Proof.
  intros HNp HNb Hk Hk' H1 H2.
  apply (Rmult_le_reg_r Nb); [exact HNb|].
  assert (A1 : 0 <= (X * Nb - Sb * k) * (Np + Nb))
    by (apply Rmult_le_pos; lra).
  assert (A2 : 0 <= (Sp * Nb - Sb * Np) * (Nb - k))
    by (apply Rmult_le_pos; lra).
  nra.
Qed.

Lemma heavy_single (v : R) : heavy_prefix [v].
Proof.
  intros k Hk. simpl in Hk. assert (k = 1%nat) as -> by lia. simpl. lra.
Qed.

Lemma heavy_merge (p b : list R) :
  p <> [] -> b <> [] -> heavy_prefix p -> heavy_prefix b ->
  ~ mean p < mean b -> heavy_prefix (p ++ b).
Proof.
  intros Hp Hb HPp HPb Hm k Hk.
  pose proof (mean_not_lt p b Hp Hb Hm) as Hc.
  pose proof (length_pos p Hp) as Np. pose proof (length_pos b Hb) as Nb.
  rewrite length_app in Hk. rewrite rsum_app, length_app, plus_INR.
  destruct (Nat.le_gt_cases k (length p)) as [Hle|Hgt].
  - rewrite take_app_le by exact Hle.
    apply merge_left; try assumption.
    + apply lt_0_INR. lia.
    + apply HPp. lia.
  - replace k with (length p + (k - length p))%nat by lia.
    rewrite take_app_add, rsum_app, plus_INR.
    apply merge_right; try assumption.
    + apply lt_0_INR. lia.
    + apply le_INR. lia.
    + apply HPb. lia.
Qed.

Lemma pool_spec (stack : list (list R)) : forall b : list R,
  b <> [] -> heavy_prefix b -> well_formed stack ->
  well_formed (pool b stack)
  /\ concat (rev (pool b stack)) = concat (rev stack) ++ b.
Proof.
  induction stack as [|p rest IH]; intros b Hb HPb Hwf.
  - simpl. repeat split; auto. rewrite app_nil_r. reflexivity.
  - destruct Hwf as (Hp & HPp & Hlt & Hrest). cbn [pool].
    destruct (Rlt_dec (mean p) (mean b)) as [Hm|Hm].
    + split.
      * cbn [well_formed]. repeat split; auto.
        constructor; [exact Hm|].
        eapply List.Forall_impl; [|exact Hlt]. cbn. intros q Hq. lra.
      * cbn [rev]. rewrite !concat_app. cbn [concat]. rewrite !app_nil_r.
        reflexivity.
    + destruct (IH (p ++ b)) as [Hwf' Hcat].
      * destruct p; [contradiction|discriminate].
      * apply heavy_merge; assumption.
      * exact Hrest.
      * split; [exact Hwf'|]. rewrite Hcat. cbn [rev].
        rewrite concat_app. cbn [concat]. rewrite app_nil_r, app_assoc.
        reflexivity.
Qed.

Lemma pava_fold (y : list R) : forall stack : list (list R),
  well_formed stack ->
  well_formed (fold_left (fun st v => pool [v] st) y stack)
  /\ concat (rev (fold_left (fun st v => pool [v] st) y stack))
     = concat (rev stack) ++ y.
Proof.
  induction y as [|v y IH]; intros stack Hwf.
  - simpl. rewrite app_nil_r. auto.
  - cbn [fold_left].
    destruct (pool_spec stack [v] ltac:(discriminate) (heavy_single v) Hwf)
      as [Hwf' Hcat].
    destruct (IH _ Hwf') as [Hwf'' Hcat'].
    split; [exact Hwf''|]. rewrite Hcat', Hcat, <- app_assoc. reflexivity.
Qed.

Lemma pava_spec (y : list R) :
  well_formed (pava y) /\ concat (rev (pava y)) = y.
Proof. apply (pava_fold y [] I). Qed.

Lemma fitted_cons (b : list R) (stack : list (list R)) :
  fitted (b :: stack) = fitted stack ++ repeat (mean b) (length b).
Proof.
  unfold fitted. cbn [rev]. rewrite flat_map_app. simpl.
  rewrite app_nil_r. reflexivity.
Qed.

(** A non-empty list has an item that is at least its mean. *)
Lemma exists_ge_mean (l : list R) :
  l <> [] ->
  exists (t : nat) (u : R), l !! t = Some u /\ rsum l <= INR (length l) * u.
Proof.
  induction l as [|x l IH]; [contradiction|]. intros _.
  destruct l as [|x' l].
  - exists 0%nat, x. simpl. split; [reflexivity|lra].
  - destruct (IH ltac:(discriminate)) as (t & u & Ht & Hu).
    assert (HN : 0 <= INR (length (x' :: l))) by apply pos_INR.
    change (rsum (x :: x' :: l)) with (x + rsum (x' :: l)).
    change (length (x :: x' :: l)) with (S (length (x' :: l))).
    rewrite S_INR.
    destruct (Rle_dec x u) as [Hxu|Hxu].
    + exists (S t), u. split; [exact Ht|]. nra.
    + exists 0%nat, x. split; [reflexivity|]. nra.
Qed.

Lemma prefix_bounded_app (f1 y1 f2 y2 : list R) :
  prefix_bounded f1 y1 -> prefix_bounded f2 y2 ->
  prefix_bounded (f1 ++ f2) (y1 ++ y2).
Proof.
  intros [L1 B1] [L2 B2]. split; [rewrite !length_app; lia|].
  intros i v Hi. apply lookup_app_Some in Hi.
  destruct Hi as [Hi|[Hge Hi]].
  - destruct (B1 i v Hi) as (t & u & Ht & Hy & Hv).
    exists t, u. split; [exact Ht|]. split; [|exact Hv].
    apply lookup_app_l_Some. exact Hy.
  - destruct (B2 _ v Hi) as (t & u & Ht & Hy & Hv).
    exists (length y1 + t)%nat, u. split; [lia|]. split; [|exact Hv].
    rewrite lookup_app_r by lia.
    replace (length y1 + t - length y1)%nat with t by lia. exact Hy.
Qed.

Lemma heavy_prefix_bounded (b : list R) :
  b <> [] -> heavy_prefix b ->
  prefix_bounded (repeat (mean b) (length b)) b.
Proof.
  intros Hb HP. split; [apply repeat_length|].
  intros i v Hi.
  assert (Hlt : (i < length b)%nat).
  { apply lookup_lt_Some in Hi. rewrite repeat_length in Hi. exact Hi. }
  assert (v = mean b) as ->.
  { apply list_elem_of_lookup_2 in Hi. apply list_elem_of_In in Hi.
    apply repeat_spec in Hi. exact Hi. }
  pose proof (HP (S i) ltac:(lia)) as Hh.
  assert (Hne : take (S i) b <> []).
  { destruct b; [contradiction|discriminate]. }
  destruct (exists_ge_mean _ Hne) as (t & u & Ht & Hu).
  rewrite length_take_le in Hu by lia.
  assert (Ht' : (t < S i)%nat).
  { apply lookup_lt_Some in Ht. rewrite length_take_le in Ht by lia. exact Ht. }
  rewrite lookup_take_lt in Ht by exact Ht'.
  exists t, u. split; [lia|]. split; [exact Ht|].
  unfold mean. pose proof (length_pos b Hb) as Nb.
  assert (Hi' : 0 < INR (S i)) by (apply lt_0_INR; lia).
  apply (Rmult_le_reg_r (INR (length b))); [exact Nb|].
  replace (rsum b / INR (length b) * INR (length b)) with (rsum b)
    by (field; lra).
  apply (Rmult_le_reg_r (INR (S i))); [exact Hi'|].
  nra.
Qed.

Lemma fitted_prefix_bounded (stack : list (list R)) :
  well_formed stack -> prefix_bounded (fitted stack) (concat (rev stack)).
Proof.
  induction stack as [|b rest IH]; intros Hwf.
  - split; [reflexivity|]. intros i v Hi. discriminate.
  - destruct Hwf as (Hb & HPb & _ & Hrest).
    rewrite fitted_cons. cbn [rev]. rewrite concat_app. cbn [concat].
    rewrite app_nil_r. apply prefix_bounded_app; [apply IH; exact Hrest|].
    apply heavy_prefix_bounded; assumption.
Qed.

Lemma fitted_items (stack : list (list R)) (v : R) :
  In v (fitted stack) -> exists q, In q stack /\ v = mean q.
Proof.
  unfold fitted. intros H. apply in_flat_map in H.
  destruct H as (q & Hq & Hv). apply in_rev in Hq. apply repeat_spec in Hv.
  eauto.
Qed.

Lemma fitted_sorted (stack : list (list R)) :
  well_formed stack -> StronglySorted Rle (fitted stack).
Proof.
  induction stack as [|b rest IH]; intros Hwf.
  - constructor.
  - destruct Hwf as (Hb & HPb & Hlt & Hrest). rewrite fitted_cons.
    apply StronglySorted_app_2.
    + intros x1 x2 H1 H2. apply list_elem_of_In in H1, H2.
      apply repeat_spec in H2. subst x2.
      destruct (fitted_items _ _ H1) as (q & Hq & ->).
      rewrite List.Forall_forall in Hlt. specialize (Hlt q Hq). lra.
    + apply IH. exact Hrest.
    + generalize (length b). intros n. induction n as [|n IHn]; cbn [repeat].
      * constructor.
      * constructor; [exact IHn|]. apply List.Forall_forall. intros x Hx.
        apply repeat_spec in Hx. lra.
Qed.

Lemma rev_lookup {A} (l : list A) (i : nat) :
  (i < length l)%nat -> rev l !! i = l !! (length l - S i)%nat.
Proof. intros H. rewrite rev_alt. apply reverse_lookup. exact H. Qed.

Lemma map_lookup {A B} (f : A -> B) (l : list A) (i : nat) :
  map f l !! i = option_map f (l !! i).
Proof.
  revert i. induction l as [|x l IH]; intros [|i]; simpl; auto.
Qed.

Lemma sorted_lookup {A} (Rel : A -> A -> Prop) (l : list A) :
  StronglySorted Rel l ->
  forall i j x y, (i < j)%nat -> l !! i = Some x -> l !! j = Some y ->
  Rel x y.
Proof.
  induction 1 as [|a l Hs IH Hall]; intros i j x y Hij Hi Hj.
  - discriminate.
  - destruct j as [|j]; [lia|]. destruct i as [|i].
    + simpl in Hi, Hj. injection Hi as <-.
      rewrite List.Forall_forall in Hall. apply Hall.
      apply list_elem_of_In. eapply list_elem_of_lookup_2. exact Hj.
    + simpl in Hi, Hj. apply (IH i j); [lia|assumption|assumption].
Qed.

(** The decreasing fit floored at [y_min]: it has the length of the
    input, its items are at least [y_min] and never increase, and each
    item is at most [max(y_min, u)] for an input item [u] at the same or
    a later position. *)
Lemma isotonic_decreasing_spec (y : list R) (y_min : R) :
  y <> [] ->
  exists m : list R,
    isotonic_regression y y_min false = Ok m
    /\ length m = length y
    /\ (forall j v, m !! j = Some v -> y_min <= v)
    /\ (forall j k vj vk, (j <= k)%nat ->
          m !! j = Some vj -> m !! k = Some vk -> vk <= vj)
    /\ (forall j v, m !! j = Some v ->
          exists t u, (j <= t)%nat /\ y !! t = Some u /\ v <= Rmax y_min u).
Proof.
  intros Hy. unfold isotonic_regression. destruct y as [|y0 y']; [contradiction|].
  set (y := y0 :: y') in *. cbn [order].
  destruct (pava_spec (rev y)) as [Hwf Hcat].
  pose proof (fitted_prefix_bounded _ Hwf) as [Hlen Hb]. rewrite Hcat in Hlen, Hb.
  pose proof (fitted_sorted _ Hwf) as Hs.
  set (f := fitted (pava (rev y))) in *.
  rewrite length_rev in Hlen.
  assert (Hm : forall j v, rev (map (fun v => Rmax y_min v) f) !! j = Some v ->
            (j < length y)%nat
            /\ exists x, f !! (length y - S j)%nat = Some x /\ v = Rmax y_min x).
  { intros j v Hj.
    assert (Hlt : (j < length y)%nat).
    { apply lookup_lt_Some in Hj. rewrite length_rev, length_map in Hj. lia. }
    split; [exact Hlt|].
    rewrite rev_lookup in Hj by (rewrite length_map; lia).
    rewrite length_map, map_lookup, Hlen in Hj.
    destruct (f !! (length y - S j)%nat) as [x|]; [|discriminate].
    injection Hj as <-. eauto. }
  eexists. split; [reflexivity|]. split; [|split; [|split]].
  - rewrite length_rev, length_map. exact Hlen.
  - intros j v Hj. destruct (Hm j v Hj) as (_ & x & _ & ->). apply Rmax_l.
  - intros j k vj vk Hjk Hj Hk.
    destruct (Hm j vj Hj) as (Hjl & xj & Hxj & ->).
    destruct (Hm k vk Hk) as (Hkl & xk & Hxk & ->).
    destruct (Nat.eq_dec j k) as [->|Hne].
    + rewrite Hxj in Hxk. injection Hxk as ->. lra.
    + assert (xk <= xj).
      { apply (sorted_lookup Rle f Hs (length y - S k) (length y - S j));
          [lia|assumption|assumption]. }
      apply Rle_max_compat_l. assumption.
  - intros j v Hj. destruct (Hm j v Hj) as (Hjl & x & Hx & ->).
    destruct (Hb _ _ Hx) as (t & u & Ht & Hu & Hxu).
    assert (Htl : (t < length y)%nat).
    { apply lookup_lt_Some in Hu. rewrite length_rev in Hu. exact Hu. }
    rewrite rev_lookup in Hu by exact Htl.
    exists (length y - S t)%nat, u. split; [lia|]. split; [exact Hu|].
    apply Rle_max_compat_l. exact Hxu.
Qed.

Lemma level_rsum (b : list R) (v : R) :
  Forall (fun x => x = v) b -> rsum b = INR (length b) * v.
Proof.
  induction 1 as [|x b Hx _ IH]; [simpl; lra|].
  change (rsum (x :: b)) with (x + rsum b).
  change (length (x :: b)) with (S (length b)). rewrite S_INR, IH, Hx. lra.
Qed.

Lemma level_mean (b : list R) (v : R) : level b v -> mean b = v.
Proof.
  intros [Hne Hall]. unfold mean. rewrite (level_rsum b v Hall).
  pose proof (length_pos b Hne). field. lra.
Qed.

Lemma level_repeat (b : list R) (v : R) :
  level b v -> repeat (mean b) (length b) = b.
Proof.
  intros Hl. rewrite (level_mean b v Hl). destruct Hl as [_ Hall].
  induction Hall as [|x b Hx _ IH]; [reflexivity|].
  cbn [length repeat]. rewrite IH, Hx. reflexivity.
Qed.

Lemma pool_level (stack : list (list R)) : forall (b : list R) (v : R),
  level b v ->
  Forall (fun p => exists c, level p c /\ c <= v) stack ->
  Forall (fun p => exists c, level p c /\ c <= v) (pool b stack).
Proof.
  induction stack as [|p rest IH]; intros b v Hb Hst; cbn [pool].
  - constructor; [|constructor]. exists v. split; [exact Hb|lra].
  - apply List.Forall_cons_iff in Hst as [(c & Hp & Hc) Hrest].
    destruct (Rlt_dec (mean p) (mean b)) as [Hlt|Hge].
    + constructor; [exists v; split; [exact Hb|lra]|].
      constructor; [exists c; auto|exact Hrest].
    + rewrite (level_mean p c Hp), (level_mean b v Hb) in Hge.
      assert (c = v) as -> by lra.
      apply IH; [|exact Hrest].
      destruct Hp as [Hpne Hpall], Hb as [Hbne Hball].
      split; [destruct p; [contradiction|discriminate]|].
      apply Forall_app. split; assumption.
Qed.

Lemma pava_fold_level (y : list R) : forall stack : list (list R),
  StronglySorted Rle y ->
  Forall (fun p => exists c, level p c /\ Forall (Rle c) y) stack ->
  Forall (fun p => exists c, level p c)
         (fold_left (fun st v => pool [v] st) y stack).
Proof.
  induction y as [|v y IH]; intros stack Hs Hst; cbn [fold_left].
  - eapply List.Forall_impl; [|exact Hst]. intros p (c & Hp & _). eauto.
  - apply StronglySorted_inv in Hs as [Hs Hv].
    apply IH; [exact Hs|].
    assert (Hpool : Forall (fun p => exists c, level p c /\ c <= v)
                      (pool [v] stack)).
    { apply pool_level.
      - split; [discriminate|]. constructor; [reflexivity|constructor].
      - eapply List.Forall_impl; [|exact Hst]. intros p (c & Hp & Hc).
        exists c. split; [exact Hp|].
        apply List.Forall_cons_iff in Hc as [Hc _]. exact Hc. }
    eapply List.Forall_impl; [|exact Hpool]. intros p (c & Hp & Hc).
    exists c. split; [exact Hp|].
    eapply List.Forall_impl; [|exact Hv]. cbn. intros u Hu. lra.
Qed.

Lemma fitted_level (stack : list (list R)) :
  Forall (fun p => exists c, level p c) stack ->
  fitted stack = concat (rev stack).
Proof.
  induction 1 as [|b rest (c & Hb) _ IH].
  - reflexivity.
  - rewrite fitted_cons, IH, (level_repeat b c Hb). cbn [rev].
    rewrite concat_app. cbn [concat]. rewrite app_nil_r. reflexivity.
Qed.

(** A non-decreasing input is its own increasing fit. *)
Lemma fitted_sorted_input (y : list R) :
  StronglySorted Rle y -> fitted (pava y) = y.
Proof.
  intros Hs. rewrite fitted_level.
  - apply pava_spec.
  - apply pava_fold_level; [exact Hs|constructor].
Qed.

Lemma lookup_sorted {A} (Rel : A -> A -> Prop) (l : list A) :
  (forall i j x y, (i < j)%nat -> l !! i = Some x -> l !! j = Some y ->
     Rel x y) ->
  StronglySorted Rel l.
Proof.
  induction l as [|a l IH]; intros H; [constructor|].
  constructor.
  - apply IH. intros i j x y Hij Hi Hj. apply (H (S i) (S j)); [lia|exact Hi|exact Hj].
  - apply List.Forall_forall. intros y Hy.
    apply list_elem_of_In, list_elem_of_lookup_1 in Hy. destruct Hy as [j Hj].
    apply (H 0%nat (S j)); [lia|reflexivity|exact Hj].
Qed.

(** A non-increasing input whose items are at least [y_min] is its own
    decreasing fit. *)
Lemma isotonic_decreasing_fixed (y : list R) (y_min : R) :
  y <> [] ->
  (forall j k vj vk, (j <= k)%nat ->
     y !! j = Some vj -> y !! k = Some vk -> vk <= vj) ->
  (forall j v, y !! j = Some v -> y_min <= v) ->
  isotonic_regression y y_min false = Ok y.
Proof.
  intros Hne Hmono Hmin. unfold isotonic_regression.
  destruct y as [|y0 y']; [contradiction|]. set (y := y0 :: y') in *.
  cbn [order]. f_equal.
  rewrite fitted_sorted_input.
  - rewrite <- (rev_involutive y) at 2. f_equal.
    rewrite <- (map_id (rev y)) at 2.
    apply map_ext_in. intros v Hv. apply in_rev in Hv.
    apply list_elem_of_In, list_elem_of_lookup_1 in Hv. destruct Hv as [j Hj].
    apply Rmax_right. eapply Hmin. exact Hj.
  - apply lookup_sorted. intros i j x z Hij Hi Hj.
    assert (Hjl : (j < length y)%nat)
      by (apply lookup_lt_Some in Hj; rewrite length_rev in Hj; exact Hj).
    rewrite rev_lookup in Hi, Hj by lia.
    apply (Hmono (length y - S j)%nat (length y - S i)%nat z x); [lia|assumption|assumption].
Qed.

(** A non-increasing input is only floored at [y_min]. *)
Lemma isotonic_decreasing_sorted (y : list R) (y_min : R) :
  y <> [] ->
  (forall j k vj vk, (j <= k)%nat ->
     y !! j = Some vj -> y !! k = Some vk -> vk <= vj) ->
  isotonic_regression y y_min false = Ok (map (fun v => Rmax y_min v) y).
Proof.
  intros Hne Hmono. unfold isotonic_regression.
  destruct y as [|y0 y']; [contradiction|]. set (y := y0 :: y') in *.
  cbn [order]. f_equal.
  rewrite fitted_sorted_input.
  - rewrite map_rev, rev_involutive. reflexivity.
  - apply lookup_sorted. intros i j x z Hij Hi Hj.
    assert (Hjl : (j < length y)%nat)
      by (apply lookup_lt_Some in Hj; rewrite length_rev in Hj; exact Hj).
    rewrite rev_lookup in Hi, Hj by lia.
    apply (Hmono (length y - S j)%nat (length y - S i)%nat z x);
      [lia|assumption|assumption].
Qed.

End IsotonicFacts.

(** ** Gradient operators *)

Module GradientFacts.

Import Gradient.

Section Facts.

Context {arr : Type}.
Variable sub : arr -> arr -> arr.
Variable mul : arr -> arr -> arr.
Variable div_scalar : arr -> R -> arr.
Variable sum_axis0 : arr -> arr.
Variable conjugate : arr -> arr.
Variable fft2 : arr -> arr.
Variable ifft2 : arr -> arr.
Variable generic_l2_norm : arr -> R.
Variable zeros_image : nat -> arr.
Variable random_image : nat -> arr.
Variable random_like : arr -> arr.
Variable kwargs : Type.
Variable instantiate : string -> kwargs -> result (@FourierOp arr).

Local Abbreviation get_spec_rad :=
  (Gradient.get_spec_rad div_scalar generic_l2_norm zeros_image random_image
     random_like).
Local Abbreviation spec_rad_loop :=
  (Gradient.spec_rad_loop div_scalar generic_l2_norm).
Local Abbreviation get_initial_x :=
  (Gradient.get_initial_x zeros_image random_image random_like).
Local Abbreviation step := (power_step div_scalar generic_l2_norm).
Local Abbreviation iterate := (power_iterate div_scalar generic_l2_norm).
Local Abbreviation change := (norm_change generic_l2_norm).

(** [get_grad] on an instance of the [GradBase] hierarchy stores
    [MtX(MX(x) - y)] in [grad] and touches no other attribute. *)
Lemma get_grad_stores (self : GradObj) (x m yv g : arr) :
  MX self [x] = Ok m ->
  y self = Some yv ->
  MtX self [sub m yv] = Ok g ->
  get_grad sub self x = Ok (set_grad self g).
Proof.
  intros Hm Hy Hg. unfold get_grad.
  rewrite Hm; simpl. rewrite Hy; simpl. rewrite Hg; simpl. reflexivity.
Qed.

(** For [Grad2DAnalysis] the stored gradient is
    [adj_op(op(x) - y)] of the Fourier operator. *)
Lemma get_grad_analysis (self : GradObj) (ft : FourierOp) (x yv : arr) :
  cls self = Grad2DAnalysis ->
  ft_cls self = Some ft ->
  y self = Some yv ->
  get_grad sub self x
  = Ok (set_grad self (ft_adj_op ft (sub (ft_op ft x) yv))).
Proof.
  intros Hc Hf Hy. apply get_grad_stores with (m := ft_op ft x) (yv := yv).
  - unfold MX. rewrite Hc. simpl. rewrite Hf. reflexivity.
  - exact Hy.
  - unfold MtX. rewrite Hc. simpl. rewrite Hf. reflexivity.
Qed.

(** For [Grad2DSynthesis] the chain goes through the linear operator. *)
Lemma get_grad_synthesis (self : GradObj) (ft : FourierOp) (lin : LinearOp)
  (x yv : arr) :
  cls self = Grad2DSynthesis ->
  ft_cls self = Some ft ->
  linear_cls self = Some lin ->
  y self = Some yv ->
  get_grad sub self x
  = Ok (set_grad self
          (lin_op lin (ft_adj_op ft
             (sub (ft_op ft (lin_adj_op lin x)) yv)))).
Proof.
  intros Hc Hf Hl Hy.
  apply get_grad_stores with (m := ft_op ft (lin_adj_op lin x)) (yv := yv).
  - unfold MX. rewrite Hc. simpl. rewrite Hf. simpl. rewrite Hl. reflexivity.
  - exact Hy.
  - unfold MtX. rewrite Hc. simpl. rewrite Hl. simpl. rewrite Hf. reflexivity.
Qed.

(** [MtMX] of the two concrete classes is the adjoint chain after the
    forward chain. *)
Lemma MtMX_analysis (self : GradObj) (ft : FourierOp) (x : arr) :
  cls self = Grad2DAnalysis ->
  ft_cls self = Some ft ->
  MtMX self [x] = Ok (ft_adj_op ft (ft_op ft x)).
Proof.
  intros Hc Hf. unfold MtMX, MX, MtX. rewrite Hc. cbn.
  rewrite Hf. reflexivity.
Qed.

Lemma MtMX_synthesis (self : GradObj) (ft : FourierOp) (lin : LinearOp)
  (x : arr) :
  cls self = Grad2DSynthesis ->
  ft_cls self = Some ft ->
  linear_cls self = Some lin ->
  MtMX self [x]
  = Ok (lin_op lin (ft_adj_op ft (ft_op ft (lin_adj_op lin x)))).
Proof.
  intros Hc Hf Hl. unfold MtMX, MX, MtX. rewrite Hc. cbn.
  rewrite Hf, Hl. reflexivity.
Qed.

(** C1.  [Grad2DSynthese_Pmri.get_grad(x)] calls [self.MX(x)] with one
    argument, while [MX] is declared with the two parameters [smap] and
    [alpha]: on every instance and every [x] the call raises [TypeError]
    and no gradient is stored. *)
Theorem Pmri_get_grad_raises (self : PmriObj) (x : arr) :
  Pmri_get_grad sub mul sum_axis0 conjugate fft2 ifft2 self x
  = Raise TypeError.
Proof. reflexivity. Qed.

(** The loop of [get_spec_rad], when [MtMX] returns [f]: it leaves after
    [j] steps, [1 <= j <= n], no earlier step met the tolerance, and
    step [j] is the last one allowed or meets the tolerance. *)
Lemma spec_rad_loop_spec (self : GradObj) (f : arr -> arr) (tol : R) :
  (forall x, MtMX self [x] = Ok (f x)) ->
  forall (n : nat) (x : arr) (prev : option arr),
  exists j : nat,
    (1 <= j <= S n)%nat
    /\ spec_rad_loop self tol (S n) x prev = Ok (Some (iterate f j x))
    /\ (forall k, (1 <= k < j)%nat ->
          ~ change (iterate f (k - 1) x) (iterate f k x) < tol)
    /\ (j = S n \/ change (iterate f (j - 1) x) (iterate f j x) < tol).
Proof.
  intros Hf n. induction n as [|n IH]; intros x prev.
  - exists 1%nat. cbn [Gradient.spec_rad_loop]. rewrite Hf. cbn [bind].
    split; [lia|]. split.
    + destruct (Rlt_dec _ _); reflexivity.
    + split; [intros k Hk; lia | left; reflexivity].
  - cbn [Gradient.spec_rad_loop]. rewrite Hf. cbn [bind].
    fold (step f x).
    destruct (Rlt_dec (Rabs (generic_l2_norm (step f x) - generic_l2_norm x))
                      tol) as [Hlt|Hge].
    + exists 1%nat. split; [lia|]. split; [reflexivity|].
      split; [intros k Hk; lia | right; exact Hlt].
    + destruct (IH (step f x) (Some (step f x))) as (j & Hj & Hrun & Hno & Hend).
      exists (S j). split; [lia|]. split; [exact Hrun|]. split.
      * intros k Hk. destruct k as [|[|k]]; [lia | exact Hge |].
        replace (S (S k) - 1)%nat with (S k) by lia.
        specialize (Hno (S k) ltac:(lia)).
        replace (S k - 1)%nat with k in Hno by lia. exact Hno.
      * destruct Hend as [->|Hend]; [left; reflexivity|right].
        destruct j as [|j]; [lia|].
        replace (S (S j) - 1)%nat with (S j) by lia.
        replace (S j - 1)%nat with j in Hend by lia. exact Hend.
Qed.

(** C2, as the code has it.  With [max_iter >= 1], [get_spec_rad] runs
    the power iteration from [get_initial_x()]: each step replaces [x]
    by [MtMX(x)] divided by the L2 norm of [x]; it stops after the first
    step [n] at which the absolute change of the L2 norm,
    [|norm(x_n) - norm(x_(n-1))|], is below [tolerance], or after
    [max_iter] steps; [spec_rad] is [coef_mul] times the L2 norm of the
    last iterate and [inv_spec_rad] is [1 / spec_rad]. *)
Theorem get_spec_rad_power_iteration (self : GradObj) (f : arr -> arr)
  (x0 : arr) (tolerance : R) (max_iter : nat) (coef_mul : R) :
  (1 <= max_iter)%nat ->
  (forall x, MtMX self [x] = Ok (f x)) ->
  get_initial_x self = Ok x0 ->
  exists n : nat,
    (1 <= n <= max_iter)%nat
    /\ get_spec_rad self tolerance max_iter coef_mul
       = Ok (set_inv_spec_rad
               (set_spec_rad self
                  (coef_mul * generic_l2_norm (iterate f n x0)))
               (1 / (coef_mul * generic_l2_norm (iterate f n x0))))
    /\ (forall k, (1 <= k < n)%nat ->
          ~ change (iterate f (k - 1) x0) (iterate f k x0) < tolerance)
    /\ (n = max_iter
        \/ change (iterate f (n - 1) x0) (iterate f n x0) < tolerance).
Proof.
  intros Hmax Hf Hx0.
  destruct max_iter as [|m]; [lia|].
  destruct (spec_rad_loop_spec self f tolerance Hf m x0 None)
    as (n & Hn & Hrun & Hno & Hend).
  exists n. split; [exact Hn|]. split; [|split; assumption].
  unfold Gradient.get_spec_rad. rewrite Hx0. cbn [bind].
  rewrite Hrun. reflexivity.
Qed.

(** With [max_iter = 0] the loop body never binds [x_new]. *)
Lemma get_spec_rad_no_iteration (self : GradObj) (x0 : arr)
  (tolerance coef_mul : R) :
  get_initial_x self = Ok x0 ->
  get_spec_rad self tolerance 0 coef_mul = Raise UnboundLocalError.
Proof. intros Hx0. unfold Gradient.get_spec_rad. rewrite Hx0. reflexivity. Qed.

(** X5.  [Grad2DAnalysis]: a mapping with more than one key is refused
    with [ValueError], before any operator is built and before the
    spectral radius is computed. *)
Lemma Grad2DAnalysis_init_many_keys (data : arr) (d : gmap string kwargs)
  (linear : option LinearOp) :
  (1 < size d)%nat ->
  Grad2DAnalysis_init div_scalar generic_l2_norm zeros_image random_image
    random_like kwargs instantiate data (FtDict kwargs d) linear
  = Raise ValueError.
Proof.
  intros Hd. unfold Grad2DAnalysis_init, resolve_ft_cls.
  destruct (Nat.ltb_spec 1 (size d)); [reflexivity | lia].
Qed.

(** C9.  [Grad2DSynthesis]: for a mapping with more than one key the
    [raise] statement evaluates the unbound name [valueerror]; the
    constructor ends with [NameError], not with the [ValueError] that
    [Grad2DAnalysis] raises. *)
Theorem Grad2DSynthesis_init_many_keys (data : arr) (d : gmap string kwargs)
  (linear : LinearOp) :
  (1 < size d)%nat ->
  Grad2DSynthesis_init div_scalar generic_l2_norm zeros_image random_image
    random_like kwargs instantiate data (FtDict kwargs d) linear
  = Raise NameError.
Proof.
  intros Hd. unfold Grad2DSynthesis_init, resolve_ft_cls.
  destruct (Nat.ltb_spec 1 (size d)); [reflexivity | lia].
Qed.

(** With a single key the class named by the key is instantiated with
    the mapped parameters, and the operator it returns becomes
    [ft_cls]. *)
Lemma resolve_ft_cls_single (too_many : exn) (k : string) (v : kwargs) :
  resolve_ft_cls kwargs instantiate too_many (FtDict kwargs {[ k := v ]})
  = instantiate k v.
Proof.
  unfold resolve_ft_cls. rewrite map_size_singleton. simpl.
  rewrite map_to_list_singleton. reflexivity.
Qed.

(** *** Abstract base, empty loops and what the methods keep *)

(** X1.  [GradBase] is abstract: on an instance of the base class itself
    [get_spec_rad], [get_grad] and [MtMX] all end with
    [NotImplementedError], whatever their arguments. *)
Theorem GradBase_is_abstract (self : GradObj) (x : arr)
  (tolerance : R) (max_iter : nat) (coef_mul : R) :
  cls self = GradBase ->
  get_spec_rad self tolerance max_iter coef_mul = Raise NotImplementedError
  /\ get_grad sub self x = Raise NotImplementedError
  /\ MtMX self [x] = Raise NotImplementedError.
Proof.
  intros Hc. unfold Gradient.get_spec_rad, Gradient.get_initial_x, get_grad,
    MtMX, MX.
  rewrite Hc. repeat split; reflexivity.
Qed.

(** X2.  With [max_iter = 0] the loop of [get_spec_rad] never binds
    [x_new]: on a [Grad2DAnalysis], and on a [Grad2DSynthesis] that has
    its linear operator, the call ends with [UnboundLocalError] and sets
    no spectral radius. *)
Theorem get_spec_rad_zero_iterations (self : GradObj) (ft : FourierOp)
  (tolerance coef_mul : R) :
  ft_cls self = Some ft ->
  cls self = Grad2DAnalysis
  \/ (cls self = Grad2DSynthesis /\ linear_cls self <> None) ->
  get_spec_rad self tolerance 0 coef_mul = Raise UnboundLocalError.
Proof.
  intros Hf [Hc|[Hc Hl]].
  - apply get_spec_rad_no_iteration with (x0 := random_image (img_size ft)).
    unfold Gradient.get_initial_x. rewrite Hc, Hf. reflexivity.
  - destruct (linear_cls self) as [lin|] eqn:El; [|contradiction].
    apply get_spec_rad_no_iteration
      with (x0 := random_like (lin_op lin (zeros_image (img_size ft)))).
    unfold Gradient.get_initial_x. rewrite Hc, Hf, El. reflexivity.
Qed.

(** X3.  [get_grad] keeps no history: after a call that returned, the
    instance differs from the former one in [grad] only, and a second
    call behaves as it would have on the former instance. *)
Theorem get_grad_keeps_last (self s1 : GradObj) (x1 x2 : arr) :
  get_grad sub self x1 = Ok s1 ->
  get_grad sub s1 x2 = get_grad sub self x2
  /\ cls s1 = cls self /\ y s1 = y self /\ analysis s1 = analysis self
  /\ ft_cls s1 = ft_cls self /\ linear_cls s1 = linear_cls self
  /\ spec_rad s1 = spec_rad self /\ inv_spec_rad s1 = inv_spec_rad self.
Proof.
  unfold get_grad. intros H.
  destruct (MX self [x1]) as [m|e]; [|discriminate]. cbn [bind] in H.
  destruct (y self) as [yv|] eqn:Hy; [|discriminate]. cbn [bind attr] in H.
  destruct (MtX self [sub m yv]) as [g|e]; [|discriminate]. cbn [bind] in H.
  injection H as <-.
  split; [|repeat split; try reflexivity; exact Hy].
  destruct self as [c yy an ft li sr isr gr]. cbn [y] in Hy. subst yy.
  unfold MX, MtX, set_grad. cbn [cls ft_cls linear_cls y].
  destruct c; reflexivity.
Qed.

(** X4.  [get_spec_rad] writes two attributes only.  When it returns,
    the instance holds a spectral radius and a cached inverse that
    multiply to one (for a radius that is not zero); the class, the
    data, the operators and the stored gradient are those of the former
    instance. *)
Theorem get_spec_rad_frame (self obj : GradObj) (tolerance : R)
  (max_iter : nat) (coef_mul : R) :
  get_spec_rad self tolerance max_iter coef_mul = Ok obj ->
  (exists s i, spec_rad obj = Some s /\ inv_spec_rad obj = Some i
     /\ (s <> 0 -> s * i = 1))
  /\ cls obj = cls self /\ y obj = y self /\ analysis obj = analysis self
  /\ ft_cls obj = ft_cls self /\ linear_cls obj = linear_cls self
  /\ grad obj = grad self.
Proof.
  unfold Gradient.get_spec_rad. intros H.
  destruct (Gradient.get_initial_x _ _ _ self) as [x0|e]; [|discriminate].
  cbn [bind] in H.
  destruct (Gradient.spec_rad_loop _ _ self tolerance max_iter x0 None)
    as [[x_new|]|e]; try discriminate.
  cbn [bind local attr set_spec_rad spec_rad] in H. injection H as <-.
  split; [|repeat split; reflexivity].
  eexists. eexists. split; [reflexivity|]. split; [reflexivity|].
  intros Hs. set (s := coef_mul * generic_l2_norm x_new) in *.
  field. exact Hs.
Qed.

(** X6.  A dict of at most one Fourier class.  With one entry
    [{k: v}] both constructors call the class [k] with the keyword
    arguments [v] and go on as if that operator had been passed (an exception of the class constructor is
    the exception of the call); the empty dict has no first key, and
    both constructors end with [IndexError]. *)
Theorem init_single_key_dict (data : arr) (k : string) (v : kwargs)
  (linear : option LinearOp) (lin : LinearOp) :
  Grad2DAnalysis_init div_scalar generic_l2_norm zeros_image random_image
    random_like kwargs instantiate data (FtDict kwargs {[ k := v ]}) linear
  = (f <- instantiate k v ;;
     Grad2DAnalysis_init div_scalar generic_l2_norm zeros_image random_image
       random_like kwargs instantiate data (FtObj kwargs f) linear)
  /\ Grad2DSynthesis_init div_scalar generic_l2_norm zeros_image
       random_image random_like kwargs instantiate data
       (FtDict kwargs {[ k := v ]}) lin
     = (f <- instantiate k v ;;
        Grad2DSynthesis_init div_scalar generic_l2_norm zeros_image
          random_image random_like kwargs instantiate data
          (FtObj kwargs f) lin)
  /\ Grad2DAnalysis_init div_scalar generic_l2_norm zeros_image
       random_image random_like kwargs instantiate data (FtDict kwargs ∅)
       linear
     = Raise IndexError
  /\ Grad2DSynthesis_init div_scalar generic_l2_norm zeros_image
       random_image random_like kwargs instantiate data (FtDict kwargs ∅)
       lin
     = Raise IndexError.
Proof.
  unfold Grad2DAnalysis_init, Grad2DSynthesis_init.
  rewrite !resolve_ft_cls_single.
  split; [destruct (instantiate k v); reflexivity|].
  split; [destruct (instantiate k v); reflexivity|].
  unfold resolve_ft_cls. rewrite map_size_empty, map_to_list_empty.
  split; reflexivity.
Qed.

End Facts.

(** *** The masked operator on [2 x 2] images *)

Ltac samples_lra := repeat (apply (f_equal2 cons); [lra|]); reflexivity.

Lemma norm_first (v : R) : Img.generic_l2_norm [v; 0; 0; 0] = Rabs v.
Proof.
  unfold Img.generic_l2_norm, Np.rsum. cbn [map fold_right].
  replace (v * v + (0 * 0 + (0 * 0 + (0 * 0 + 0)))) with (Rsqr v)
    by (unfold Rsqr; lra).
  apply sqrt_Rsqr_abs.
Qed.

Lemma norm_start : Img.generic_l2_norm Img.start = 29 / 25.
Proof.
  unfold Img.generic_l2_norm, Img.start, Np.rsum. cbn [map fold_right].
  replace (4 / 5 * (4 / 5) + (21 / 25 * (21 / 25) + (0 * 0 + (0 * 0 + 0))))
    with (29 / 25 * (29 / 25)) by lra.
  apply sqrt_square. lra.
Qed.

Lemma MtMX_operator (x : Img.arr) :
  MtMX Img.operator [x] = Ok (Img.normal x).
Proof. reflexivity. Qed.

Lemma step_start :
  power_step Img.div_scalar Img.generic_l2_norm Img.normal Img.start
  = [29 / 20; 0; 0; 0].
Proof.
  unfold power_step. rewrite norm_start.
  unfold Img.normal, Img.mask, Img.div_scalar, Img.start.
  cbn [map]. samples_lra.
Qed.

Lemma step_second :
  power_step Img.div_scalar Img.generic_l2_norm Img.normal [29 / 20; 0; 0; 0]
  = [841 / 400; 0; 0; 0].
Proof.
  unfold power_step. rewrite norm_first. rewrite Rabs_pos_eq by lra.
  unfold Img.normal, Img.mask, Img.div_scalar. cbn [map].
  samples_lra.
Qed.

(** Two iterations from the draw with tolerance [27/100]: the norms are
    [29/25], [29/20] and [841/400], and the loop runs to its end. *)
Lemma spec_rad_loop_two :
  spec_rad_loop Img.div_scalar Img.generic_l2_norm Img.operator (27 / 100) 2
    Img.start None = Ok (Some [841 / 400; 0; 0; 0]).
Proof.
  cbn [spec_rad_loop]. rewrite MtMX_operator. cbn [bind].
  fold (power_step Img.div_scalar Img.generic_l2_norm Img.normal Img.start).
  rewrite step_start.
  destruct (Rlt_dec _ _) as [H|H].
  { exfalso.
    rewrite norm_start, norm_first, (Rabs_pos_eq (29 / 20)) in H by lra.
    rewrite Rabs_pos_eq in H by lra. lra. }
  rewrite MtMX_operator. cbn [bind].
  fold (power_step Img.div_scalar Img.generic_l2_norm Img.normal
          [29 / 20; 0; 0; 0]).
  rewrite step_second.
  destruct (Rlt_dec _ _); reflexivity.
Qed.

(** C2 as stated fails: after the first step the change of the L2 norm
    relative to either iterate ([1/4] and [1/5]) is below the tolerance
    [27/100], yet the loop goes on (the absolute change is [29/100]) and
    [spec_rad] is [1.1 * 841/400], not [1.1] times the norm [29/20] of
    the first iterate. *)
Lemma get_spec_rad_relative_change_counterexample :
  let x0 := Img.start in
  let x1 := power_step Img.div_scalar Img.generic_l2_norm Img.normal x0 in
  norm_change Img.generic_l2_norm x0 x1 / Img.generic_l2_norm x0 < 27 / 100
  /\ norm_change Img.generic_l2_norm x0 x1 / Img.generic_l2_norm x1
     < 27 / 100
  /\ exists obj,
       Img.get_spec_rad Img.operator (27 / 100) 2 (11 / 10) = Ok obj
       /\ spec_rad obj = Some (9251 / 4000)
       /\ 9251 / 4000 <> 11 / 10 * Img.generic_l2_norm x1.
Proof.
  cbv zeta. rewrite step_start. unfold norm_change.
  rewrite norm_start, norm_first, (Rabs_pos_eq (29 / 20)) by lra.
  rewrite Rabs_pos_eq by lra.
  split; [lra|]. split; [lra|].
  unfold Img.get_spec_rad, get_spec_rad.
  change (get_initial_x Img.zeros_image Img.random_image Img.random_like
            Img.operator) with (Ok Img.start).
  cbn [bind]. rewrite spec_rad_loop_two.
  cbn [bind local attr set_spec_rad spec_rad].
  rewrite norm_first, Rabs_pos_eq by lra.
  eexists. split; [reflexivity|].
  split; [simpl; f_equal; lra | intros H; lra].
Qed.

Lemma get_spec_rad_power_iteration_witness :
  (1 <= 2)%nat
  /\ (forall x, MtMX Img.operator [x] = Ok (Img.normal x))
  /\ exists n : nat,
       (1 <= n <= 2)%nat
       /\ Img.get_spec_rad Img.operator (27 / 100) 2 (11 / 10)
          = Ok (set_inv_spec_rad
                  (set_spec_rad Img.operator
                     (11 / 10 * Img.generic_l2_norm
                        (power_iterate Img.div_scalar Img.generic_l2_norm
                           Img.normal n Img.start)))
                  (1 / (11 / 10 * Img.generic_l2_norm
                          (power_iterate Img.div_scalar
                             Img.generic_l2_norm Img.normal n
                             Img.start))))
       /\ (forall k, (1 <= k < n)%nat ->
             ~ norm_change Img.generic_l2_norm
                 (power_iterate Img.div_scalar Img.generic_l2_norm
                    Img.normal (k - 1) Img.start)
                 (power_iterate Img.div_scalar Img.generic_l2_norm
                    Img.normal k Img.start) < 27 / 100)
       /\ (n = 2%nat
           \/ norm_change Img.generic_l2_norm
                (power_iterate Img.div_scalar Img.generic_l2_norm
                   Img.normal (n - 1) Img.start)
                (power_iterate Img.div_scalar Img.generic_l2_norm
                   Img.normal n Img.start) < 27 / 100).
Proof.
  split; [lia|]. split; [intros x; reflexivity|].
  apply (get_spec_rad_power_iteration Img.div_scalar Img.generic_l2_norm
           Img.zeros_image Img.random_image Img.random_like
           Img.operator Img.normal Img.start (27 / 100) 2 (11 / 10)).
  - lia.
  - intros x. reflexivity.
  - reflexivity.
Defined.

Lemma Grad2DSynthesis_init_many_keys_witness :
  (1 < size Img.two_keys)%nat
  /\ Grad2DSynthesis_init Img.div_scalar Img.generic_l2_norm
       Img.zeros_image Img.random_image Img.random_like unit
       Img.instantiate [0; 0; 0; 0] (FtDict unit Img.two_keys)
       Img.identity_linear
     = Raise NameError.
Proof.
  assert (H : (1 < size Img.two_keys)%nat) by (vm_compute; lia).
  split; [exact H|].
  apply (Grad2DSynthesis_init_many_keys Img.div_scalar Img.generic_l2_norm
           Img.zeros_image Img.random_image Img.random_like unit
           Img.instantiate [0; 0; 0; 0] Img.two_keys Img.identity_linear H).
Defined.

Lemma GradBase_is_abstract_witness :
  let base :=
    {| cls := GradBase; y := Some Img.start; analysis := None;
       ft_cls := None; linear_cls := None; spec_rad := None;
       inv_spec_rad := None; grad := None |} in
  cls base = GradBase
  /\ Img.get_spec_rad base (1 / 10000) 20 (11 / 10)
     = Raise NotImplementedError
  /\ get_grad Img.sub base Img.start = Raise NotImplementedError
  /\ MtMX base [Img.start] = Raise NotImplementedError.
Proof.
  cbv zeta. split; [reflexivity|].
  apply (GradBase_is_abstract Img.sub Img.div_scalar Img.generic_l2_norm
           Img.zeros_image Img.random_image Img.random_like
           {| cls := GradBase; y := Some Img.start; analysis := None;
              ft_cls := None; linear_cls := None; spec_rad := None;
              inv_spec_rad := None; grad := None |}
           Img.start (1 / 10000) 20 (11 / 10)).
  reflexivity.
Defined.

Lemma get_spec_rad_zero_iterations_witness :
  ft_cls Img.operator = Some Img.masked
  /\ Img.get_spec_rad Img.operator (1 / 10000) 0 (11 / 10)
     = Raise UnboundLocalError.
Proof.
  split; [reflexivity|].
  apply (get_spec_rad_zero_iterations Img.div_scalar Img.generic_l2_norm
           Img.zeros_image Img.random_image Img.random_like
           Img.operator Img.masked (1 / 10000) (11 / 10)).
  - reflexivity.
  - left. reflexivity.
Defined.

Lemma get_grad_keeps_last_witness :
  let s1 := set_grad Img.operator (Img.mask (Img.sub (Img.mask Img.start)
                                                [0; 0; 0; 0])) in
  get_grad Img.sub Img.operator Img.start = Ok s1
  /\ get_grad Img.sub s1 [1; 0; 0; 0]
     = get_grad Img.sub Img.operator [1; 0; 0; 0].
Proof.
  cbv zeta. split; [reflexivity|].
  apply (get_grad_keeps_last Img.sub Img.operator _ Img.start [1; 0; 0; 0]).
  reflexivity.
Defined.

Lemma get_spec_rad_frame_witness :
  exists obj,
    Img.get_spec_rad Img.operator (27 / 100) 2 (11 / 10) = Ok obj
    /\ (exists s i, spec_rad obj = Some s /\ inv_spec_rad obj = Some i
          /\ (s <> 0 -> s * i = 1))
    /\ y obj = y Img.operator
    /\ ft_cls obj = ft_cls Img.operator
    /\ grad obj = grad Img.operator.
Proof.
  assert (H : exists obj,
            Img.get_spec_rad Img.operator (27 / 100) 2 (11 / 10) = Ok obj).
  { unfold Img.get_spec_rad, get_spec_rad.
    change (get_initial_x Img.zeros_image Img.random_image Img.random_like
              Img.operator) with (Ok Img.start).
    cbn [bind]. rewrite spec_rad_loop_two. eexists. reflexivity. }
  destruct H as [obj H]. exists obj. split; [exact H|].
  destruct (get_spec_rad_frame Img.div_scalar Img.generic_l2_norm
              Img.zeros_image Img.random_image Img.random_like
              Img.operator obj (27 / 100) 2 (11 / 10) H)
    as (Hs & _ & Hy & _ & Hf & _ & Hg).
  split; [exact Hs|]. split; [exact Hy|]. split; [exact Hf|exact Hg].
Defined.

Lemma Grad2DAnalysis_init_many_keys_witness :
  (1 < size Img.two_keys)%nat
  /\ Grad2DAnalysis_init Img.div_scalar Img.generic_l2_norm
       Img.zeros_image Img.random_image Img.random_like unit
       Img.instantiate [0; 0; 0; 0] (FtDict unit Img.two_keys) None
     = Raise ValueError.
Proof.
  assert (H : (1 < size Img.two_keys)%nat) by (vm_compute; lia).
  split; [exact H|].
  apply (Grad2DAnalysis_init_many_keys Img.div_scalar Img.generic_l2_norm
           Img.zeros_image Img.random_image Img.random_like unit
           Img.instantiate [0; 0; 0; 0] Img.two_keys None H).
Defined.

End GradientFacts.

(** ** Proximity operators *)

Module NuclearNormFacts.
Import NuclearNorm NpFacts.
Section Facts.
Variable svd : ndarray Cx -> ndarray Cx * list R * ndarray Cx.
Variable extract_patches_2d :
  ndarray Cx -> pyval -> Z -> result (list (ndarray Cx)).
Variable reconstruct_non_overlapped_patches_2d :
  list (ndarray Cx) -> list nat -> result (ndarray Cx).
Variable reconstruct_overlapped_patches_2d :
  list nat -> list (ndarray Cx) -> list Z -> result (ndarray Cx).

Local Abbreviation op := (NuclearNorm.op svd extract_patches_2d
  reconstruct_non_overlapped_patches_2d reconstruct_overlapped_patches_2d).

(** C4.  The single-patch branch of [NuclearNorm.op] reshapes the data
    to [prod(patch_shape) x channels], and [_prox_nuclear_norm] reshapes
    that patch again to [prod(patch_shape[:-1]) x channels].  For a
    channel-stacked input whose trailing shape equals the patch shape,
    with two or more spatial axes of which the last is not of length
    one, the two sizes differ and the call raises [ValueError]: no
    singular value is shrunk and no patch is returned. *)
Theorem nuclear_norm_single_patch_raises (self : t) (data : ndarray Cx)
  (extra_factor : R) (num_cores : nat) (c : nat) (lead : list nat) (w : nat)
  (threshold : R) :
  wf data ->
  shape data = c :: lead ++ [w] ->
  patch_shape self = of_shape (lead ++ [w]) ->
  times_float (weights self) extra_factor = Ok threshold ->
  lead <> [] -> (0 < c)%nat -> (0 < size_of lead)%nat -> w <> 1%nat ->
  op self data extra_factor num_cores = Raise ValueError.
Proof.
  intros Hwf Hs Hp Ht Hlead Hc Hsz Hw.
  unfold NuclearNorm.op. rewrite Ht. cbn [bind].
  rewrite Hs. cbn [tl]. rewrite Hp, shape_eqb_of_shape.
  destruct (moveaxis_0_last_wf data c (lead ++ [w]) Hwf Hs) as (items & -> & Hlen).
  cbn [bind]. rewrite prod_of_shape by (destruct lead; discriminate).
  cbn [bind]. unfold first_dim. rewrite Hs. cbn [bind].
  unfold reshape at 1. cbn [flat]. rewrite Hlen.
  replace (size_of [size_of (lead ++ [w]); c] =? size_of (lead ++ [w]) * c)%nat
    with true by (symmetry; apply Nat.eqb_eq; simpl; lia).
  cbn [bind]. unfold _prox_nuclear_norm. cbn [patch_shape].
  rewrite Hp, but_last_of_shape. cbn [bind].
  rewrite prod_of_shape by exact Hlead. cbn [bind].
  unfold last_dim. cbn [shape rev app]. cbn [bind].
  unfold reshape. cbn [flat]. rewrite Hlen.
  destruct (Nat.eqb_spec (size_of [size_of lead; c]) (size_of (lead ++ [w]) * c)) as [E|E].
  - exfalso. rewrite size_of_app in E. simpl in E. nia.
  - reflexivity.
Qed.

(** X8.  [NuclearNorm.get_cost] has the same single-patch branch: the
    data is reshaped to [prod(patch_shape) x channels] and
    [_nuclear_norm_cost] reshapes it to
    [prod(patch_shape[:-1]) x channels].  Under the conditions of C4 the
    call raises [ValueError] and returns no cost. *)
Theorem nuclear_norm_cost_single_patch_raises (self : t)
  (data : ndarray Cx) (extra_factor : R) (num_cores : nat) (c : nat)
  (lead : list nat) (w : nat) (threshold : R) :
  wf data ->
  shape data = c :: lead ++ [w] ->
  patch_shape self = of_shape (lead ++ [w]) ->
  times_float (weights self) extra_factor = Ok threshold ->
  lead <> [] -> (0 < c)%nat -> (0 < size_of lead)%nat -> w <> 1%nat ->
  NuclearNorm.get_cost svd extract_patches_2d self data extra_factor
    num_cores
  = Raise ValueError.
Proof.
  intros Hwf Hs Hp Ht Hlead Hc Hsz Hw.
  unfold NuclearNorm.get_cost. rewrite Ht. cbn [bind].
  rewrite Hs. cbn [tl]. rewrite Hp, shape_eqb_of_shape.
  destruct (moveaxis_0_last_wf data c (lead ++ [w]) Hwf Hs)
    as (items & -> & Hlen).
  cbn [bind]. rewrite prod_of_shape by (destruct lead; discriminate).
  cbn [bind]. unfold first_dim. rewrite Hs. cbn [bind].
  unfold reshape at 1. cbn [flat]. rewrite Hlen.
  replace (size_of [size_of (lead ++ [w]); c] =? size_of (lead ++ [w]) * c)%nat
    with true by (symmetry; apply Nat.eqb_eq; simpl; lia).
  cbn [bind]. unfold _nuclear_norm_cost. cbn [patch_shape].
  rewrite Hp, but_last_of_shape. cbn [bind].
  rewrite prod_of_shape by exact Hlead. cbn [bind].
  unfold last_dim. cbn [shape rev app]. cbn [bind].
  unfold reshape. cbn [flat]. rewrite Hlen.
  destruct (Nat.eqb_spec (size_of [size_of lead; c])
              (size_of (lead ++ [w]) * c)) as [E|E].
  - exfalso. rewrite size_of_app in E. simpl in E. nia.
  - reflexivity.
Qed.

(** X9.  Outside the single-patch branch [get_cost] returns no cost when
    [num_cores] is not one: the joblib call of the non-overlapping branch
    names [self._cost_nuclear_norm], which the class does not define, and
    both joblib branches add the list that joblib returns to the number
    [cost]. *)
Theorem get_cost_joblib_never_returns (self : t) (data : ndarray Cx)
  (extra_factor : R) (num_cores : nat) :
  shape_eqb (tl (shape data)) (patch_shape self) = false ->
  num_cores <> 1%nat ->
  is_ok (NuclearNorm.get_cost svd extract_patches_2d self data extra_factor
           num_cores) = false.
Proof.
  intros Hs Hn. unfold NuclearNorm.get_cost.
  destruct (times_float (weights self) extra_factor) as [th|e];
    [|reflexivity].
  cbn [bind]. rewrite Hs.
  apply Nat.eqb_neq in Hn. rewrite Hn.
  destruct (overlapping_factor self =? 1)%Z.
  - destruct (moveaxis_0_last data) as [moved|e]; [|reflexivity]. cbn [bind].
    destruct (extract_patches_2d _ _ _) as [[|p P]|e]; reflexivity.
  - destruct (moveaxis_0_last data) as [moved|e]; [|reflexivity]. cbn [bind].
    destruct (extract_patches_2d _ _ _) as [P|e]; [|reflexivity]. cbn [bind].
    destruct (map_result _ P) as [cs|e]; reflexivity.
Qed.

Lemma prox_nuclear_norm_shape (self : t) (patch images : ndarray Cx)
  (threshold : R) :
  _prox_nuclear_norm svd self patch threshold = Ok images ->
  shape images = shape patch.
Proof.
  unfold _prox_nuclear_norm. intros H.
  destruct (but_last (patch_shape self)) as [lead|e]; [|discriminate].
  cbn [bind] in H.
  destruct (prod_of lead) as [rows|e]; [|discriminate]. cbn [bind] in H.
  destruct (last_dim patch) as [cols|e]; [|discriminate]. cbn [bind] in H.
  destruct (reshape patch [rows; cols]) as [m|e]; [|discriminate].
  cbn [bind] in H.
  destruct (svd m) as [[u s] vh].
  destruct (scale_columns u (shrink threshold s)) as [us|e]; [|discriminate].
  cbn [bind] in H.
  destruct (dot us vh) as [d|e]; [|discriminate]. cbn [bind] in H.
  apply reshape_shape in H. exact H.
Qed.

(** X10.  When the single-patch branch of [NuclearNorm.op] returns, the
    result is a matrix of [channels x prod(patch_shape)] items: the
    spatial axes of the data are flattened and not restored. *)
Theorem single_patch_output_shape (self : t) (data out : ndarray Cx)
  (extra_factor : R) (num_cores : nat) (c : nat) (ps : list nat) :
  shape data = c :: ps ->
  patch_shape self = of_shape ps ->
  op self data extra_factor num_cores = Ok out ->
  shape out = [c; size_of ps].
Proof.
  intros Hs Hp H. unfold NuclearNorm.op in H.
  destruct (times_float (weights self) extra_factor) as [th|e];
    [|discriminate].
  cbn [bind] in H. rewrite Hs in H. cbn [tl] in H.
  rewrite Hp, shape_eqb_of_shape in H.
  destruct (moveaxis_0_last data) as [moved|e]; [|discriminate].
  cbn [bind] in H.
  destruct ps as [|p ps]; [discriminate|].
  rewrite prod_of_shape in H by discriminate. cbn [bind] in H.
  unfold first_dim in H. rewrite Hs in H. cbn [bind] in H.
  destruct (reshape moved [size_of (p :: ps); c]) as [patch|e] eqn:Hr;
    [|discriminate].
  cbn [bind] in H. apply reshape_shape in Hr.
  destruct (_prox_nuclear_norm svd self patch th) as [images|e] eqn:Hx;
    [|discriminate].
  cbn [bind] in H. apply prox_nuclear_norm_shape in Hx.
  unfold moveaxis_last_0 in H. rewrite Hx, Hr in H. cbn [rev app] in H.
  injection H as <-. reflexivity.
Qed.
End Facts.

(** X7.  The shrinkage that [_prox_nuclear_norm] applies to a singular
    value [x >= 0] is a soft threshold above the float32 epsilon: the
    value becomes [max(x - threshold, 0)]; a value below the epsilon is
    scaled by [max(1 - threshold / eps, 0)].  With a non-negative
    threshold no singular value grows or changes sign. *)
Theorem shrink_soft_threshold (threshold : R) (s : list R) (i : nat)
  (x : R) :
  s !! i = Some x -> 0 <= x ->
  exists v, shrink threshold s !! i = Some v
    /\ (eps32 <= x -> v = Rmax (x - threshold) 0)
    /\ (x <= eps32 -> v = x * Rmax (1 - threshold / eps32) 0)
    /\ (0 <= threshold -> 0 <= v <= x).
Proof.
  intros Hi Hx. pose proof eps32_pos as He.
  unfold shrink. rewrite IsotonicFacts.map_lookup, Hi. cbn [option_map].
  eexists. split; [reflexivity|].
  rewrite (Rabs_pos_eq x Hx).
  split; [|split].
  - intros H. rewrite (Rmax_right eps32 x H).
    set (q := threshold / x).
    assert (Hq : q * x = threshold) by (unfold q; field; lra).
    unfold Rmax.
    destruct (Rle_dec (1 - q) 0), (Rle_dec (x - threshold) 0); nra.
  - intros H. rewrite (Rmax_left eps32 x H). reflexivity.
  - intros Ht. set (d := Rmax eps32 x).
    assert (Hd : 0 < d) by (unfold d; pose proof (Rmax_l eps32 x); lra).
    assert (Hq : 0 <= threshold / d).
    { unfold Rdiv. apply Rmult_le_pos; [exact Ht|].
      apply Rlt_le, Rinv_0_lt_compat, Hd. }
    unfold Rmax. destruct (Rle_dec (1 - threshold / d) 0); nra.
Qed.

Lemma shrink_soft_threshold_witness :
  [3; 1] !! 0%nat = Some 3 /\ 0 <= 3
  /\ exists v, shrink 2 [3; 1] !! 0%nat = Some v
       /\ (eps32 <= 3 -> v = Rmax (3 - 2) 0).
Proof.
  split; [reflexivity|]. split; [lra|].
  destruct (shrink_soft_threshold 2 [3; 1] 0 3) as (v & Hv & Hbig & _).
  - reflexivity.
  - lra.
  - exists v. split; [exact Hv|exact Hbig].
Defined.

Lemma nuclear_norm_cost_single_patch_raises_witness :
  wf Samples.ones_2x2x2
  /\ shape Samples.ones_2x2x2 = (2 :: [2] ++ [2])%nat
  /\ NuclearNorm.get_cost Samples.svd_of_zeros Samples.no_patches
       Samples.nuclear_2x2 Samples.ones_2x2x2 1 1
     = Raise ValueError.
Proof.
  split; [reflexivity|]. split; [reflexivity|].
  apply (nuclear_norm_cost_single_patch_raises Samples.svd_of_zeros
           Samples.no_patches
           Samples.nuclear_2x2 Samples.ones_2x2x2 1 1 2%nat [2%nat] 2%nat
           (1 * 1)).
  - reflexivity.
  - reflexivity.
  - reflexivity.
  - reflexivity.
  - discriminate.
  - lia.
  - simpl. lia.
  - lia.
Defined.

Lemma get_cost_joblib_never_returns_witness :
  shape_eqb (tl (shape Samples.coefficients))
    (patch_shape Samples.nuclear_2x2) = false
  /\ is_ok (NuclearNorm.get_cost Samples.svd_of_zeros Samples.no_patches
              Samples.nuclear_2x2 Samples.coefficients 1 2) = false.
Proof.
  split; [reflexivity|].
  apply (get_cost_joblib_never_returns Samples.svd_of_zeros
           Samples.no_patches Samples.nuclear_2x2 Samples.coefficients 1 2).
  - reflexivity.
  - discriminate.
Defined.

Lemma single_patch_output_shape_witness :
  exists out,
    NuclearNorm.op Samples.svd_of_zeros Samples.no_patches
      Samples.blank_image Samples.blank_overlapped
      (NuclearNorm.__init__ (VFloat 1) (of_shape [2; 1]%nat) 1)
      Samples.band_a 1 1 = Ok out
    /\ shape Samples.band_a = [1; 2; 1]%nat
    /\ shape out = [1; 2]%nat.
Proof.
  assert (H : exists out,
            NuclearNorm.op Samples.svd_of_zeros Samples.no_patches
              Samples.blank_image Samples.blank_overlapped
              (NuclearNorm.__init__ (VFloat 1) (of_shape [2; 1]%nat) 1)
              Samples.band_a 1 1 = Ok out).
  { eexists. cbn. reflexivity. }
  destruct H as [out H]. exists out. split; [exact H|].
  split; [reflexivity|].
  apply (single_patch_output_shape Samples.svd_of_zeros Samples.no_patches
           Samples.blank_image Samples.blank_overlapped
           (NuclearNorm.__init__ (VFloat 1) (of_shape [2; 1]%nat) 1)
           Samples.band_a out 1 1 1%nat [2; 1]%nat eq_refl eq_refl H).
Defined.

Lemma nuclear_norm_single_patch_raises_witness :
  wf Samples.ones_2x2x2
  /\ shape Samples.ones_2x2x2 = (2 :: [2] ++ [2])%nat
  /\ NuclearNorm.op Samples.svd_of_zeros Samples.no_patches
       Samples.blank_image Samples.blank_overlapped
       Samples.nuclear_2x2 Samples.ones_2x2x2 1 1
     = Raise ValueError.
Proof.
  split; [reflexivity|]. split; [reflexivity|].
  apply (nuclear_norm_single_patch_raises Samples.svd_of_zeros
           Samples.no_patches Samples.blank_image Samples.blank_overlapped
           Samples.nuclear_2x2 Samples.ones_2x2x2 1 1 2%nat [2%nat] 2%nat
           (1 * 1)).
  - reflexivity.
  - reflexivity.
  - reflexivity.
  - reflexivity.
  - discriminate.
  - lia.
  - simpl. lia.
  - lia.
Defined.

End NuclearNormFacts.

Module GroupLassoFacts.
Import GroupLasso NpFacts.

Lemma cscale_one (z : Cx) : cscale z 1 = z.
Proof. destruct z as [x y]. unfold cscale. cbn [fst snd]. f_equal; lra. Qed.

Lemma length_norm_axis0 (c r : nat) (items : list Cx) :
  length (norm_axis0 c r items) = r.
Proof. unfold norm_axis0. rewrite length_map, length_seq. reflexivity. Qed.

Lemma broadcast2_ok {A B C} (f : A -> B -> C) da db a b s :
  broadcast_shapes (shape a) (shape b) = Ok s ->
  broadcast2 f da db a b
  = Ok {| shape := s;
          flat := map (fun i =>
                    f (nth (source_index (pad (shape a) (length s)) s i)
                           (flat a) da)
                      (nth (source_index (pad (shape b) (length s)) s i)
                           (flat b) db))
                    (seq 0 (size_of s)) |}.
Proof. intros H. unfold broadcast2. rewrite H. reflexivity. Qed.

Lemma broadcast2_inv {A B C} (f : A -> B -> C) da db a b out :
  broadcast2 f da db a b = Ok out ->
  broadcast_shapes (shape a) (shape b) = Ok (shape out)
  /\ flat out
     = map (fun i =>
         f (nth (source_index (pad (shape a) (length (shape out)))
                   (shape out) i) (flat a) da)
           (nth (source_index (pad (shape b) (length (shape out)))
                   (shape out) i) (flat b) db))
         (seq 0 (size_of (shape out))).
Proof.
  unfold broadcast2.
  destruct (broadcast_shapes (shape a) (shape b)) as [s|e]; [|discriminate].
  cbn [bind]. intros H. injection H as <-. split; reflexivity.
Qed.

Lemma nth_map_seq {B} (f : nat -> B) (n k : nat) (d : B) :
  (k < n)%nat -> nth k (map f (seq 0 n)) d = f k.
Proof.
  intros H. rewrite (nth_indep _ d (f 0%nat))
    by (rewrite length_map, length_seq; exact H).
  rewrite (map_nth f). rewrite seq_nth by exact H. reflexivity.
Qed.

Lemma lookup_map_seq {B} (f : nat -> B) (n i : nat) (v : B) :
  map f (seq 0 n) !! i = Some v -> (i < n)%nat /\ v = f i.
Proof.
  intros H.
  assert (Hi : (i < n)%nat).
  { apply lookup_lt_Some in H. rewrite length_map, length_seq in H. exact H. }
  split; [exact Hi|].
  apply (nth_lookup_Some _ _ v) in H. rewrite nth_map_seq in H by exact Hi.
  symmetry. exact H.
Qed.

Lemma nth_times (w : list R) (f : R) (k : nat) :
  nth k (map (fun x => x * f) w) 0 = nth k w 0 * f.
Proof.
  destruct (Nat.lt_ge_cases k (length w)) as [H|H].
  - rewrite (nth_indep _ 0 (0 * f)) by (rewrite length_map; exact H).
    apply (map_nth (fun x => x * f)).
  - rewrite !nth_overflow by (rewrite ?length_map; exact H). lra.
Qed.

(** The factor of a group: between zero and one for a non-negative
    threshold. *)
Lemma factor_bounds (t n : R) :
  0 <= t -> 0 <= Rmax 0 (1 - t / Rmax n eps32) <= 1.
Proof.
  intros Ht. pose proof eps32_pos as He.
  set (d := Rmax n eps32).
  assert (Hd : 0 < d) by (unfold d; pose proof (Rmax_r n eps32); lra).
  assert (Hq : 0 <= t / d).
  { unfold Rdiv. apply Rmult_le_pos; [exact Ht|].
    apply Rlt_le, Rinv_0_lt_compat, Hd. }
  unfold Rmax. destruct (Rle_dec 0 (1 - t / d)); lra.
Qed.

(** X11.  With non-negative weights and a non-negative [extra_factor],
    whatever the shapes of the weights and of the data: when
    [GroupLasso.op] returns, every item of the result is an item of the
    data times a factor between zero and one, so that it is no larger in
    magnitude than the item it comes from; when the result has the shape
    of the data, that item is the one at the same position. *)
Theorem op_shrinks_magnitudes (self : t) (data out : ndarray Cx)
  (extra_factor : R) :
  wf data ->
  0 <= extra_factor ->
  Forall (fun t => 0 <= t) (flat (weights self)) ->
  op self data extra_factor = Ok out ->
  wf out
  /\ forall i z', flat out !! i = Some z' ->
       exists z f, In z (flat data)
         /\ (shape out = shape data -> flat data !! i = Some z)
         /\ 0 <= f <= 1
         /\ z' = cscale z f /\ cabs z' <= cabs z.
Proof.
  intros Hwf Hef Hw H. unfold op in H.
  destruct (shape data) as [|c rest] eqn:Hs; [discriminate|].
  destruct (broadcast2 _ 0 0 _ (absolute data)) as [soft|e]; [|discriminate].
  cbn [bind] in H.
  destruct (broadcast2 _ 0 czero soft data) as [dropped|e]; [|discriminate].
  cbn [bind] in H.
  destruct (broadcast2 _ 0 0 _ _) as [factor|e] eqn:Hf; [|discriminate].
  cbn [bind] in H.
  split; [apply (broadcast2_wf _ _ _ _ _ _ H)|].
  apply broadcast2_inv in H. destruct H as [Hshape Hflat].
  apply broadcast2_inv in Hf. destruct Hf as [_ Hfactor].
  intros i z' Hz'. rewrite Hflat in Hz'.
  apply lookup_map_seq in Hz'. destruct Hz' as [Hi ->].
  destruct (broadcast_shapes_fit _ _ _ Hshape) as (_ & Hfit & _).
  pose proof (source_index_lt _ _ Hfit i Hi) as Hsrc.
  rewrite size_of_pad in Hsrc.
  set (k := source_index (pad (shape data) _) _ i) in *.
  set (f := nth _ (flat factor) 0).
  assert (Hfb : 0 <= f <= 1).
  { subst f. apply (nth_Forall (fun f => 0 <= f <= 1)); [|lra].
    rewrite Hfactor. apply List.Forall_forall. intros x Hx.
    apply in_map_iff in Hx. destruct Hx as (j & <- & _).
    apply factor_bounds. cbn [times flat]. rewrite nth_times.
    apply Rmult_le_pos; [|exact Hef].
    apply (nth_Forall (fun t => 0 <= t)); [exact Hw|lra]. }
  exists (nth k (flat data) czero), f.
  split; [apply nth_In; rewrite Hwf; exact Hsrc|].
  split.
  { intros E.
    assert (Hk : k = i).
    { subst k. rewrite E, Hs, pad_self.
      apply source_index_same. rewrite <- E. exact Hi. }
    rewrite Hk.
    destruct (lookup_lt_is_Some_2 (flat data) i) as [z0 Hz0];
      [rewrite Hwf, Hs, <- E; exact Hi|].
    rewrite Hz0. f_equal. symmetry. apply nth_lookup_Some. exact Hz0. }
  split; [exact Hfb|]. split; [reflexivity|].
  rewrite cabs_cscale, Rabs_pos_eq by lra.
  pose proof (sqrt_pos (fst (nth k (flat data) czero)
                        * fst (nth k (flat data) czero)
                        + snd (nth k (flat data) czero)
                          * snd (nth k (flat data) czero))) as Hc.
  fold (cabs (nth k (flat data) czero)) in Hc. nra.
Qed.

(** With one weight, or one weight per group, [op] returns an array of
    the shape of the data, every item of which is the item of the data
    times the factor of its group. *)
Lemma op_group_items (self : t) (data : ndarray Cx) (extra_factor : R)
  (c : nat) (rest : list nat) :
  wf data ->
  shape data = c :: rest ->
  shape (weights self) = [] \/ shape (weights self) = rest ->
  exists out, op self data extra_factor = Ok out
    /\ shape out = shape data
    /\ length (flat out) = length (flat data)
    /\ forall i z j, flat data !! i = Some z ->
         (i mod size_of rest)%nat = j ->
         (j < size_of rest)%nat ->
         flat out !! i
         = Some (cscale z
                   (Rmax 0
                      (1 - weight_of (weights self) j * extra_factor
                           / Rmax (nth j (norm_axis0 c (size_of rest)
                                            (flat data)) 0) eps32))).
Proof.
  intros Hwf Hs Hw.
  assert (Hb1 : broadcast_shapes (shape (weights self)) (c :: rest)
                = Ok (c :: rest)).
  { destruct Hw as [-> | ->];
      [apply broadcast_shapes_scalar_l|apply broadcast_shapes_tail_l]. }
  assert (Hb2 : broadcast_shapes (shape (weights self)) rest = Ok rest).
  { destruct Hw as [-> | ->];
      [apply broadcast_shapes_scalar_l|apply broadcast_shapes_same]. }
  unfold op. rewrite Hs.
  rewrite (broadcast2_ok _ _ _ _ (absolute data) (c :: rest))
    by (cbn [times absolute shape]; rewrite Hs; exact Hb1).
  cbn [bind].
  rewrite (broadcast2_ok _ _ _ _ data (c :: rest))
    by (cbn [shape]; rewrite Hs; apply broadcast_shapes_same).
  cbn [bind].
  rewrite (broadcast2_ok _ _ _ _ _ rest) by (cbn [times shape]; exact Hb2).
  cbn [bind].
  rewrite (broadcast2_ok _ _ _ data _ (c :: rest))
    by (cbn [shape]; rewrite Hs; apply broadcast_shapes_tail_r).
  eexists. split; [reflexivity|]. cbn [shape flat times].
  split; [reflexivity|].
  split; [rewrite length_map, length_seq, Hwf, Hs; reflexivity|].
  intros i z j Hz Hi Hj.
  assert (Hil : (i < size_of (c :: rest))%nat).
  { apply lookup_lt_Some in Hz. rewrite Hwf, Hs in Hz. exact Hz. }
  apply (nth_lookup_Some _ _ czero) in Hz.
  rewrite IsotonicFacts.map_lookup, lookup_seq_lt by exact Hil.
  cbn [option_map Nat.add]. f_equal.
  rewrite Hs, pad_self, source_index_same by exact Hil.
  rewrite Hz. f_equal.
  cbn [length]. rewrite pad_tail, source_index_tail by exact Hil.
  rewrite Hi, nth_map_seq by exact Hj.
  rewrite (pad_self rest), source_index_same by exact Hj.
  rewrite nth_times.
  replace (nth (source_index (pad (shape (weights self)) (length rest))
                  rest j) (flat (weights self)) 0)
    with (weight_of (weights self) j); [reflexivity|].
  unfold weight_of. destruct Hw as [E|E]; rewrite E.
  - rewrite pad_nil, source_index_ones. reflexivity.
  - rewrite pad_self, source_index_same by exact Hj.
    destruct rest; [|reflexivity].
    cbn in Hj. replace j with 0%nat by lia. reflexivity.
Qed.

(** X12.  [GroupLasso.op] thresholds whole groups.  With one weight, or
    one weight per group, it returns an array of the shape of the data;
    for group [j], of norm [n] along the first axis and threshold [t]
    (its weight times [extra_factor]), every item of the group is
    scaled by [max(0, 1 - t / max(n, eps))]: it becomes zero when [t] is
    at least [max(n, eps)], and is scaled by [1 - t / n] when [n] is at
    least the float32 epsilon and [t <= n]. *)
Theorem op_block_threshold (self : t) (data : ndarray Cx)
  (extra_factor : R) (c : nat) (rest : list nat) (j : nat) :
  wf data ->
  shape data = c :: rest ->
  shape (weights self) = [] \/ shape (weights self) = rest ->
  (j < size_of rest)%nat ->
  let n := nth j (norm_axis0 c (size_of rest) (flat data)) 0 in
  let t := weight_of (weights self) j * extra_factor in
  exists out, op self data extra_factor = Ok out
    /\ shape out = shape data
    /\ forall i z, flat data !! i = Some z ->
         (i mod size_of rest)%nat = j ->
         flat out !! i = Some (cscale z (Rmax 0 (1 - t / Rmax n eps32)))
         /\ (Rmax n eps32 <= t -> flat out !! i = Some czero)
         /\ (eps32 <= n -> t <= n ->
             flat out !! i = Some (cscale z (1 - t / n))).
Proof.
  intros Hwf Hs Hw Hj n t. pose proof eps32_pos as He.
  destruct (op_group_items self data extra_factor c rest Hwf Hs Hw)
    as (out & Hrun & Hshape & _ & Hitems).
  exists out. split; [exact Hrun|]. split; [exact Hshape|].
  intros i z Hz Hi.
  pose proof (Hitems i z j Hz Hi Hj) as Eitem. fold n t in Eitem.
  rewrite Eitem. split; [reflexivity|].
  set (d := Rmax n eps32).
  assert (Hd : 0 < d) by (unfold d; pose proof (Rmax_r n eps32); lra).
  split.
  - intros Hle. f_equal.
    assert (Hq : 1 <= t / d).
    { apply (Rmult_le_reg_r d); [exact Hd|].
      replace (t / d * d) with t by (field; lra). lra. }
    rewrite Rmax_left by lra.
    destruct z as [x y]. unfold cscale, czero. cbn [fst snd]. f_equal; lra.
  - intros Hn Htn. f_equal. f_equal.
    assert (Ed : d = n) by (unfold d; apply Rmax_left; exact Hn).
    rewrite Ed.
    assert (Hq : t / n <= 1).
    { apply (Rmult_le_reg_r n); [lra|].
      replace (t / n * n) with t by (field; lra). lra. }
    apply Rmax_right. lra.
Qed.

(** X13.  On data of one channel the norm along the first axis of an
    item is its magnitude: [GroupLasso.get_cost] is the sum of the
    magnitudes of the items. *)
Theorem get_cost_single_channel (self : t) (data : ndarray Cx)
  (rest : list nat) :
  wf data ->
  shape data = (1%nat :: rest) ->
  get_cost self data = Ok (rsum (map cabs (flat data))).
Proof.
  intros Hwf Hs. unfold get_cost. rewrite Hs. f_equal. f_equal.
  unfold wf in Hwf. rewrite Hs in Hwf. cbn [size_of fold_right] in Hwf.
  fold (size_of rest) in Hwf. rewrite Nat.mul_1_l in Hwf.
  rewrite <- Hwf. unfold norm_axis0.
  rewrite <- (map_nth_seq cabs (flat data) czero).
  apply map_ext. intros j. cbn [seq map rsum fold_right].
  change (0 * length (flat data) + j)%nat with j.
  rewrite Rplus_0_r. apply sqrt_square.
  apply sqrt_pos.
Qed.

(** Per-item weights on a vector: one group, every item scaled by its
    own factor. *)
Lemma op_shrinks_magnitudes_witness :
  wf Samples.vector_3
  /\ exists out,
       GroupLasso.op (GroupLasso.__init__ Samples.weights_3)
         Samples.vector_3 1 = Ok out
       /\ wf out.
Proof.
  assert (Hwf : wf Samples.vector_3) by reflexivity.
  split; [exact Hwf|].
  assert (H : exists out,
            GroupLasso.op (GroupLasso.__init__ Samples.weights_3)
              Samples.vector_3 1 = Ok out).
  { eexists. reflexivity. }
  destruct H as [out H]. exists out. split; [exact H|].
  apply (op_shrinks_magnitudes (GroupLasso.__init__ Samples.weights_3)
           Samples.vector_3 out 1 Hwf).
  - lra.
  - repeat constructor; cbn; lra.
  - exact H.
Defined.

Lemma op_block_threshold_witness :
  wf Samples.ones_2x2x2
  /\ (0 < size_of [2; 2]%nat)%nat
  /\ exists out,
       GroupLasso.op (GroupLasso.__init__ (scalar 1)) Samples.ones_2x2x2 2
       = Ok out
       /\ shape out = shape Samples.ones_2x2x2.
Proof.
  assert (Hwf : wf Samples.ones_2x2x2) by reflexivity.
  assert (H : (0 < size_of [2; 2]%nat)%nat) by (simpl; lia).
  split; [exact Hwf|]. split; [exact H|].
  destruct (op_block_threshold (GroupLasso.__init__ (scalar 1))
              Samples.ones_2x2x2 2 2 [2; 2]%nat 0
              Hwf eq_refl (or_introl eq_refl) H)
    as (out & Hrun & Hshape & _).
  exists out. split; [exact Hrun|exact Hshape].
Defined.

(** A weight vector of four items does not broadcast against data of
    shape [(2, 2, 2)]. *)
Lemma op_refuses_weights :
  GroupLasso.op (GroupLasso.__init__ Samples.weights_4) Samples.ones_2x2x2 1
  = Raise ValueError.
Proof. reflexivity. Qed.

Lemma get_cost_single_channel_witness :
  wf Samples.coefficients
  /\ GroupLasso.get_cost (GroupLasso.__init__ (scalar 1))
       Samples.coefficients
     = Ok (rsum (map cabs (flat Samples.coefficients))).
Proof.
  split; [reflexivity|].
  apply (get_cost_single_channel (GroupLasso.__init__ (scalar 1))
           Samples.coefficients [5%nat]); reflexivity.
Defined.

End GroupLassoFacts.

Module SparseGroupLassoFacts.
Import SparseGroupLasso.

(** X14.  [SparseGroupLasso.get_cost] returns no cost: after the cost of
    the soft-threshold part it reads [self.prox_op_l2.cost], and a
    [GroupLasso] has [get_cost] but no [cost].  When the first cost is
    computed the call ends with [AttributeError]. *)
Theorem sparse_group_lasso_cost_raises
  (SparseThreshold_cost : weight -> ndarray Cx -> result R)
  (self : t) (data : ndarray Cx) :
  is_ok (get_cost SparseThreshold_cost self data) = false
  /\ (is_ok (SparseThreshold_cost (prox_op_l1 self) data) = true ->
      get_cost SparseThreshold_cost self data = Raise AttributeError).
Proof.
  unfold get_cost.
  destruct (SparseThreshold_cost (prox_op_l1 self) data) as [c1|e];
    split; try reflexivity; discriminate.
Qed.

End SparseGroupLassoFacts.



Module MultiLevelFacts.
Import MultiLevelNuclearNorm.
Section Facts.
Context {coeff manifest : Type}.
Local Abbreviation init := (@__init__ coeff manifest).

(** Lists of different lengths are refused with [ValueError]. *)
Lemma init_length_mismatch (ws ps : list pyval) lin overlap :
  length ws <> length ps ->
  init (VList ws) (VList ps) lin overlap = Raise ValueError.
Proof.
  intros H. unfold __init__. simpl.
  destruct (Nat.eqb_spec (length ws) (length ps)); [contradiction|reflexivity].
Qed.

(** Non-empty lists of equal length are taken as they are; the
    [NuclearNorm] part of the instance holds the first pair. *)
Lemma init_equal_lists (w : pyval) (ws : list pyval) (p : pyval)
  (ps : list pyval) lin overlap :
  length ws = length ps ->
  init (VList (w :: ws)) (VList (p :: ps)) lin overlap
  = Ok {| base := NuclearNorm.__init__ w p overlap;
          _weights := w :: ws; _patch_shape := p :: ps; linear_op := lin |}.
Proof.
  intros H. unfold __init__. simpl. rewrite H, Nat.eqb_refl. reflexivity.
Qed.

(** A single patch shape is repeated once per weight. *)
Lemma init_weight_list_broadcasts_shape (w : pyval) (ws : list pyval)
  (p0 : pyval) (p : list pyval) lin overlap :
  init (VList (w :: ws)) (VTuple (p0 :: p)) lin overlap
  = Ok {| base := NuclearNorm.__init__ w p0 overlap;
          _weights := w :: ws;
          _patch_shape := repeat (VTuple (p0 :: p)) (S (length ws));
          linear_op := lin |}.
Proof. reflexivity. Qed.

(** C8.  A single float weight is not broadcast: after the per-scale
    lists are built the constructor evaluates [weights[0]], which a float
    does not support.  With a list of patch shapes the constructor raises
    [TypeError]; with any patch shape and any linear operator it never
    returns an instance. *)
Theorem init_scalar_weight_raises (r : R) lin overlap :
  (forall ps : list pyval,
     init (VFloat r) (VList ps) lin overlap = Raise TypeError)
  /\ (forall p : pyval, is_ok (init (VFloat r) p lin overlap) = false).
Proof.
  split.
  - intros ps. reflexivity.
  - intros p. unfold __init__. simpl.
    destruct (is_list p) eqn:Hp.
    + destruct (iter p); reflexivity.
    + destruct lin; reflexivity.
Qed.

(** X15.  What the constructor refuses: two lists of different lengths
    ([ValueError]); two empty lists, which have no first item
    ([IndexError]); and, when neither argument is a list, a missing
    linear operator, whose number of bands the constructor reads
    ([AttributeError]). *)
Theorem init_rejects (ws ps : list pyval) (w p : pyval)
  (lin : option LinearOp) (overlap : Z) :
  (length ws <> length ps ->
   init (VList ws) (VList ps) lin overlap = Raise ValueError)
  /\ init (VList []) (VList []) lin overlap = Raise IndexError
  /\ (is_list w = false -> is_list p = false ->
      init w p None overlap = Raise AttributeError).
Proof.
  split; [apply init_length_mismatch|]. split; [reflexivity|].
  intros Hw Hp. unfold __init__. rewrite Hw, Hp. reflexivity.
Qed.
End Facts.

Section Frame.
Context {coeff manifest : Type}.
Variable svd : ndarray Cx -> ndarray Cx * list R * ndarray Cx.
Variable extract_patches_2d :
  ndarray Cx -> pyval -> Z -> result (list (ndarray Cx)).
Variable reconstruct_non_overlapped_patches_2d :
  list (ndarray Cx) -> list nat -> result (ndarray Cx).
Variable reconstruct_overlapped_patches_2d :
  list nat -> list (ndarray Cx) -> list Z -> result (ndarray Cx).

Local Abbreviation op_loop := (@MultiLevelNuclearNorm.op_loop coeff manifest svd extract_patches_2d
  reconstruct_non_overlapped_patches_2d reconstruct_overlapped_patches_2d).
Local Abbreviation cost_loop := (@MultiLevelNuclearNorm.cost_loop coeff manifest svd extract_patches_2d).
Local Abbreviation op := (@MultiLevelNuclearNorm.op coeff manifest svd extract_patches_2d
  reconstruct_non_overlapped_patches_2d reconstruct_overlapped_patches_2d).
Local Abbreviation get_cost := (@MultiLevelNuclearNorm.get_cost coeff manifest svd extract_patches_2d).
Local Abbreviation band_op := (@MultiLevelNuclearNorm.band_op coeff manifest svd extract_patches_2d
  reconstruct_non_overlapped_patches_2d reconstruct_overlapped_patches_2d).
Local Abbreviation band_cost := (@MultiLevelNuclearNorm.band_cost coeff manifest svd extract_patches_2d).
Local Abbreviation base_op := (NuclearNorm.op svd extract_patches_2d
  reconstruct_non_overlapped_patches_2d reconstruct_overlapped_patches_2d).
Local Abbreviation base_cost := (NuclearNorm.get_cost svd extract_patches_2d).

Lemma configure_configure (self : @t coeff manifest) w1 p1 w p :
  configure (configure self w1 p1) w p = configure self w p.
Proof. reflexivity. Qed.

Lemma kept_refl (self : @t coeff manifest) : kept self self.
Proof. unfold kept. intuition. Qed.

Lemma kept_configure (self : @t coeff manifest) w p :
  kept self (configure self w p).
Proof. unfold kept. cbn. intuition. Qed.

Lemma map_result_ext {A B} (f g : A -> result B) (l : list A) :
  (forall x, f x = g x) -> map_result f l = map_result g l.
Proof.
  intros H. induction l as [|x l IH]; [reflexivity|].
  cbn [map_result]. rewrite H, IH. reflexivity.
Qed.

(** The instance that a loop leaves: the instance it was given, with
    the weights and the patch shape of the band it stopped at. *)
Lemma op_loop_state ef nc bands : forall (self : @t coeff manifest) acc,
  bands <> [] ->
  exists k c w p,
    stops_at (fun b c => is_ok (base_op b c ef nc)) self bands k
    /\ bands !! k = Some (c, w, p)
    /\ fst (op_loop self ef nc bands acc) = configure self w p.
Proof.
  induction bands as [|[[c w] p] bands IH]; intros self acc Hne;
    [contradiction|].
  cbn [MultiLevelNuclearNorm.op_loop].
  destruct (NuclearNorm.op _ _ _ _ _ _ _ _) as [r|e] eqn:Hcall.
  - destruct bands as [|b bands'].
    + exists 0%nat, c, w, p. split; [|split; reflexivity].
      unfold stops_at. cbn [length]. split; [lia|]. split; [|lia].
      intros j ? ? ? Hj. lia.
    + destruct (IH (configure self w p) (acc ++ [r]) ltac:(discriminate))
        as (k & c' & w' & p' & (Hk & Hpre & Hstop) & Hband & Hfst).
      exists (S k), c', w', p'. split; [|split; [exact Hband|exact Hfst]].
      unfold stops_at. split; [cbn [length] in *; lia|]. split.
      * intros [|j] c0 w0 p0 Hj Hb.
        -- cbn in Hb. injection Hb as <- <- <-. rewrite Hcall. reflexivity.
        -- apply (Hpre j c0 w0 p0); [lia|exact Hb].
      * intros Hlt c0 w0 p0 Hb.
        apply (Hstop ltac:(cbn [length] in *; lia) c0 w0 p0 Hb).
  - exists 0%nat, c, w, p. split; [|split; reflexivity].
    unfold stops_at. split; [cbn [length]; lia|]. split.
    + intros j ? ? ? Hj. lia.
    + intros _ c0 w0 p0 Hb. cbn in Hb. injection Hb as <- <- <-.
      rewrite Hcall. reflexivity.
Qed.

Lemma cost_loop_state ef nc bands : forall (self : @t coeff manifest) acc,
  bands <> [] ->
  exists k c w p,
    stops_at (fun b c => is_ok (base_cost b c ef nc)) self bands k
    /\ bands !! k = Some (c, w, p)
    /\ fst (cost_loop self ef nc bands acc) = configure self w p.
Proof.
  induction bands as [|[[c w] p] bands IH]; intros self acc Hne;
    [contradiction|].
  cbn [MultiLevelNuclearNorm.cost_loop].
  destruct (NuclearNorm.get_cost _ _ _ _ _ _) as [r|e] eqn:Hcall.
  - destruct bands as [|b bands'].
    + exists 0%nat, c, w, p. split; [|split; reflexivity].
      unfold stops_at. cbn [length]. split; [lia|]. split; [|lia].
      intros j ? ? ? Hj. lia.
    + destruct (IH (configure self w p) (acc + r) ltac:(discriminate))
        as (k & c' & w' & p' & (Hk & Hpre & Hstop) & Hband & Hfst).
      exists (S k), c', w', p'. split; [|split; [exact Hband|exact Hfst]].
      unfold stops_at. split; [cbn [length] in *; lia|]. split.
      * intros [|j] c0 w0 p0 Hj Hb.
        -- cbn in Hb. injection Hb as <- <- <-. rewrite Hcall. reflexivity.
        -- apply (Hpre j c0 w0 p0); [lia|exact Hb].
      * intros Hlt c0 w0 p0 Hb.
        apply (Hstop ltac:(cbn [length] in *; lia) c0 w0 p0 Hb).
  - exists 0%nat, c, w, p. split; [|split; reflexivity].
    unfold stops_at. split; [cbn [length]; lia|]. split.
    + intros j ? ? ? Hj. lia.
    + intros _ c0 w0 p0 Hb. cbn in Hb. injection Hb as <- <- <-.
      rewrite Hcall. reflexivity.
Qed.

(** What a loop returns: every band goes through the base class under
    its own weights and patch shape. *)
Lemma op_loop_result ef nc bands : forall (self : @t coeff manifest) acc,
  snd (op_loop self ef nc bands acc)
  = (bs <- map_result (band_op self ef nc) bands ;; Ok (acc ++ bs)).
Proof.
  induction bands as [|[[c w] p] bands IH]; intros self acc.
  - cbn. rewrite app_nil_r. reflexivity.
  - cbn [MultiLevelNuclearNorm.op_loop map_result MultiLevelNuclearNorm.band_op].
    destruct (NuclearNorm.op _ _ _ _ _ _ _ _) as [r|e]; [|reflexivity].
    rewrite IH. cbn [bind].
    rewrite (map_result_ext (band_op (configure self w p) ef nc)
               (band_op self ef nc))
      by (intros [[c0 w0] p0]; reflexivity).
    destruct (map_result _ bands) as [bs|e]; [|reflexivity].
    cbn [bind]. rewrite <- app_assoc. reflexivity.
Qed.

Lemma cost_loop_result ef nc bands : forall (self : @t coeff manifest) cost,
  snd (cost_loop self ef nc bands cost)
  = (vs <- map_result (band_cost self ef nc) bands ;;
     Ok (fold_left Rplus vs cost)).
Proof.
  induction bands as [|[[c w] p] bands IH]; intros self cost.
  - reflexivity.
  - cbn [MultiLevelNuclearNorm.cost_loop map_result MultiLevelNuclearNorm.band_cost].
    destruct (NuclearNorm.get_cost _ _ _ _ _ _) as [v|e]; [|reflexivity].
    rewrite IH. cbn [bind].
    rewrite (map_result_ext (band_cost (configure self w p) ef nc)
               (band_cost self ef nc))
      by (intros [[c0 w0] p0]; reflexivity).
    destruct (map_result _ bands) as [vs|e]; reflexivity.
Qed.

Lemma loop_frame (ok : NuclearNorm.t -> ndarray Cx -> bool)
  (self self' : @t coeff manifest) bands :
  (bands = [] -> self' = self) ->
  (bands <> [] ->
   exists k c w p, stops_at ok self bands k /\ bands !! k = Some (c, w, p)
     /\ self' = configure self w p) ->
  kept self self' /\ last_assigned ok self bands self'.
Proof.
  intros Hnil Hcons. destruct bands as [|b bands].
  - rewrite (Hnil eq_refl). split; [apply kept_refl|reflexivity].
  - destruct (Hcons ltac:(discriminate)) as (k & c & w & p & Hk & Hb & ->).
    split; [apply kept_configure|].
    cbn [last_assigned]. exists k, c, w, p.
    split; [exact Hk|]. split; [exact Hb|]. split; reflexivity.
Qed.


(** X16.  [linear_op] defaults to [None], and the constructor accepts
    that with two lists.  On such an instance every call of [op] and of
    [get_cost] ends with [AttributeError] and leaves the instance as it
    was. *)
Theorem default_linear_op_raises (w : pyval) (ws : list pyval) (p : pyval)
  (ps : list pyval) (overlap : Z) :
  length ws = length ps ->
  exists self,
    @__init__ coeff manifest (VList (w :: ws)) (VList (p :: ps)) None
      overlap = Ok self
    /\ forall wavelet_coeffs extra_factor num_cores,
         op self wavelet_coeffs extra_factor num_cores
         = (self, Raise AttributeError)
         /\ get_cost self wavelet_coeffs extra_factor num_cores
            = (self, Raise AttributeError).
Proof.
  intros H. eexists. split; [apply init_equal_lists; exact H|].
  intros wc ef nc. split; reflexivity.
Qed.

Lemma op_loop_length ef nc bands :
  forall (self self' : @t coeff manifest) acc out,
    op_loop self ef nc bands acc = (self', Ok out) ->
    length out = (length acc + length bands)%nat.
Proof.
  induction bands as [|[[c w] p] bands IH]; intros self self' acc out H.
  - cbn in H. injection H as _ <-. cbn. lia.
  - cbn [MultiLevelNuclearNorm.op_loop] in H.
    destruct (NuclearNorm.op _ _ _ _ _ _ _ _) as [r|e]; [|discriminate].
    apply IH in H. rewrite H, length_app. cbn. lia.
Qed.

Lemma length_zip3 {A} (cs : list A) (ws ps : list pyval) :
  length (zip3 cs ws ps)
  = Nat.min (length cs) (Nat.min (length ws) (length ps)).
Proof. unfold zip3. rewrite length_map, !length_combine. reflexivity. Qed.

(** X17.  [op] zips the bands of the linear operator with the per-scale
    lists: when it returns, [reshape_channel_coeff] was given as many
    thresholded bands as the shortest of the three sequences has items,
    and the bands beyond that number were dropped without notice. *)
Theorem op_truncates_to_scales (self self' : @t coeff manifest)
  (lo : LinearOp) (wavelet_coeffs : ndarray Cx) (extra_factor : R)
  (num_cores : nat) (rslt : ndarray Cx) :
  linear_op self = Some lo ->
  op self wavelet_coeffs extra_factor num_cores = (self', Ok rslt) ->
  exists prox_coeffs : list (ndarray Cx),
    length prox_coeffs
    = Nat.min (length (reshape_coeff_channel lo wavelet_coeffs))
        (Nat.min (length (_weights self)) (length (_patch_shape self)))
    /\ asarray (map (fun c => fst (flatten lo c))
                  (reshape_channel_coeff lo prox_coeffs))
       = Ok rslt.
Proof.
  intros Hlo H. unfold MultiLevelNuclearNorm.op in H. rewrite Hlo in H.
  destruct (MultiLevelNuclearNorm.op_loop _ _ _ _ _ _ _ _ _)
    as [s r] eqn:Hl.
  destruct r as [prox|e]; [|discriminate].
  cbn [bind] in H. injection H as _ H.
  exists prox. split; [|exact H].
  apply op_loop_length in Hl. rewrite Hl, length_zip3. reflexivity.
Qed.

End Frame.



Lemma default_linear_op_raises_witness :
  exists self,
    @MultiLevelNuclearNorm.__init__ (ndarray Cx) unit
      (VList [VFloat 1; VFloat 2])
      (VList [of_shape [2; 1]%nat; of_shape [3; 1]%nat]) None 1
    = Ok self
    /\ MultiLevelNuclearNorm.op Samples.svd_of_zeros Samples.no_patches
         Samples.blank_image Samples.blank_overlapped
         self Samples.coefficients 1 1
       = (self, Raise AttributeError).
Proof.
  destruct (@default_linear_op_raises (ndarray Cx) unit
              Samples.svd_of_zeros Samples.no_patches Samples.blank_image
              Samples.blank_overlapped
              (VFloat 1) [VFloat 2] (of_shape [2; 1]%nat)
              [of_shape [3; 1]%nat] 1 eq_refl)
    as (self & Hinit & Hop).
  exists self. split; [exact Hinit|].
  apply (proj1 (Hop Samples.coefficients 1 1%nat)).
Defined.

Lemma op_truncates_to_scales_witness :
  @__init__ (ndarray Cx) unit (VList [VFloat 1])
    (VList [of_shape [2; 1]%nat]) (Some Samples.two_bands) 1
  = Ok Samples.one_scale
  /\ exists self' rslt,
       MultiLevelNuclearNorm.op Samples.svd_of_zeros Samples.no_patches
         Samples.blank_image Samples.blank_overlapped
         Samples.one_scale Samples.coefficients 1 1
       = (self', Ok rslt)
       /\ length (reshape_coeff_channel Samples.two_bands
                    Samples.coefficients) = 2%nat
       /\ exists prox_coeffs : list (ndarray Cx),
            length prox_coeffs = 1%nat.
Proof.
  split; [reflexivity|].
  assert (H : exists s r,
            MultiLevelNuclearNorm.op Samples.svd_of_zeros Samples.no_patches
              Samples.blank_image Samples.blank_overlapped
              Samples.one_scale Samples.coefficients 1 1 = (s, Ok r)).
  { eexists. eexists. unfold MultiLevelNuclearNorm.op, Samples.one_scale.
    cbn [MultiLevelNuclearNorm.linear_op]. cbn. reflexivity. }
  destruct H as (s & r & H). exists s, r. split; [exact H|].
  split; [reflexivity|].
  destruct (op_truncates_to_scales Samples.svd_of_zeros Samples.no_patches
              Samples.blank_image Samples.blank_overlapped
              Samples.one_scale s Samples.two_bands Samples.coefficients 1
              1%nat r eq_refl H)
    as (prox & Hlen & _).
  exists prox. exact Hlen.
Defined.

End MultiLevelFacts.

Module OWLFacts.
Import OWL SortFacts IsotonicFacts NpFacts.
Section Facts.
Variable _oscar_weights : weight -> R -> pyval -> result (list R).

(** Without [beta] the constructor stores [alpha] and the mode. *)
Lemma init_without_beta alpha ds m n :
  __init__ _oscar_weights alpha None ds m n = Ok {| weights := Weights alpha; mode := m; band_shape := None |}.
Proof. reflexivity. Qed.

(** No branch of [op] binds [output] for an unknown mode. *)
Lemma op_unknown_mode self data ef :
  ~ known_mode (mode self) -> op self data ef = Raise UnboundLocalError.
Proof.
  intros H. unfold op.
  destruct (is_literal (mode self) "all") eqn:E1;
    [exfalso; apply H; left; exact E1|].
  destruct (is_literal (mode self) "band_based") eqn:E2;
    [exfalso; apply H; right; left; exact E2|].
  destruct (is_literal (mode self) "coeff_based") eqn:E3;
    [exfalso; apply H; right; right; exact E3|].
  reflexivity.
Qed.

(** C10.  The constructor inspects [mode] only on the OSCAR path, and
    there with [is].  For a mode that is none of the three constants (a
    text outside the three names, or one of the names in a string built
    at run time): construction with [beta] given raises and returns no
    instance, but construction with [beta=None] returns an instance
    that holds the mode, and the error surfaces at the first call of
    [op], every call of which raises [UnboundLocalError]. *)
Theorem init_checks_mode_only_with_beta alpha ds m n :
  ~ known_mode m ->
  (forall b, is_ok (__init__ _oscar_weights alpha (Some b) ds m n) = false)
  /\ __init__ _oscar_weights alpha None ds m n
     = Ok {| weights := Weights alpha; mode := m; band_shape := None |}
  /\ (forall data extra_factor,
        op {| weights := Weights alpha; mode := m; band_shape := None |}
          data extra_factor
        = Raise UnboundLocalError).
Proof.
  intros H. split; [|split].
  - intros b. unfold __init__.
    destruct (is_literal m "all") eqn:E1;
      [exfalso; apply H; left; exact E1|].
    destruct (is_literal m "band_based") eqn:E2;
      [exfalso; apply H; right; left; exact E2|].
    destruct (is_literal m "coeff_based") eqn:E3;
      [exfalso; apply H; right; right; exact E3|].
    destruct ds; reflexivity.
  - reflexivity.
  - intros data extra_factor. apply op_unknown_mode. exact H.
Qed.

(** X18.  The OSCAR configuration is all or nothing.  With [beta] given
    and no [data_shape] the constructor raises a [str], which the
    interpreter turns into [TypeError], whatever the mode.  Without
    [beta] the constant ['band_based'] is accepted as mode, but
    [band_shape] is assigned on the OSCAR path only: on the instance
    every call of [op] on an array of one axis or more ends with
    [AttributeError]. *)
Theorem oscar_configuration_incomplete (alpha : weight) (b : R)
  (ds : pyval) (m : pystr) (n : Z) :
  __init__ _oscar_weights alpha (Some b) VNone m n = Raise TypeError
  /\ exists self,
       __init__ _oscar_weights alpha None ds (literal "band_based") n
       = Ok self
       /\ forall data extra_factor,
            shape data <> [] ->
            op self data extra_factor = Raise AttributeError.
Proof.
  split; [reflexivity|].
  eexists. split; [reflexivity|].
  intros data ef Hs. unfold op. cbn [mode band_shape].
  change (is_literal (literal "band_based") "all") with false.
  change (is_literal (literal "band_based") "band_based") with true.
  cbv iota.
  unfold first_dim. destruct (shape data); [contradiction|]. reflexivity.
Qed.

End Facts.

Lemma unknown_mode_sample : ~ known_mode (literal "unknown").
Proof. intros [H|[H|H]]; discriminate. Qed.

(** A string built at run time is none of the three constants, whatever
    its text. *)
Lemma built_mode_unknown (s : string) :
  ~ known_mode {| chars := s; interned := false |}.
Proof. intros [H|[H|H]]; discriminate. Qed.

Lemma init_checks_mode_only_with_beta_witness :
  ~ known_mode (literal "unknown")
  /\ (forall b,
        is_ok (__init__ Samples.no_oscar_weights (WScalar 1) (Some b)
                 (VInt 16) (literal "unknown") 1) = false)
  /\ __init__ Samples.no_oscar_weights (WScalar 1) None (VInt 16)
       (literal "unknown") 1
     = Ok {| weights := Weights (WScalar 1); mode := literal "unknown";
             band_shape := None |}
  /\ (forall data extra_factor,
        op {| weights := Weights (WScalar 1); mode := literal "unknown";
              band_shape := None |} data extra_factor
        = Raise UnboundLocalError).
Proof.
  split; [exact unknown_mode_sample|].
  apply (init_checks_mode_only_with_beta Samples.no_oscar_weights
           (WScalar 1) (VInt 16) (literal "unknown") 1 unknown_mode_sample).
Defined.

Lemma subtract_fits (a : list R) (thr : weight) :
  fits thr (length a) ->
  exists sh, subtract a thr = Ok sh
    /\ length sh = length a
    /\ forall t u, a !! t = Some u -> sh !! t = Some (u - threshold_at thr t).
Proof.
  destruct thr as [r|ts]; cbn [fits subtract threshold_at]; intros Hfit.
  - eexists. split; [reflexivity|]. split; [apply length_map|].
    intros t u Ht. rewrite map_lookup, Ht. reflexivity.
  - rewrite Hfit, Nat.eqb_refl. eexists. split; [reflexivity|].
    split; [rewrite length_map, length_combine; lia|].
    intros t u Ht. rewrite map_lookup.
    assert (Hlt : (t < length ts)%nat) by (apply lookup_lt_Some in Ht; lia).
    destruct (lookup_lt_is_Some_2 ts t Hlt) as [w Hw].
    assert (Hc : combine a ts !! t = Some (u, w)).
    { clear Hfit Hlt. revert t ts Ht Hw.
      induction a as [|x a IH]; intros [|t] [|y ts] Ht Hw; try discriminate.
      - simpl in *. congruence.
      - simpl in *. apply IH; assumption. }
    rewrite Hc. cbn [option_map fst snd]. f_equal. f_equal.
    symmetry. apply nth_lookup_Some with (d := 0) in Hw. exact Hw.
Qed.

Lemma combine_lookup {A B} (a : list A) (b : list B) (i : nat) (x : A) (y : B) :
  a !! i = Some x -> b !! i = Some y -> combine a b !! i = Some (x, y).
Proof.
  revert i b. induction a as [|x0 a IH]; intros [|i] [|y0 b] Ha Hb;
    try discriminate; simpl in *.
  - congruence.
  - apply IH; assumption.
Qed.

Lemma perm_seq_facts (ix : list nat) (n : nat) :
  Permutation ix (seq 0 n) ->
  length ix = n /\ List.NoDup ix /\ Forall (fun i => (i < n)%nat) ix
  /\ forall i, (i < n)%nat -> exists j, ix !! j = Some i.
Proof.
  intros Hp. split; [|split; [|split]].
  - rewrite (Permutation_length Hp). apply length_seq.
  - eapply Permutation_NoDup; [symmetry; exact Hp|]. apply seq_NoDup.
  - eapply Permutation_Forall; [symmetry; exact Hp|].
    apply List.Forall_forall. intros i Hi. apply in_seq in Hi. lia.
  - intros i Hi. assert (Hin : In i ix).
    { eapply Permutation_in; [symmetry; exact Hp|]. apply in_seq. lia. }
    apply list_elem_of_In, list_elem_of_lookup_1 in Hin. exact Hin.
Qed.

Lemma cabs_nonneg (z : Cx) : 0 <= cabs z.
Proof. apply sqrt_pos. Qed.

(** The indices [ix = argsort(|data|)[::-1]] list the magnitudes in
    descending order. *)
Lemma ix_descending (data : list Cx) (j k ij ik : nat) (zj zk : Cx) :
  (j <= k)%nat ->
  rev (argsort (map cabs data)) !! j = Some ij ->
  rev (argsort (map cabs data)) !! k = Some ik ->
  data !! ij = Some zj -> data !! ik = Some zk ->
  cabs zk <= cabs zj.
Proof.
  intros Hjk Hj Hk Hzj Hzk.
  set (l := argsort (map cabs data)) in *.
  assert (Hkey : forall i z, data !! i = Some z -> nth i (map cabs data) 0 = cabs z).
  { intros i z Hz. apply nth_lookup_Some. rewrite map_lookup, Hz. reflexivity. }
  destruct (Nat.eq_dec j k) as [->|Hne].
  { rewrite Hj in Hk. injection Hk as ->. rewrite Hzj in Hzk.
    injection Hzk as ->. lra. }
  assert (Hjl : (j < length l)%nat)
    by (apply lookup_lt_Some in Hj; rewrite length_rev in Hj; exact Hj).
  assert (Hkl : (k < length l)%nat)
    by (apply lookup_lt_Some in Hk; rewrite length_rev in Hk; exact Hk).
  rewrite rev_lookup in Hj, Hk by assumption.
  pose proof (sort_by_sorted (fun i => nth i (map cabs data) 0)
                (seq 0 (length (map cabs data)))) as Hs.
  fold (argsort (map cabs data)) in Hs. fold l in Hs.
  pose proof (sorted_lookup _ l Hs (length l - S k) (length l - S j) ik ij
                ltac:(lia) Hk Hj) as H.
  unfold by_key in H. rewrite (Hkey _ _ Hzj), (Hkey _ _ Hzk) in H. exact H.
Qed.

(** The shape of [_prox_owl]: the sorted magnitudes minus the
    thresholds go through the isotonic regression, and the item of the
    output at index [ix[j]] is the phase of the input item times item [j]
    of the fit. *)
Lemma prox_owl_structure (data : list Cx) (thr : weight) :
  data <> [] ->
  fits thr (length data) ->
  let ix := rev (argsort (map cabs data)) in
  exists (sh m : list R) (out : list (option Cx)),
    Permutation ix (seq 0 (length data))
    /\ length sh = length data
    /\ (forall t i z, ix !! t = Some i -> data !! i = Some z ->
          sh !! t = Some (cabs z - threshold_at thr t))
    /\ Isotonic.isotonic_regression sh 0 false = Ok m
    /\ length m = length data
    /\ _prox_owl data thr = Ok out
    /\ length out = length data
    /\ (forall j i z, ix !! j = Some i -> data !! i = Some z ->
          exists v, m !! j = Some v /\ out !! i = Some (signed z v)).
Proof.
  intros Hne Hfit ix.
  set (n := length data).
  assert (Hn : (0 < n)%nat) by (subst n; destruct data; [contradiction|simpl; lia]).
  assert (Hperm : Permutation ix (seq 0 n)).
  { subst ix. rewrite <- Permutation_rev.
    replace n with (length (map cabs data)) by apply length_map.
    apply argsort_perm. }
  destruct (perm_seq_facts ix n Hperm) as (Hlix & Hnd & Hall & Hsurj).
  set (a := gather ix (map cabs data)).
  assert (Hla : length a = n).
  { subst a. rewrite length_gather; [exact Hlix|].
    rewrite length_map. exact Hall. }
  assert (Ha : forall j i z, ix !! j = Some i -> data !! i = Some z ->
                 a !! j = Some (cabs z)).
  { intros j i z Hj Hz. subst a. rewrite (gather_lookup ix _) with (i := i).
    - rewrite map_lookup, Hz. reflexivity.
    - rewrite length_map. exact Hall.
    - exact Hj. }
  destruct (subtract_fits a thr) as (sh & Hsub & Hlsh & Hsh).
  { rewrite Hla. exact Hfit. }
  assert (Hshne : sh <> []) by (destruct sh; [simpl in Hlsh; lia|discriminate]).
  destruct (isotonic_decreasing_spec sh 0 Hshne) as (m & Hiso & Hlm & _).
  rewrite Hlsh, Hla in Hlm.
  rewrite <- Hlix in Hall.
  destruct (invert_spec ix Hnd Hall) as (Hlinv & Hinv).
  rewrite Hlix in Hall, Hlinv.
  assert (Hinvall : Forall (fun j => (j < length m)%nat) (invert ix)).
  { apply List.Forall_forall. intros v Hv.
    apply list_elem_of_In, list_elem_of_lookup_1 in Hv. destruct Hv as [i Hi].
    assert (Hil : (i < n)%nat) by (apply lookup_lt_Some in Hi; lia).
    destruct (Hsurj i Hil) as [j Hj].
    rewrite (Hinv j i Hj) in Hi. injection Hi as <-.
    apply lookup_lt_Some in Hj. lia. }
  set (out_abs := gather (invert ix) m).
  assert (Hloa : length out_abs = n).
  { subst out_abs. rewrite length_gather; [exact Hlinv|exact Hinvall]. }
  assert (Hoa : forall j i, ix !! j = Some i -> out_abs !! i = m !! j).
  { intros j i Hj. subst out_abs. apply gather_lookup; [exact Hinvall|].
    apply Hinv. exact Hj. }
  exists sh, m, (map (fun zm => signed (fst zm) (snd zm)) (combine data out_abs)).
  split; [exact Hperm|]. split; [rewrite Hlsh; exact Hla|].
  split.
  { intros t i z Ht Hz. apply Hsh. apply (Ha t i z Ht Hz). }
  split; [exact Hiso|]. split; [exact Hlm|].
  split.
  { unfold _prox_owl. fold ix. fold a. rewrite Hsub. cbn [bind].
    rewrite Hiso. cbn [bind]. reflexivity. }
  split; [rewrite length_map, length_combine; lia|].
  intros j i z Hj Hz.
  assert (Hjl : (j < length m)%nat) by (apply lookup_lt_Some in Hj; lia).
  destruct (lookup_lt_is_Some_2 m j Hjl) as [v Hv].
  exists v. split; [exact Hv|].
  rewrite map_lookup.
  rewrite (combine_lookup data out_abs i z v Hz) by (rewrite (Hoa j i Hj); exact Hv).
  reflexivity.
Qed.

Lemma signed_nonzero (z : Cx) (v : R) :
  cabs z <> 0 -> signed z v = Some (cscale (cdiv z (cabs z)) v).
Proof.
  intros H. unfold signed. destruct (Req_dec_T (cabs z) 0); [contradiction|].
  reflexivity.
Qed.

(** A phase scaled by [v >= 0] has magnitude [v]. *)
Lemma cabs_phase (z : Cx) (v : R) :
  cabs z <> 0 -> 0 <= v -> cabs (cscale (cdiv z (cabs z)) v) = v.
Proof.
  intros Hz Hv. destruct z as [x y]. unfold cabs, cscale, cdiv in *.
  cbn [fst snd] in *.
  set (r := sqrt (x * x + y * y)) in *.
  assert (Hr : r * r = x * x + y * y).
  { apply sqrt_sqrt. nra. }
  replace (x / r * v * (x / r * v) + y / r * v * (y / r * v))
    with (v * v).
  - apply sqrt_square. exact Hv.
  - field_simplify_eq; [|exact Hz]. nra.
Qed.

(** C5, as the code has it.  For a vector without zero items and
    thresholds that fit it, [_prox_owl] returns, at the index [ix[j]] of
    the item of rank [j] by descending magnitude, the phase of that item
    times [m[j]], where the magnitudes [m] are non-negative, never
    increase with the rank, and each [m[j]] is at most
    [max(0, |x| - threshold)] taken at rank [j] or at a later rank [t]
    (the isotonic regression pools neighbours, so the bound at rank [j]
    itself need not hold); with non-negative thresholds [m[j]] is at
    most the magnitude of rank [j]. *)
Theorem prox_owl_spec (data : list Cx) (thr : weight) :
  data <> [] ->
  Forall (fun z => cabs z <> 0) data ->
  fits thr (length data) ->
  let ix := rev (argsort (map cabs data)) in
  exists (m : list R) (out : list (option Cx)),
    _prox_owl data thr = Ok out
    /\ length out = length data
    /\ length m = length data
    /\ Permutation ix (seq 0 (length data))
    /\ (forall j i z, ix !! j = Some i -> data !! i = Some z ->
          exists v, m !! j = Some v
            /\ out !! i = Some (Some (cscale (cdiv z (cabs z)) v))
            /\ cabs (cscale (cdiv z (cabs z)) v) = v)
    /\ (forall j v, m !! j = Some v -> 0 <= v)
    /\ (forall j k vj vk, (j <= k)%nat ->
          m !! j = Some vj -> m !! k = Some vk -> vk <= vj)
    /\ (forall j v, m !! j = Some v ->
          exists t i z, (j <= t)%nat /\ ix !! t = Some i /\ data !! i = Some z
            /\ v <= Rmax 0 (cabs z - threshold_at thr t))
    /\ ((forall t, 0 <= threshold_at thr t) ->
        forall j i z v, ix !! j = Some i -> data !! i = Some z ->
          m !! j = Some v -> v <= cabs z).
Proof.
  intros Hne Hnz Hfit ix.
  destruct (prox_owl_structure data thr Hne Hfit)
    as (sh & m & out & Hperm & Hlsh & Hsh & Hiso & Hlm & Hrun & Hlout & Hout).
  fold ix in Hperm, Hsh, Hout.
  assert (Hshne : sh <> []).
  { destruct sh; [|discriminate]. destruct data; [contradiction|discriminate]. }
  destruct (isotonic_decreasing_spec sh 0 Hshne)
    as (m' & Hiso' & _ & Hpos & Hmono & Hbound).
  rewrite Hiso in Hiso'. injection Hiso' as <-.
  destruct (perm_seq_facts ix _ Hperm) as (Hlix & _ & Hall & _).
  assert (Hnzi : forall i z, data !! i = Some z -> cabs z <> 0).
  { intros i z Hz. rewrite List.Forall_forall in Hnz. apply Hnz.
    apply list_elem_of_In. eapply list_elem_of_lookup_2. exact Hz. }
  assert (Hb : forall j v, m !! j = Some v ->
            exists t i z, (j <= t)%nat /\ ix !! t = Some i /\ data !! i = Some z
              /\ v <= Rmax 0 (cabs z - threshold_at thr t)).
  { intros j v Hj. destruct (Hbound j v Hj) as (t & u & Hjt & Hu & Hvu).
    assert (Htl : (t < length ix)%nat) by (apply lookup_lt_Some in Hu; lia).
    destruct (lookup_lt_is_Some_2 ix t Htl) as [i Hi].
    assert (Hil : (i < length data)%nat).
    { rewrite List.Forall_forall in Hall. apply Hall.
      apply list_elem_of_In. eapply list_elem_of_lookup_2. exact Hi. }
    destruct (lookup_lt_is_Some_2 data i Hil) as [z Hz].
    exists t, i, z. split; [exact Hjt|]. split; [exact Hi|]. split; [exact Hz|].
    rewrite (Hsh t i z Hi Hz) in Hu. injection Hu as <-. exact Hvu. }
  exists m, out. split; [exact Hrun|]. split; [exact Hlout|].
  split; [exact Hlm|]. split; [exact Hperm|]. split.
  { intros j i z Hj Hz. destruct (Hout j i z Hj Hz) as (v & Hv & Ho).
    exists v. split; [exact Hv|].
    rewrite signed_nonzero in Ho by (eapply Hnzi; exact Hz).
    split; [exact Ho|]. apply cabs_phase; [eapply Hnzi; exact Hz|].
    eapply Hpos. exact Hv. }
  split; [exact Hpos|]. split; [exact Hmono|]. split; [exact Hb|].
  intros Hthr j i z v Hj Hz Hv.
  destruct (Hb j v Hv) as (t & i' & z' & Hjt & Ht & Hz' & Hle).
  pose proof (ix_descending data j t i i' z z' Hjt Hj Ht Hz Hz') as Hd.
  pose proof (cabs_nonneg z') as Hz0. specialize (Hthr t).
  assert (Rmax 0 (cabs z' - threshold_at thr t) <= cabs z').
  { apply Rmax_lub; lra. }
  lra.
Qed.

Lemma threshold_at_times_zero (w : weight) (t : nat) :
  threshold_at (weight_times w 0) t = 0.
Proof.
  destruct w as [r|a]; cbn [weight_times threshold_at]; [lra|].
  destruct (Nat.lt_ge_cases t (length a)) as [H|H].
  - rewrite (nth_indep _ 0 (0 * 0)) by (rewrite length_map; exact H).
    rewrite (map_nth (fun x => x * 0)). lra.
  - apply nth_overflow. rewrite length_map. exact H.
Qed.

Lemma fits_times (w : weight) (f : R) (n : nat) :
  fits w n -> fits (weight_times w f) n.
Proof.
  destruct w as [r|a]; cbn [fits weight_times]; [auto|].
  intros <-. apply length_map.
Qed.

Lemma phase_times_abs (z : Cx) :
  cabs z <> 0 -> cscale (cdiv z (cabs z)) (cabs z - 0) = z.
Proof.
  intros H. destruct z as [x y]. unfold cscale, cdiv. cbn [fst snd].
  f_equal; field; exact H.
Qed.

(** With a zero threshold [_prox_owl] returns a vector without zero
    items unchanged. *)
Lemma prox_owl_zero_threshold (data : list Cx) (w : weight) :
  data <> [] ->
  Forall (fun z => cabs z <> 0) data ->
  fits w (length data) ->
  _prox_owl data (weight_times w 0) = Ok (map Some data).
Proof.
  intros Hne Hnz Hfit.
  destruct (prox_owl_structure data (weight_times w 0) Hne (fits_times w 0 _ Hfit))
    as (sh & m & out & Hperm & Hlsh & Hsh & Hiso & Hlm & Hrun & Hlout & Hout).
  set (ix := rev (argsort (map cabs data))) in *.
  destruct (perm_seq_facts ix _ Hperm) as (Hlix & _ & Hall & Hsurj).
  assert (Hitem : forall j v, sh !! j = Some v ->
            exists i z, ix !! j = Some i /\ data !! i = Some z /\ v = cabs z - 0).
  { intros j v Hj.
    assert (Hjl : (j < length ix)%nat) by (apply lookup_lt_Some in Hj; lia).
    destruct (lookup_lt_is_Some_2 ix j Hjl) as [i Hi].
    assert (Hil : (i < length data)%nat).
    { rewrite List.Forall_forall in Hall. apply Hall.
      apply list_elem_of_In. eapply list_elem_of_lookup_2. exact Hi. }
    destruct (lookup_lt_is_Some_2 data i Hil) as [z Hz].
    exists i, z. split; [exact Hi|]. split; [exact Hz|].
    rewrite (Hsh j i z Hi Hz), threshold_at_times_zero in Hj.
    injection Hj as <-. reflexivity. }
  assert (Hfix : Isotonic.isotonic_regression sh 0 false = Ok sh).
  { apply isotonic_decreasing_fixed.
    - destruct sh; [|discriminate]. destruct data; [contradiction|discriminate].
    - intros j k vj vk Hjk Hj Hk.
      destruct (Hitem j vj Hj) as (ij & zj & Hij & Hzj & ->).
      destruct (Hitem k vk Hk) as (ik & zk & Hik & Hzk & ->).
      pose proof (ix_descending data j k ij ik zj zk Hjk Hij Hik Hzj Hzk). lra.
    - intros j v Hj. destruct (Hitem j v Hj) as (i & z & _ & _ & ->).
      pose proof (cabs_nonneg z). lra. }
  rewrite Hiso in Hfix. injection Hfix as ->.
  rewrite Hrun. f_equal. apply list_eq. intros i.
  rewrite map_lookup.
  destruct (data !! i) as [z|] eqn:Hz.
  - assert (Hil : (i < length data)%nat) by (apply lookup_lt_Some in Hz; exact Hz).
    destruct (Hsurj i Hil) as [j Hj].
    destruct (Hout j i z Hj Hz) as (v & Hv & Ho).
    destruct (Hitem j v Hv) as (i' & z' & Hi' & Hz' & ->).
    rewrite Hj in Hi'. injection Hi' as <-. rewrite Hz in Hz'. injection Hz' as <-.
    rewrite Ho. cbn [option_map]. f_equal.
    assert (Hzn : cabs z <> 0).
    { rewrite List.Forall_forall in Hnz. apply Hnz.
      apply list_elem_of_In. eapply list_elem_of_lookup_2. exact Hz. }
    rewrite signed_nonzero by exact Hzn. f_equal. apply phase_times_abs. exact Hzn.
  - cbn [option_map]. apply lookup_ge_None. apply lookup_ge_None in Hz. lia.
Qed.

(** [OWL.op] in mode ['all'] on a vector. *)
Lemma op_all_zero_factor (self : t) (data : ndarray Cx) (w : weight) :
  is_literal (mode self) "all" = true ->
  weights self = Weights w ->
  flat data <> [] ->
  Forall (fun z => cabs z <> 0) (flat data) ->
  fits w (length (flat data)) ->
  op self data 0
  = Ok {| shape := [length (flat data)]; flat := map Some (flat data) |}.
Proof.
  intros Hm Hw Hne Hnz Hfit. unfold op. rewrite Hm.
  rewrite Hw. cbn [threshold_of bind].
  rewrite (prox_owl_zero_threshold _ w Hne Hnz Hfit). cbn [bind].
  rewrite length_map. reflexivity.
Qed.

Lemma cabs_of_real (r : R) : cabs (of_real r) = Rabs r.
Proof.
  unfold cabs, of_real. cbn [fst snd].
  replace (r * r + 0 * 0) with (Rsqr r) by (unfold Rsqr; lra).
  apply sqrt_Rsqr_abs.
Qed.

(** A zero item comes back as [nan], whatever the threshold. *)
Lemma prox_owl_zero_item (thr : R) :
  _prox_owl [czero] (WScalar thr) = Ok [None].
Proof.
  unfold _prox_owl. cbn [map].
  change (argsort [cabs czero]) with [0%nat].
  cbn [rev app gather omap list_omap lookup list_lookup subtract bind map].
  unfold Isotonic.isotonic_regression. cbn [bind].
  unfold invert. cbn.
  unfold signed. cbn [fst snd].
  assert (E : cabs czero = 0).
  { change czero with (of_real 0). rewrite cabs_of_real. apply Rabs_R0. }
  destruct (Req_dec_T (cabs czero) 0); [reflexivity|contradiction].
Qed.

(** Two items [5, 4] with the thresholds [4, 1]: the shifted sequence
    [1, 3] is pooled into [2, 2]. *)
Lemma prox_owl_spec_witness :
  Samples.three_samples <> []
  /\ fits (WScalar 1) (length Samples.three_samples)
  /\ exists out,
       _prox_owl Samples.three_samples (WScalar 1) = Ok out
       /\ length out = 3%nat.
Proof.
  assert (H1 : Samples.three_samples <> []) by discriminate.
  assert (H2 : Forall (fun z => cabs z <> 0) Samples.three_samples).
  { unfold Samples.three_samples.
    repeat constructor; rewrite cabs_of_real, Rabs_pos_eq; lra. }
  assert (H3 : fits (WScalar 1) (length Samples.three_samples)) by exact I.
  split; [exact H1|]. split; [exact H3|].
  destruct (prox_owl_spec Samples.three_samples (WScalar 1) H1 H2 H3)
    as (m & out & Hrun & Hlen & _).
  exists out. split; [exact Hrun|exact Hlen].
Defined.

Lemma prox_owl_pooled :
  _prox_owl [of_real 5; of_real 4] (WArray [4; 1])
  = Ok [Some (of_real 2); Some (of_real 2)].
Proof.
  unfold _prox_owl. cbn [map]. rewrite !cabs_of_real.
  rewrite !Rabs_pos_eq by lra.
  assert (Es : argsort [5; 4] = [1; 0]%nat).
  { unfold argsort, sort_by. cbn [length seq fold_left insert_by nth].
    destruct (Rlt_dec 4 5); [reflexivity|lra]. }
  rewrite Es. cbn [rev app].
  change (gather [0; 1]%nat [5; 4]) with [5; 4].
  cbn [subtract length Nat.eqb combine map fst snd bind].
  assert (Ei : Isotonic.isotonic_regression [5 - 4; 4 - 1] 0 false = Ok [2; 2]).
  { unfold Isotonic.isotonic_regression, Isotonic.order, Isotonic.pava.
    cbn [rev app fold_left Isotonic.pool].
    destruct (Rlt_dec (Isotonic.mean [4 - 1]) (Isotonic.mean [5 - 4])) as [H|_].
    { exfalso. unfold Isotonic.mean, rsum in H. simpl in H. lra. }
    cbn [Isotonic.pool app]. unfold Isotonic.fitted.
    cbn [rev app flat_map length repeat map].
    assert (Em : Isotonic.mean [4 - 1; 5 - 4] = 2).
    { unfold Isotonic.mean, rsum. simpl. lra. }
    rewrite Em, Rmax_right by lra. reflexivity. }
  rewrite Ei. cbn [bind].
  change (gather (invert [0; 1]%nat) [2; 2]) with [2; 2].
  cbn [combine map fst snd]. unfold signed.
  rewrite !cabs_of_real, !Rabs_pos_eq by lra.
  destruct (Req_dec_T 5 0) as [H|_]; [lra|].
  destruct (Req_dec_T 4 0) as [H|_]; [lra|].
  unfold cscale, cdiv, of_real. cbn [fst snd].
  repeat f_equal; lra.
Qed.

(** C5 as stated fails: for the vector [5, 4] and the thresholds [4, 1]
    the output is [2, 2]; the largest output magnitude, [2], exceeds the
    largest input magnitude minus its threshold floored at zero,
    [max(5 - 4, 0) = 1]. *)
Lemma prox_owl_bound_counterexample :
  exists out,
    _prox_owl [of_real 5; of_real 4] (WArray [4; 1]) = Ok out
    /\ out = [Some (of_real 2); Some (of_real 2)]
    /\ cabs (of_real 5) - threshold_at (WArray [4; 1]) 0 = 1
    /\ ~ cabs (of_real 2)
         <= Rmax 0 (cabs (of_real 5) - threshold_at (WArray [4; 1]) 0).
Proof.
  eexists. split; [apply prox_owl_pooled|]. split; [reflexivity|].
  rewrite !cabs_of_real, !Rabs_pos_eq by lra. cbn [threshold_at nth].
  split; [lra|]. rewrite Rmax_right by lra. lra.
Qed.

(** X19.  With one threshold for all items (a scalar [alpha] and no
    [beta]) the sorted magnitudes stay sorted after the subtraction and
    the isotonic regression only floors them at zero: [_prox_owl] is the
    soft threshold, every item [z] of a vector without zero items
    becomes [z / |z| * max(0, |z| - threshold)]. *)
Theorem prox_owl_scalar_threshold (data : list Cx) (thr : R) :
  data <> [] ->
  Forall (fun z => cabs z <> 0) data ->
  _prox_owl data (WScalar thr)
  = Ok (map (fun z => Some (cscale (cdiv z (cabs z))
                              (Rmax 0 (cabs z - thr)))) data).
Proof.
  intros Hne Hnz.
  destruct (prox_owl_structure data (WScalar thr) Hne I)
    as (sh & m & out & Hperm & Hlsh & Hsh & Hiso & Hlm & Hrun & Hlout & Hout).
  set (ix := rev (argsort (map cabs data))) in *.
  destruct (perm_seq_facts ix _ Hperm) as (Hlix & _ & Hall & Hsurj).
  cbn [threshold_at] in Hsh.
  assert (Hitem : forall j v, sh !! j = Some v ->
            exists i z, ix !! j = Some i /\ data !! i = Some z
                        /\ v = cabs z - thr).
  { intros j v Hj.
    assert (Hjl : (j < length ix)%nat) by (apply lookup_lt_Some in Hj; lia).
    destruct (lookup_lt_is_Some_2 ix j Hjl) as [i Hi].
    assert (Hil : (i < length data)%nat).
    { rewrite List.Forall_forall in Hall. apply Hall.
      apply list_elem_of_In. eapply list_elem_of_lookup_2. exact Hi. }
    destruct (lookup_lt_is_Some_2 data i Hil) as [z Hz].
    exists i, z. split; [exact Hi|]. split; [exact Hz|].
    rewrite (Hsh j i z Hi Hz) in Hj. injection Hj as <-. reflexivity. }
  assert (Hfit : Isotonic.isotonic_regression sh 0 false
                 = Ok (map (fun v => Rmax 0 v) sh)).
  { apply isotonic_decreasing_sorted.
    - destruct sh; [|discriminate].
      destruct data; [contradiction|discriminate].
    - intros j k vj vk Hjk Hj Hk.
      destruct (Hitem j vj Hj) as (ij & zj & Hij & Hzj & ->).
      destruct (Hitem k vk Hk) as (ik & zk & Hik & Hzk & ->).
      pose proof (ix_descending data j k ij ik zj zk Hjk Hij Hik Hzj Hzk).
      lra. }
  rewrite Hiso in Hfit. injection Hfit as ->.
  rewrite Hrun. f_equal. apply list_eq. intros i.
  rewrite map_lookup.
  destruct (data !! i) as [z|] eqn:Hz.
  - assert (Hil : (i < length data)%nat)
      by (apply lookup_lt_Some in Hz; exact Hz).
    destruct (Hsurj i Hil) as [j Hj].
    destruct (Hout j i z Hj Hz) as (v & Hv & Ho).
    rewrite map_lookup, (Hsh j i z Hj Hz) in Hv. cbn [option_map] in Hv.
    injection Hv as <-.
    rewrite Ho. cbn [option_map]. f_equal.
    apply signed_nonzero.
    rewrite List.Forall_forall in Hnz. apply Hnz.
    apply list_elem_of_In. eapply list_elem_of_lookup_2. exact Hz.
  - cbn [option_map]. apply lookup_ge_None. apply lookup_ge_None in Hz. lia.
Qed.

(** X20.  A threshold vector that numpy cannot broadcast against the
    data (the two lengths differ and neither is one) makes [_prox_owl]
    end with [ValueError] at the subtraction. *)
Theorem prox_owl_threshold_mismatch (data : list Cx) (ts : list R) :
  length ts <> length data ->
  length ts <> 1%nat ->
  length data <> 1%nat ->
  _prox_owl data (WArray ts) = Raise ValueError.
Proof.
  intros Hne Ht Hd. unfold _prox_owl.
  set (ix := rev (argsort (map cabs data))).
  assert (Hperm : Permutation ix (seq 0 (length data))).
  { subst ix. rewrite <- Permutation_rev.
    replace (length data) with (length (map cabs data)) by apply length_map.
    apply argsort_perm. }
  destruct (perm_seq_facts ix _ Hperm) as (Hlix & _ & Hall & _).
  set (a := gather ix (map cabs data)).
  assert (Hla : length a = length data).
  { subst a. rewrite length_gather; [exact Hlix|].
    rewrite length_map. exact Hall. }
  unfold subtract. rewrite Hla.
  destruct (Nat.eqb_spec (length ts) (length data)) as [E|_]; [contradiction|].
  destruct ts as [|t0 [|t1 ts]]; destruct a as [|a0 [|a1 a]];
    simpl in *; try reflexivity; try lia.
Qed.

(** X21.  When the mode is the constant ['all'] (the default),
    [OWL.op] works on [data.flatten()] and returns what [_prox_owl]
    returns: a vector with one item per item of the data, whatever the
    shape of the data. *)
Theorem op_all_returns_flat (self : t) (data : ndarray Cx) (w : weight)
  (extra_factor : R) :
  is_literal (mode self) "all" = true ->
  weights self = Weights w ->
  flat data <> [] ->
  fits w (length (flat data)) ->
  exists out, op self data extra_factor = Ok out
    /\ shape out = [length (flat data)]
    /\ length (flat out) = length (flat data).
Proof.
  intros Hm Hw Hne Hfit. unfold op. rewrite Hm.
  rewrite Hw. cbn [threshold_of bind].
  destruct (prox_owl_structure (flat data) (weight_times w extra_factor) Hne
              (fits_times w extra_factor _ Hfit))
    as (sh & m & out & _ & _ & _ & _ & _ & Hrun & Hlout & _).
  rewrite Hrun. cbn [bind]. eexists. split; [reflexivity|].
  cbn [shape flat]. rewrite Hlout. split; reflexivity.
Qed.

Lemma three_samples_nonzero :
  Forall (fun z => cabs z <> 0) Samples.three_samples.
Proof.
  unfold Samples.three_samples.
  repeat constructor; rewrite cabs_of_real, Rabs_pos_eq; lra.
Qed.

Lemma prox_owl_scalar_threshold_witness :
  Samples.three_samples <> []
  /\ _prox_owl Samples.three_samples (WScalar 1)
     = Ok (map (fun z => Some (cscale (cdiv z (cabs z))
                                 (Rmax 0 (cabs z - 1))))
               Samples.three_samples).
Proof.
  assert (H : Samples.three_samples <> []) by discriminate.
  split; [exact H|].
  apply (prox_owl_scalar_threshold Samples.three_samples 1 H
           three_samples_nonzero).
Defined.

Lemma prox_owl_threshold_mismatch_witness :
  length [1; 2] <> length Samples.three_samples
  /\ _prox_owl Samples.three_samples (WArray [1; 2]) = Raise ValueError.
Proof.
  assert (H : length [1; 2] <> length Samples.three_samples)
    by (simpl; lia).
  split; [exact H|].
  apply (prox_owl_threshold_mismatch Samples.three_samples [1; 2] H);
    simpl; lia.
Defined.

Lemma op_all_returns_flat_witness :
  flat Samples.ones_2x2x2 <> []
  /\ exists out,
       op Samples.owl_all Samples.ones_2x2x2 1 = Ok out
       /\ shape out = [8%nat].
Proof.
  assert (H : flat Samples.ones_2x2x2 <> []) by discriminate.
  split; [exact H|].
  destruct (op_all_returns_flat Samples.owl_all Samples.ones_2x2x2
              (WScalar 1) 1 eq_refl eq_refl H I)
    as (out & Hrun & Hs & _).
  exists out. split; [exact Hrun|exact Hs].
Defined.

End OWLFacts.

Module KSupportFacts.
Import k_support_norm NpFacts.

Lemma getattr_k k lmbda : getattr (__init__ k lmbda) "k" = Ok k.
Proof. reflexivity. Qed.
Lemma getattr_lmbda k lmbda : getattr (__init__ k lmbda) "lmbda" = Raise AttributeError.
Proof. reflexivity. Qed.

Lemma find_alpha_raises (fuel : nat) (k lmbda : R) (w : list R) :
  exists e, _find_alpha (S fuel) (__init__ k lmbda) w = Some (Raise e)
    /\ ((2 <= length w)%nat -> e = AttributeError).
Proof.
  unfold _find_alpha.
  set (ds := rev (sort (map Rabs w))).
  assert (Hlen : length ds = length w).
  { unfold ds, sort. rewrite length_rev, length_sort_by, length_map. reflexivity. }
  cbn [loop]. unfold continue. cbn [test_q test_l andb negb]. rewrite orb_true_r.
  unfold tests. cbn [idx q l test_q test_l negb Nat.modulo]. 
  change (0 mod 2 =? 0)%nat with true. cbv iota.
  rewrite getattr_k. cbn [bind].
  destruct (Nat.lt_ge_cases (length w) 1) as [H0|H0].
  { rewrite index_out_of_range by lia. cbn [bind]. eexists; split; [reflexivity|lia]. }
  destruct (index_in_range ds 0 ltac:(lia)) as [d0 ->]. cbn [bind].
  destruct (Nat.lt_ge_cases (length w) 2) as [H1|H1].
  { rewrite index_out_of_range by lia. cbn [bind]. eexists; split; [reflexivity|lia]. }
  destruct (index_in_range ds (0 + 1) ltac:(lia)) as [d1 ->]. cbn [bind].
  rewrite getattr_lmbda. cbn [bind]. eexists; split; reflexivity.
Qed.

(** C6.  The constructor stores [lmbda] as [self.weights]; [_find_alpha]
    and [_calc_theta] read [self.lmbda].  On every vector of two or more
    items the first ratio test of [op] raises [AttributeError]: no
    breakpoint is found and nothing is returned. *)
Theorem k_support_op_raises (fuel : nat) (k lmbda : R) (data : list Cx)
  (extra_factor : R) :
  (2 <= length data)%nat ->
  op (S fuel) (__init__ k lmbda) data extra_factor
  = Some (Raise AttributeError).
Proof.
  intros H. unfold op.
  destruct (find_alpha_raises fuel k lmbda (map cabs data)) as (e & -> & He).
  rewrite He by (rewrite length_map; exact H). reflexivity.
Qed.

(** On any vector [op] raises. *)
Lemma op_never_returns (fuel : nat) (k lmbda : R) (data : list Cx)
  (extra_factor : R) :
  exists e, op (S fuel) (__init__ k lmbda) data extra_factor = Some (Raise e).
Proof.
  unfold op.
  destruct (find_alpha_raises fuel k lmbda (map cabs data)) as (e & -> & He).
  eauto.
Qed.
Lemma k_support_op_raises_witness :
  (2 <= length Samples.three_samples)%nat
  /\ op 1 (__init__ 2 1) Samples.three_samples 1
     = Some (Raise AttributeError).
Proof.
  split; [simpl; lia|].
  apply (k_support_op_raises 0 2 1 Samples.three_samples 1). simpl. lia.
Defined.

(** On a vector of fewer than two items the first ratio test indexes
    past the end of the sorted magnitudes. *)
Lemma find_alpha_short (fuel : nat) (k lmbda : R) (w : list R) :
  (length w < 2)%nat ->
  _find_alpha (S fuel) (__init__ k lmbda) w = Some (Raise IndexError).
Proof.
  intros H. unfold _find_alpha.
  set (ds := rev (sort (map Rabs w))).
  assert (Hlen : length ds = length w).
  { unfold ds, sort. rewrite length_rev, length_sort_by, length_map.
    reflexivity. }
  cbn [loop]. unfold continue. cbn [test_q test_l andb negb].
  rewrite orb_true_r.
  unfold tests. cbn [idx q l test_q test_l negb Nat.modulo].
  change (0 mod 2 =? 0)%nat with true. cbv iota.
  rewrite getattr_k. cbn [bind].
  destruct (Nat.lt_ge_cases (length w) 1) as [H0|H0].
  { rewrite index_out_of_range by lia. reflexivity. }
  destruct (index_in_range ds 0 ltac:(lia)) as [d0 ->]. cbn [bind].
  rewrite index_out_of_range by lia. reflexivity.
Qed.

Lemma length_sorted_magnitudes (data : list Cx) :
  length (gather (rev (argsort (map cabs data))) (map cabs data))
  = length data.
Proof.
  assert (Hperm : Permutation (rev (argsort (map cabs data)))
                    (seq 0 (length data))).
  { rewrite <- Permutation_rev.
    replace (length data) with (length (map cabs data)) by apply length_map.
    apply SortFacts.argsort_perm. }
  destruct (OWLFacts.perm_seq_facts _ _ Hperm) as (Hlix & _ & Hall & _).
  rewrite length_gather; [exact Hlix|]. rewrite length_map. exact Hall.
Qed.

(** X22.  [k_support_norm.get_cost] returns no cost either: it calls
    [_find_alpha], which reads [self.lmbda] on a vector of two or more
    items ([AttributeError]) and indexes past the end of a shorter one
    ([IndexError]). *)
Theorem k_support_get_cost_raises (fuel : nat) (k lmbda : R)
  (data : list Cx) :
  ((2 <= length data)%nat ->
   get_cost (S fuel) (__init__ k lmbda) data = Some (Raise AttributeError))
  /\ ((length data < 2)%nat ->
      get_cost (S fuel) (__init__ k lmbda) data = Some (Raise IndexError)).
Proof.
  split; intros H; unfold get_cost.
  - destruct (find_alpha_raises fuel k lmbda
                (gather (rev (argsort (map cabs data))) (map cabs data)))
      as (e & -> & He).
    rewrite He by (rewrite length_sorted_magnitudes; exact H). reflexivity.
  - rewrite find_alpha_short by (rewrite length_sorted_magnitudes; exact H).
    reflexivity.
Qed.

(** X23.  On the empty vector and on a vector of one item
    [k_support_norm.op] ends with [IndexError]: the ratio test reads the
    first two sorted magnitudes before it reads [self.lmbda]. *)
Theorem k_support_op_short_vector (fuel : nat) (k lmbda : R)
  (data : list Cx) (extra_factor : R) :
  (length data < 2)%nat ->
  op (S fuel) (__init__ k lmbda) data extra_factor
  = Some (Raise IndexError).
Proof.
  intros H. unfold op.
  rewrite find_alpha_short by (rewrite length_map; exact H). reflexivity.
Qed.

Lemma k_support_op_short_vector_witness :
  (length [of_real 3] < 2)%nat
  /\ op 1 (__init__ 2 1) [of_real 3] 1 = Some (Raise IndexError).
Proof.
  split; [simpl; lia|].
  apply (k_support_op_short_vector 0 2 1 [of_real 3] 1). simpl. lia.
Defined.

End KSupportFacts.

(** ** The wavelet operator *)

Module Wavelet2Facts.
Import Wavelet2.

Section Facts.
Context {image bands coeffs shapes transform : Type}.
Variable AVAILABLE_TRANSFORMS : list string.
Variable load_transform : string -> Z -> Z -> result transform.
Variable run_analysis : transform -> image -> transform * result bands.
Variable run_synthesis : transform -> bands -> transform * result image.
Variable flatten : bands -> result (coeffs * shapes).
Variable unflatten : coeffs -> shape_attr shapes -> result bands.
Variable as_image : image -> result image.
Variable data_of : image -> image.
Variable n_channels : image -> result nat.
Variable channel : image -> nat -> result image.
Variable n_rows : coeffs -> result nat.
Variable row : coeffs -> nat -> result coeffs.
Variable stack : list coeffs -> result coeffs.
Variable stack_images : list image -> result image.
Variable shape_items : shapes -> result (list (shape_attr shapes)).
Variable impulse : list Z -> result image.
Variable norm : coeffs -> R.

Local Abbreviation W := (Wavelet2.t shapes transform).
Local Abbreviation init :=
  (@__init__ shapes transform AVAILABLE_TRANSFORMS load_transform).
Local Abbreviation op_channels :=
  (@op_channels image bands coeffs shapes transform run_analysis flatten
     channel).
Local Abbreviation op :=
  (@op image bands coeffs shapes transform run_analysis flatten as_image
     n_channels channel stack).
Local Abbreviation adj_channels :=
  (@adj_channels image bands coeffs shapes transform run_synthesis unflatten
     data_of row).
Local Abbreviation adj_op :=
  (@adj_op image bands coeffs shapes transform run_synthesis unflatten
     data_of n_rows row stack_images shape_items).
Local Abbreviation l2norm :=
  (@l2norm image bands coeffs shapes transform run_analysis flatten as_image
     n_channels channel stack impulse norm).

(** X24.  The constructor refuses a name outside
    [pysap.AVAILABLE_TRANSFORMS] with [ValueError].  The instance it
    builds otherwise holds no coefficient shape yet.  In multichannel
    mode a call of [adj_op] before any [op] zips the channels with
    [None]: it ends with [TypeError] and leaves the instance as it
    was. *)
Theorem fresh_instance (name : string) (nb_scale verbose : Z) (mc : bool) :
  (existsb (String.eqb name) AVAILABLE_TRANSFORMS = false ->
   init name nb_scale verbose mc = Raise ValueError)
  /\ (forall self, init name nb_scale verbose mc = Ok self ->
        coeffs_shape self = NoShape
        /\ multichannel self = mc
        /\ (mc = true ->
            forall c n dtype, n_rows c = Ok n ->
              adj_op c dtype self = (self, Raise TypeError))).
Proof.
  unfold __init__. split.
  - intros ->. reflexivity.
  - intros self H.
    destruct (existsb _ _); [|discriminate]. cbn [negb] in H.
    destruct (load_transform name nb_scale verbose) as [tr|e]; [|discriminate].
    cbn [bind] in H. injection H as <-. cbn [coeffs_shape multichannel].
    split; [reflexivity|]. split; [reflexivity|].
    intros -> c n dtype Hn. unfold Wavelet2.adj_op, seq_, read, lift.
    cbn [multichannel coeffs_shape]. rewrite Hn. reflexivity.
Qed.

(** The loop over the channels records one shape per channel. *)
Lemma op_channels_records (data : image) (idxs : list nat) :
  forall (cacc : list coeffs) (sacc : list shapes) (self self' : W)
         (out : list coeffs),
    coeffs_shape self = ShapeList sacc ->
    op_channels data idxs cacc sacc self = (self', Ok out) ->
    exists l,
      coeffs_shape self' = ShapeList l
      /\ length l = (length sacc + length idxs)%nat
      /\ length out = (length cacc + length idxs)%nat
      /\ nb_scale self' = nb_scale self
      /\ multichannel self' = multichannel self.
Proof.
  induction idxs as [|ch idxs IH]; intros cacc sacc self self' out Hs H.
  - cbn in H. injection H as <- <-. exists sacc.
    rewrite !Nat.add_0_r. auto.
  - cbn [Wavelet2.op_channels] in H. unfold seq_ at 1, lift at 1 in H.
    destruct (channel data ch) as [x|e]; [|discriminate].
    unfold seq_ at 1, on_transform at 1 in H.
    destruct (run_analysis (transform_ self) x) as [tr [b|e]]; [|discriminate].
    unfold seq_ at 1, lift at 1 in H.
    destruct (flatten b) as [[c s]|e]; [|discriminate].
    unfold seq_ at 1, set_coeffs_shape at 1 in H.
    cbn [fst snd nb_scale multichannel transform_ coeffs_shape] in H.
    apply IH in H; [|reflexivity].
    destruct H as (l & Hl & Hll & Hlo & Hn & Hm).
    exists l. rewrite Hl, Hll, Hlo, Hn, Hm, !length_app. cbn.
    repeat split; lia.
Qed.

(** X25.  When [op] returns in multichannel mode, [coeffs_shape] is a
    list with one shape record per channel of the data, and the result
    is the stack of as many coefficient arrays; whatever [coeffs_shape]
    held before is gone. *)
Theorem op_records_channel_shapes (self self' : W) (data : image)
  (out : coeffs) :
  multichannel self = true ->
  op data self = (self', Ok out) ->
  exists (wrapped : image) (n : nat) (l : list shapes) (cs : list coeffs),
    as_image data = Ok wrapped
    /\ n_channels wrapped = Ok n
    /\ coeffs_shape self' = ShapeList l /\ length l = n
    /\ stack cs = Ok out /\ length cs = n
    /\ multichannel self' = true.
Proof.
  intros Hm H. unfold Wavelet2.op in H.
  unfold seq_ at 1, lift at 1 in H.
  destruct (as_image data) as [wrapped|e] eqn:Hw; [|discriminate].
  unfold seq_ at 1, read at 1 in H. rewrite Hm in H.
  unfold seq_ at 1, set_coeffs_shape at 1 in H.
  unfold seq_ at 1, lift at 1 in H.
  destruct (n_channels wrapped) as [n|e] eqn:Hn; [|discriminate].
  unfold seq_ at 1 in H.
  destruct (Wavelet2.op_channels _ _ _ _ _ _ _ _) as [s1 [cs|e]] eqn:Hl;
    [|discriminate].
  apply op_channels_records in Hl; [|reflexivity].
  destruct Hl as (l & Hl & Hll & Hlo & _ & Hmc).
  unfold lift in H. injection H as <- Hst.
  exists wrapped, n, l, cs. rewrite length_seq in Hll, Hlo.
  cbn in Hll, Hlo, Hmc. rewrite Hm in Hmc.
  split; [reflexivity|]. split; [exact Hn|]. split; [exact Hl|].
  split; [exact Hll|]. split; [exact Hst|]. split; [exact Hlo|exact Hmc].
Qed.

Section RoundTrip.

(** The transform and the flattening are invertible: [unflatten] on the
    record that [flatten] returned gives the bands back, and a synthesis
    right after the analysis gives the image back. *)
Hypothesis unflatten_flatten : forall b c s,
  flatten b = Ok (c, s) -> unflatten c (OneShape s) = Ok b.
Hypothesis synthesis_analysis : forall tr tr1 x b,
  run_analysis tr x = (tr1, Ok b) ->
  exists tr2 img, run_synthesis tr1 b = (tr2, Ok img) /\ data_of img = x.

(** X26.  Round trip, one channel.  With an invertible transform and an
    invertible flattening, [adj_op] applied to what [op] returned, on
    the instance that [op] left, returns the image that [op] analysed
    and keeps the recorded shape. *)
Theorem adj_op_inverts_op (self self1 : W) (data wrapped : image)
  (c : coeffs) :
  multichannel self = false ->
  as_image data = Ok wrapped ->
  op data self = (self1, Ok c) ->
  exists self2, adj_op c "array" self1 = (self2, Ok wrapped)
    /\ coeffs_shape self2 = coeffs_shape self1.
Proof.
  intros Hm Hw H. unfold Wavelet2.op in H.
  unfold seq_ at 1, lift at 1 in H. rewrite Hw in H.
  unfold seq_ at 1, read at 1 in H. rewrite Hm in H.
  unfold seq_ at 1, on_transform at 1 in H.
  destruct (run_analysis (transform_ self) wrapped) as [tr1 [b|e]] eqn:Ha;
    [|discriminate].
  unfold seq_ at 1, lift at 1 in H.
  destruct (flatten b) as [[c0 s]|e] eqn:Hf; [|discriminate].
  unfold seq_, set_coeffs_shape, ret in H.
  cbn [fst snd nb_scale multichannel transform_ coeffs_shape] in H.
  injection H as <- <-.
  destruct (synthesis_analysis _ _ _ _ Ha) as (tr2 & img & Hs & Hd).
  unfold Wavelet2.adj_op, seq_, read, lift, on_transform, ret.
  cbn [nb_scale multichannel transform_ coeffs_shape]. rewrite Hm.
  cbn [nb_scale multichannel transform_ coeffs_shape].
  rewrite (unflatten_flatten _ _ _ Hf), Hs.
  change (("array" =? "array")%string) with true. cbv iota.
  eexists. split; [rewrite Hd; reflexivity|reflexivity].
Qed.

End RoundTrip.

Section RoundTripChannels.

(** As above, with a synthesis that does not depend on what the
    transform analysed last, and with [a[i]] and [a.shape[0]] of a stack
    of arrays giving its items and their number. *)
Hypothesis unflatten_flatten : forall b c s,
  flatten b = Ok (c, s) -> unflatten c (OneShape s) = Ok b.
Hypothesis synthesis_analysis : forall tr tr1 tr' x b,
  run_analysis tr x = (tr1, Ok b) ->
  exists tr2 img, run_synthesis tr' b = (tr2, Ok img) /\ data_of img = x.
Hypothesis rows_of_stack : forall cs out,
  stack cs = Ok out ->
  n_rows out = Ok (length cs)
  /\ forall i c, cs !! i = Some c -> row out i = Ok c.

Lemma op_channels_decomposes (data : image) (idxs : list nat) :
  forall (cacc : list coeffs) (sacc : list shapes) (self self' : W)
         (out : list coeffs),
    op_channels data idxs cacc sacc self = (self', Ok out) ->
    exists tri : list (image * coeffs * shapes),
      Forall (decomposed run_analysis flatten) tri
      /\ out = cacc ++ map (fun t => snd (fst t)) tri
      /\ (idxs = [] \/ coeffs_shape self' = ShapeList (sacc ++ map snd tri))
      /\ Forall2 (fun ch t => channel data ch = Ok (fst (fst t))) idxs tri.
Proof.
  induction idxs as [|ch idxs IH]; intros cacc sacc self self' out H.
  - cbn in H. injection H as <- <-. exists [].
    rewrite app_nil_r. split; [constructor|]. split; [reflexivity|].
    split; [left; reflexivity|constructor].
  - cbn [Wavelet2.op_channels] in H. unfold seq_ at 1, lift at 1 in H.
    destruct (channel data ch) as [x|e] eqn:Hx; [|discriminate].
    unfold seq_ at 1, on_transform at 1 in H.
    destruct (run_analysis (transform_ self) x) as [tr [b|e]] eqn:Ha;
      [|discriminate].
    unfold seq_ at 1, lift at 1 in H.
    destruct (flatten b) as [[c s]|e] eqn:Hf; [|discriminate].
    unfold seq_ at 1, set_coeffs_shape at 1 in H.
    cbn [fst snd nb_scale multichannel transform_ coeffs_shape] in H.
    pose proof H as H0.
    apply IH in H. destruct H as (tri & Hd & Ho & Hs & Hc).
    exists ((x, c, s) :: tri). split.
    { constructor; [|exact Hd]. exists (transform_ self), tr, b.
      split; [exact Ha|exact Hf]. }
    split; [rewrite Ho, <- app_assoc; reflexivity|].
    split; [|constructor; [exact Hx|exact Hc]].
    right. destruct Hs as [->|Hs].
    + inversion Hc; subst. cbn in H0. injection H0 as <- _.
      cbn. reflexivity.
    + rewrite Hs, <- app_assoc. reflexivity.
Qed.

Lemma adj_channels_recomposes (out : coeffs)
  (tri : list (image * coeffs * shapes)) :
  forall (k : nat) (acc : list image) (self : W),
    Forall (decomposed run_analysis flatten) tri ->
    (forall i t, tri !! i = Some t -> row out (k + i) = Ok (snd (fst t))) ->
    exists self',
      adj_channels out
        (combine (seq k (length tri)) (map (fun t => OneShape (snd t)) tri))
        acc self
      = (self', Ok (acc ++ map (fun t => fst (fst t)) tri))
      /\ coeffs_shape self' = coeffs_shape self.
Proof.
  induction tri as [|[[x c] s] tri IH]; intros k acc self Hd Hr.
  - exists self. cbn. rewrite app_nil_r. split; reflexivity.
  - apply List.Forall_cons_iff in Hd as [(tr & tr1 & b & Ha & Hf) Hd].
    cbn [fst snd] in Ha, Hf.
    cbn [length seq map combine Wavelet2.adj_channels fst snd].
    unfold seq_ at 1, lift at 1.
    pose proof (Hr 0%nat (x, c, s) eq_refl) as Hr0.
    rewrite Nat.add_0_r in Hr0. cbn [fst snd] in Hr0. rewrite Hr0.
    unfold seq_ at 1, lift at 1.
    rewrite (unflatten_flatten _ _ _ Hf).
    unfold seq_ at 1, on_transform at 1.
    destruct (synthesis_analysis tr tr1 (transform_ self) x b Ha)
      as (tr2 & img & Hs & Hi).
    rewrite Hs, Hi.
    destruct (IH (S k) (acc ++ [x])
                {| nb_scale := nb_scale self;
                   multichannel := multichannel self;
                   transform_ := tr2;
                   coeffs_shape := coeffs_shape self |} Hd)
      as (self' & Hrun & Hcs).
    { intros i t Ht. replace (S k + i)%nat with (k + S i)%nat by lia.
      apply Hr. exact Ht. }
    exists self'. rewrite Hrun, <- app_assoc. split; [reflexivity|exact Hcs].
Qed.

(** X27.  Round trip, multichannel.  Under the same conditions [adj_op]
    applied to what [op] returned gives back [numpy.asarray] of the
    channels that [op] analysed, one image per channel and in the order
    of the channels. *)
Theorem adj_op_inverts_op_channels (self self1 : W) (data wrapped : image)
  (out : coeffs) (dtype : string) :
  multichannel self = true ->
  as_image data = Ok wrapped ->
  op data self = (self1, Ok out) ->
  exists (self2 : W) (images : list image),
    adj_op out dtype self1 = (self2, stack_images images)
    /\ n_channels wrapped = Ok (length images)
    /\ forall i x, images !! i = Some x -> channel wrapped i = Ok x.
Proof.
  intros Hm Hw H. unfold Wavelet2.op in H.
  unfold seq_ at 1, lift at 1 in H. rewrite Hw in H.
  unfold seq_ at 1, read at 1 in H. rewrite Hm in H.
  unfold seq_ at 1, set_coeffs_shape at 1 in H.
  unfold seq_ at 1, lift at 1 in H.
  destruct (n_channels wrapped) as [n|e] eqn:Hn; [|discriminate].
  unfold seq_ at 1 in H.
  destruct (Wavelet2.op_channels _ _ _ _ _ _ _ _) as [s1 [cs|e]] eqn:Hl;
    [|discriminate].
  unfold lift in H. injection H as <- Hst.
  pose proof Hl as Hrec. apply op_channels_records in Hrec; [|reflexivity].
  destruct Hrec as (l0 & Hl0 & _ & _ & _ & Hmc).
  cbn [multichannel] in Hmc. rewrite Hm in Hmc.
  destruct (op_channels_decomposes _ _ _ _ _ _ _ Hl)
    as (tri & Hd & Ho & Hs & Hc).
  cbn [app] in Ho, Hs. subst cs.
  assert (Hlen : length tri = n).
  { apply Forall2_length in Hc. rewrite length_seq in Hc. lia. }
  assert (Hshape : coeffs_shape s1 = ShapeList (map snd tri)).
  { destruct Hs as [E|Hs]; [|exact Hs].
    destruct n; [|discriminate]. destruct tri; [|discriminate].
    cbn in Hl. injection Hl as <-. reflexivity. }
  destruct (rows_of_stack _ _ Hst) as (Hnr & Hrow).
  rewrite length_map in Hnr.
  destruct (adj_channels_recomposes out tri 0 [] s1 Hd) as (self2 & Hrun & _).
  { intros i t Ht. cbn [Nat.add]. apply Hrow.
    rewrite IsotonicFacts.map_lookup, Ht.
    reflexivity. }
  exists self2, (map (fun t => fst (fst t)) tri).
  split; [|split].
  - unfold Wavelet2.adj_op. unfold seq_ at 1, read at 1. rewrite Hmc.
    unfold seq_ at 1, lift at 1. rewrite Hnr.
    unfold seq_ at 1, read at 1. rewrite Hshape.
    unfold seq_ at 1, lift at 1. cbn [iterate].
    rewrite List.map_map. unfold seq_ at 1.
    rewrite Hrun. reflexivity.
  - rewrite length_map, Hlen. reflexivity.
  - intros i x Hx. rewrite IsotonicFacts.map_lookup in Hx.
    destruct (tri !! i) as [t|] eqn:Ht; [|discriminate].
    cbn in Hx. injection Hx as <-.
    destruct (Forall2_lookup_r _ _ _ _ _ Hc Ht) as (ch & Hch & Hx).
    apply lookup_seq in Hch. destruct Hch as [-> _]. exact Hx.
Qed.

End RoundTripChannels.

(** X28.  [l2norm] rounds every dimension up to the next even number
    before it builds its test array: a call on a shape behaves as the
    call on the rounded shape. *)
Theorem l2norm_rounds_up (shape_ : list Z) (self : W) :
  l2norm (map (fun n => (n + n mod 2)%Z) shape_) self = l2norm shape_ self.
Proof.
  unfold Wavelet2.l2norm. rewrite List.map_map.
  replace (map (fun x => (x + x mod 2 + (x + x mod 2) mod 2)%Z) shape_)
    with (map (fun n => (n + n mod 2)%Z) shape_); [reflexivity|].
  apply map_ext. intros n.
  assert (H : ((n + n mod 2) mod 2 = 0)%Z).
  { rewrite Z.add_mod_idemp_r by lia.
    replace (n + n)%Z with (n * 2)%Z by lia. apply Z.mod_mul. lia. }
  lia.
Qed.

(** X29.  [l2norm] is not read-only.  It runs [op] on its test array,
    so when it returns [coeffs_shape] holds the shape records of that
    array, whatever it held before: the record that [flatten] gave for
    the analysis of the test array, or in multichannel mode the list of
    the records of its channels.  A later [adj_op] unflattens with them,
    not with the shapes of the data analysed before.  The value returned
    is the norm of the coefficients of the test array. *)
Theorem l2norm_overwrites_shapes (shape_ : list Z) (self self' : W) (v : R) :
  l2norm shape_ self = (self', Ok v) ->
  exists fake wrapped : image,
    impulse (map (fun n => (n + n mod 2)%Z) shape_) = Ok fake
    /\ as_image fake = Ok wrapped
    /\ (multichannel self = false ->
        exists tr1 b c s,
          run_analysis (transform_ self) wrapped = (tr1, Ok b)
          /\ flatten b = Ok (c, s)
          /\ coeffs_shape self' = OneShape s
          /\ v = norm c)
    /\ (multichannel self = true ->
        exists (n : nat) (tri : list (image * coeffs * shapes))
               (out : coeffs),
          n_channels wrapped = Ok n
          /\ length tri = n
          /\ Forall (decomposed run_analysis flatten) tri
          /\ (forall i t, tri !! i = Some t ->
                channel wrapped i = Ok (fst (fst t)))
          /\ coeffs_shape self' = ShapeList (map snd tri)
          /\ stack (map (fun t => snd (fst t)) tri) = Ok out
          /\ v = norm out).
Proof.
  intros H. unfold Wavelet2.l2norm in H.
  unfold seq_ at 1, lift at 1 in H.
  destruct (impulse _) as [fake|e] eqn:Hfake; [|discriminate].
  unfold seq_ at 1 in H.
  destruct (Wavelet2.op _ _ _ _ _ _ _ _) as [s1 [c|e]] eqn:Ho; [|discriminate].
  unfold ret in H. injection H as <- <-.
  unfold Wavelet2.op in Ho.
  unfold seq_ at 1, lift at 1 in Ho.
  destruct (as_image fake) as [wrapped|e] eqn:Hw; [|discriminate].
  exists fake, wrapped. split; [reflexivity|]. split; [exact Hw|].
  split; intros Hm.
  - unfold seq_ at 1, read at 1 in Ho. rewrite Hm in Ho.
    unfold seq_ at 1, on_transform at 1 in Ho.
    destruct (run_analysis (transform_ self) wrapped) as [tr1 [b|e]] eqn:Ha;
      [|discriminate].
    unfold seq_ at 1, lift at 1 in Ho.
    destruct (flatten b) as [[c0 s]|e] eqn:Hf; [|discriminate].
    unfold seq_, set_coeffs_shape, ret in Ho. injection Ho as <- <-.
    exists tr1, b, c0, s. split; [reflexivity|]. split; [exact Hf|].
    split; reflexivity.
  - unfold seq_ at 1, read at 1 in Ho. rewrite Hm in Ho.
    unfold seq_ at 1, set_coeffs_shape at 1 in Ho.
    unfold seq_ at 1, lift at 1 in Ho.
    destruct (n_channels wrapped) as [n|e] eqn:Hn; [|discriminate].
    unfold seq_ at 1 in Ho.
    destruct (Wavelet2.op_channels _ _ _ _ _ _ _ _) as [s2 [cs|e]] eqn:Hl;
      [|discriminate].
    unfold lift in Ho. injection Ho as <- Hst.
    destruct (op_channels_decomposes _ _ _ _ _ _ _ Hl)
      as (tri & Hd & Hout & Hs & Hc).
    cbn [app] in Hout, Hs. subst cs.
    assert (Hlen : length tri = n).
    { apply Forall2_length in Hc. rewrite length_seq in Hc. lia. }
    exists n, tri, c. split; [reflexivity|]. split; [exact Hlen|].
    split; [exact Hd|]. split.
    { intros i t Ht.
      destruct (Forall2_lookup_r _ _ _ _ _ Hc Ht) as (ch & Hch & Hx).
      apply lookup_seq in Hch. destruct Hch as [-> _]. exact Hx. }
    split; [|split; [exact Hst|reflexivity]].
    destruct Hs as [E|Hs]; [|exact Hs].
    destruct n; [|discriminate]. destruct tri; [|discriminate].
    cbn in Hl. injection Hl as <-. reflexivity.
Qed.

End Facts.

Lemma op_records_channel_shapes_witness :
  exists self' out,
    Nested.op Nested.two_channels Nested.multi = (self', Ok out)
    /\ exists l, coeffs_shape self' = ShapeList l /\ length l = 2%nat.
Proof.
  eexists. eexists. split; [reflexivity|].
  destruct (op_records_channel_shapes Nested.run Nested.flatten Ok
              Nested.n_rows Nested.row Nested.stack
              Nested.multi _ Nested.two_channels _ eq_refl eq_refl)
    as (wrapped & n & l & cs & Hw & Hn & Hl & Hll & _).
  exists l. split; [exact Hl|].
  injection Hw as <-. injection Hn as <-. exact Hll.
Defined.

Lemma nested_unflatten_flatten (b c : Nested.array) (s : nat) :
  Nested.flatten b = Ok (c, s) -> Nested.unflatten c (OneShape s) = Ok b.
Proof.
  unfold Nested.flatten. destruct (Nested.n_rows b); [|discriminate].
  cbn. intros H. injection H as <- _. reflexivity.
Qed.

Lemma adj_op_inverts_op_witness :
  exists self1 c self2,
    Nested.op Nested.two_channels Nested.single = (self1, Ok c)
    /\ Nested.adj_op c "array" self1 = (self2, Ok Nested.two_channels).
Proof.
  eexists. eexists.
  assert (H : Nested.op Nested.two_channels Nested.single
              = (_, Ok Nested.two_channels)) by reflexivity.
  destruct (adj_op_inverts_op Nested.run Nested.run Nested.flatten
              Nested.unflatten Ok (fun a => a) Nested.n_rows Nested.row
              Nested.n_rows Nested.row Nested.stack Nested.stack
              Nested.no_items nested_unflatten_flatten
              ltac:(intros tr tr1 x b E; injection E as <- <-;
                    eexists; eexists; split; reflexivity)
              Nested.single _ Nested.two_channels Nested.two_channels
              Nested.two_channels eq_refl eq_refl H)
    as (self2 & Hrun & _).
  exists self2. split; [exact H|exact Hrun].
Defined.

Lemma adj_op_inverts_op_channels_witness :
  exists self1 out self2 images,
    Nested.op Nested.two_channels Nested.multi = (self1, Ok out)
    /\ Nested.adj_op out "array" self1 = (self2, Nested.stack images)
    /\ length images = 2%nat.
Proof.
  eexists. eexists.
  assert (H : Nested.op Nested.two_channels Nested.multi
              = (_, Ok Nested.two_channels)) by reflexivity.
  destruct (adj_op_inverts_op_channels Nested.run Nested.run Nested.flatten
              Nested.unflatten Ok (fun a => a) Nested.n_rows Nested.row
              Nested.n_rows Nested.row Nested.stack Nested.stack
              Nested.no_items nested_unflatten_flatten
              ltac:(intros tr tr1 tr' x b E; injection E as <- <-;
                    eexists; eexists; split; reflexivity)
              ltac:(intros cs out E; injection E as <-;
                    split; [reflexivity|];
                    intros i c Hc; cbn; rewrite Hc; reflexivity)
              Nested.multi _ Nested.two_channels Nested.two_channels
              Nested.two_channels "array" eq_refl eq_refl H)
    as (self2 & images & Hrun & Hn & _).
  exists self2, images. split; [exact H|]. split; [exact Hrun|].
  injection Hn as ->. reflexivity.
Defined.

(** An instance that holds the record of an array of two rows: after
    [l2norm] on the shape [(3, 3)] it holds the record of the test array
    of four rows. *)
Lemma l2norm_overwrites_shapes_witness :
  coeffs_shape Nested.used = OneShape 2%nat
  /\ exists self' v,
       Nested.l2norm [3%Z; 3%Z] Nested.used = (self', Ok v)
       /\ coeffs_shape self' = OneShape 4%nat.
Proof.
  split; [reflexivity|].
  eexists. eexists. split; [reflexivity|].
  destruct (l2norm_overwrites_shapes Nested.run Nested.flatten Ok
              Nested.n_rows Nested.row Nested.stack Nested.impulse
              Nested.norm [3%Z; 3%Z] Nested.used _ _ eq_refl)
    as (fake & wrapped & Hfake & Hw & Hsingle & _).
  destruct (Hsingle eq_refl) as (tr1 & b & c & s & Ha & Hf & Hs & _).
  injection Hfake as <-. injection Hw as <-. injection Ha as _ <-.
  injection Hf as _ <-. exact Hs.
Defined.

End Wavelet2Facts.

(** ** A zero extra factor *)

Module ZeroFactor.

Import NpFacts GroupLassoFacts OWLFacts KSupportFacts.

(** [GroupLasso.op] with a zero factor: with one weight, or one weight
    per group, every array of one axis or more comes back unchanged. *)
Lemma group_lasso_zero_factor (self : GroupLasso.t) (data : ndarray Cx) :
  wf data ->
  shape data <> [] ->
  shape (GroupLasso.weights self) = []
  \/ shape (GroupLasso.weights self) = tl (shape data) ->
  GroupLasso.op self data 0 = Ok data.
Proof.
  intros Hwf Hne Hw. destruct data as [sh items].
  cbn [shape flat] in *. destruct sh as [|c rest]; [contradiction|].
  cbn [tl] in Hw.
  destruct (op_group_items self {| shape := c :: rest; flat := items |} 0
              c rest Hwf eq_refl Hw)
    as ([sh' items'] & Hrun & Hshape & Hlen & Hitems).
  cbn [shape flat] in *. rewrite Hrun. f_equal. subst sh'. f_equal.
  apply list_eq. intros i.
  destruct (items !! i) as [z|] eqn:Hz.
  - assert (Hr : size_of rest <> 0%nat).
    { intros E. apply lookup_lt_Some in Hz. unfold wf in Hwf.
      cbn [shape flat size_of fold_right] in Hwf. fold (size_of rest) in Hwf.
      rewrite E in Hwf. lia. }
    rewrite (Hitems i z (i mod size_of rest)%nat Hz eq_refl
               (Nat.mod_upper_bound _ _ Hr)).
    f_equal.
    replace (1 - GroupLasso.weight_of (GroupLasso.weights self)
                   (i mod size_of rest) * 0 / _) with 1
      by (unfold Rdiv; rewrite Rmult_0_r, Rmult_0_l; lra).
    rewrite Rmax_right by lra. apply cscale_one.
  - apply lookup_ge_None. apply lookup_ge_None in Hz. lia.
Qed.

(** In the single-patch branch of [NuclearNorm.op] the two reshapes
    disagree, whatever the factor. *)
Lemma single_patch_at_zero
  (svd : ndarray Cx -> ndarray Cx * list R * ndarray Cx)
  (extract_patches_2d :
     ndarray Cx -> pyval -> Z -> result (list (ndarray Cx)))
  (reconstruct_non_overlapped_patches_2d :
     list (ndarray Cx) -> list nat -> result (ndarray Cx))
  (reconstruct_overlapped_patches_2d :
     list nat -> list (ndarray Cx) -> list Z -> result (ndarray Cx))
  (self : NuclearNorm.t) (data : ndarray Cx) (num_cores : nat) (c : nat)
  (lead : list nat) (w : nat) (threshold : R) :
  wf data ->
  shape data = c :: lead ++ [w] ->
  NuclearNorm.patch_shape self = of_shape (lead ++ [w]) ->
  times_float (NuclearNorm.weights self) 0 = Ok threshold ->
  lead <> [] -> (0 < c)%nat -> (0 < size_of lead)%nat -> w <> 1%nat ->
  NuclearNorm.op svd extract_patches_2d
    reconstruct_non_overlapped_patches_2d reconstruct_overlapped_patches_2d
    self data 0 num_cores
  = Raise ValueError.
Proof.
  intros Hwf Hs Hp Ht Hlead Hc Hsz Hw.
  unfold NuclearNorm.op. rewrite Ht. cbn [bind].
  rewrite Hs. cbn [tl]. rewrite Hp, shape_eqb_of_shape.
  destruct (moveaxis_0_last_wf data c (lead ++ [w]) Hwf Hs)
    as (items & -> & Hlen).
  cbn [bind]. rewrite prod_of_shape by (destruct lead; discriminate).
  cbn [bind]. unfold first_dim. rewrite Hs. cbn [bind].
  unfold reshape at 1. cbn [flat]. rewrite Hlen.
  replace (size_of [size_of (lead ++ [w]); c] =? size_of (lead ++ [w]) * c)%nat
    with true by (symmetry; apply Nat.eqb_eq; simpl; lia).
  cbn [bind]. unfold NuclearNorm._prox_nuclear_norm.
  cbn [NuclearNorm.patch_shape].
  rewrite Hp, but_last_of_shape. cbn [bind].
  rewrite prod_of_shape by exact Hlead. cbn [bind].
  unfold last_dim. cbn [shape rev app]. cbn [bind].
  unfold reshape. cbn [flat]. rewrite Hlen.
  destruct (Nat.eqb_spec (size_of [size_of lead; c])
              (size_of (lead ++ [w]) * c)) as [E|E].
  - exfalso. rewrite size_of_app in E. simpl in E. nia.
  - reflexivity.
Qed.

(** [OWL.op] in mode ['all'] with a zero factor: a zero item comes back
    as [nan]. *)
Lemma owl_zero_item (self : OWL.t) (data : ndarray Cx) (w : weight)
  (i : nat) (z : Cx) :
  is_literal (OWL.mode self) "all" = true ->
  OWL.weights self = OWL.Weights w ->
  OWL.fits w (length (flat data)) ->
  flat data !! i = Some z ->
  cabs z = 0 ->
  exists out, OWL.op self data 0 = Ok out /\ flat out !! i = Some None.
Proof.
  intros Hm Hw Hfit Hz Hz0.
  assert (Hne : flat data <> []).
  { intros E. rewrite E in Hz. discriminate. }
  destruct (prox_owl_structure (flat data) (weight_times w 0) Hne
              (fits_times w 0 _ Hfit))
    as (sh & m & out & Hperm & _ & _ & _ & _ & Hrun & _ & Hout).
  destruct (perm_seq_facts _ _ Hperm) as (_ & _ & _ & Hsurj).
  destruct (Hsurj i ltac:(apply lookup_lt_Some in Hz; exact Hz)) as [j Hj].
  destruct (Hout j i z Hj Hz) as (v & _ & Ho).
  unfold OWL.op. rewrite Hm, Hw. cbn [OWL.threshold_of bind].
  rewrite Hrun. cbn [bind]. eexists. split; [reflexivity|].
  cbn [flat]. rewrite Ho. f_equal. unfold OWL.signed.
  destruct (Req_dec_T (cabs z) 0); [reflexivity|contradiction].
Qed.

(** C3.  A zero [extra_factor] is not the identity for three of the
    operators.  [k_support_norm.op] never reads [extra_factor], and on an
    instance built by the constructor it raises on every vector (the
    constructor stores [lmbda] as [self.weights], the method reads
    [self.lmbda]).  [NuclearNorm.op] raises [ValueError] in its
    single-patch branch when the last axis of the patch shape is not of
    length one (the two reshapes disagree).  [OWL.op], in mode ['all'],
    returns [nan] in the place of every zero item of the data (it
    divides by the magnitude, without a floor). *)
Theorem zero_factor_not_identity :
  (forall (fuel : nat) (k lmbda : R) (data : list Cx),
     exists e,
       k_support_norm.op (S fuel) (k_support_norm.__init__ k lmbda) data 0
       = Some (Raise e))
  /\ (forall svd extract_patches_2d reconstruct_non_overlapped_patches_2d
             reconstruct_overlapped_patches_2d
             (self : NuclearNorm.t) (data : ndarray Cx) (num_cores : nat)
             (c : nat) (lead : list nat) (w : nat) (threshold : R),
        wf data ->
        shape data = c :: lead ++ [w] ->
        NuclearNorm.patch_shape self = of_shape (lead ++ [w]) ->
        times_float (NuclearNorm.weights self) 0 = Ok threshold ->
        lead <> [] -> (0 < c)%nat -> (0 < size_of lead)%nat -> w <> 1%nat ->
        NuclearNorm.op svd extract_patches_2d
          reconstruct_non_overlapped_patches_2d
          reconstruct_overlapped_patches_2d self data 0 num_cores
        = Raise ValueError)
  /\ (forall (self : OWL.t) (data : ndarray Cx) (w : weight) (i : nat)
             (z : Cx),
        is_literal (OWL.mode self) "all" = true ->
        OWL.weights self = OWL.Weights w ->
        OWL.fits w (length (flat data)) ->
        flat data !! i = Some z ->
        cabs z = 0 ->
        exists out,
          OWL.op self data 0 = Ok out /\ flat out !! i = Some None).
Proof.
  split; [|split].
  - intros fuel k lmbda data. apply op_never_returns.
  - intros. eapply single_patch_at_zero; eassumption.
  - intros. eapply owl_zero_item; eassumption.
Qed.

(** The three operators at a zero factor, on samples: a vector of three
    items, two channels of a [2 x 2] image with the patch shape
    [(2, 2)], and a vector with a zero item. *)
Lemma zero_factor_not_identity_witness :
  (exists e,
     k_support_norm.op 1 (k_support_norm.__init__ 2 1)
       Samples.three_samples 0
     = Some (Raise e))
  /\ NuclearNorm.op Samples.svd_of_zeros Samples.no_patches
       Samples.blank_image Samples.blank_overlapped Samples.nuclear_2x2
       Samples.ones_2x2x2 0 1
     = Raise ValueError
  /\ exists out,
       OWL.op Samples.owl_all Samples.with_zero 0 = Ok out
       /\ flat out !! 1%nat = Some None.
Proof.
  destruct zero_factor_not_identity as (Hk & Hn & Ho).
  split; [apply (Hk 0%nat 2 1 Samples.three_samples)|]. split.
  - apply (Hn Samples.svd_of_zeros Samples.no_patches Samples.blank_image
             Samples.blank_overlapped Samples.nuclear_2x2 Samples.ones_2x2x2
             1%nat 2%nat [2%nat] 2%nat (1 * 0));
      try reflexivity; try discriminate; simpl; lia.
  - apply (Ho Samples.owl_all Samples.with_zero (WScalar 1) 1%nat czero);
      try reflexivity.
    change czero with (of_real 0). rewrite cabs_of_real. apply Rabs_R0.
Defined.

End ZeroFactor.
